(** * The BlueZ D-Bus object manager of bleak, and its scanner front end

    A shallow embedding of [bleak/backends/bluezdbus/manager.py] and of the
    constructor of [bleak/backends/bluezdbus/scanner.py].

    - Python dictionaries keyed by strings are [gmap string _]; the three
      parent-to-children maps are dictionaries keyed by a property value,
      hence [gmap Key (gset string)].
    - A coroutine is a tree of suspension points ([Coro]): at every [await]
      the manager state is handed to the event loop, which answers with a
      reply or an exception and with the state as it is on resumption
      (signals may have been handled in between).
    - [_parse_msg] does not suspend; it is a state-and-exception function
      ([Sync]). An exception leaves the state as mutated so far, as in
      Python. *)

From Stdlib Require Import ZArith Lia String Ascii List.
From Stdlib Require Import Strings.Byte.
From stdpp Require Import base option list gmap sets strings pretty.

Local Open Scope Z_scope.
Local Open Scope string_scope.

Set Warnings "-register-all".

(** ** Property values *)

(** The values [unpack_variants] leaves in a property dictionary. *)
Inductive Value : Type :=
| VBool (b : bool)
| VInt (n : Z)
| VStr (s : string)
| VBytes (bs : list byte)
| VList (items : list Value).

Definition bool_to_Z (b : bool) : Z := if b then 1 else 0.

Fixpoint bytes_eqb (xs ys : list byte) : bool :=
  match xs, ys with
  | [], [] => true
  | x :: xs', y :: ys' => Byte.eqb x y && bytes_eqb xs' ys'
  | _, _ => false
  end.

(** Python's [==] on these values; [bool] is a subtype of [int], so
    [True == 1]. *)
Fixpoint py_eq (a b : Value) : bool :=
  match a, b with
  | VBool x, VBool y => Bool.eqb x y
  | VBool x, VInt n | VInt n, VBool x => Z.eqb (bool_to_Z x) n
  | VInt m, VInt n => Z.eqb m n
  | VStr s, VStr t => String.eqb s t
  | VBytes xs, VBytes ys => bytes_eqb xs ys
  | VList xs, VList ys =>
      (fix go (xs ys : list Value) : bool :=
         match xs, ys with
         | [], [] => true
         | x :: xs', y :: ys' => py_eq x y && go xs' ys'
         | _, _ => false
         end) xs ys
  | _, _ => false
  end.

(** A value used as a dictionary key. Equal values are the same key
    ([True] and [1] coincide); a list is not hashable. *)
Inductive Key : Type :=
| KInt (n : Z)
| KStr (s : string)
| KBytes (bs : list N).

Definition hash_key (v : Value) : option Key :=
  match v with
  | VBool b => Some (KInt (bool_to_Z b))
  | VInt n => Some (KInt n)
  | VStr s => Some (KStr s)
  | VBytes bs => Some (KBytes (map Byte.to_N bs))
  | VList _ => None
  end.

#[global] Instance Key_eq_dec : EqDecision Key.
Proof. solve_decision. Defined.

Definition Key_to_sum (k : Key) : Z + (string + list N) :=
  match k with
  | KInt n => inl n
  | KStr s => inr (inl s)
  | KBytes bs => inr (inr bs)
  end.

Definition Key_of_sum (x : Z + (string + list N)) : Key :=
  match x with
  | inl n => KInt n
  | inr (inl s) => KStr s
  | inr (inr bs) => KBytes bs
  end.

#[global] Instance Key_countable : Countable Key.
Proof.
  refine (inj_countable' Key_to_sum Key_of_sum _).
  intros []; reflexivity.
Defined.

(** A property dictionary: property name to value. *)
Abbreviation Props := (gmap string Value).

(** An interface dictionary: interface name to property dictionary. *)
Abbreviation Interfaces := (gmap string (gmap string Value)).

(** A parent-to-children map. *)
Abbreviation Index := (gmap Key (gset string)).

(** ** Names from [defs.py] *)

(** Modelled from the spec: the interface-name constants of [defs.py], a
    module that is not among the sources. The spec speaks of the device,
    service, characteristic and descriptor interfaces; the values are the
    names BlueZ gives them. Only that they differ from one another
    matters below. *)
Definition DEVICE_INTERFACE : string := "org.bluez.Device1".
Definition GATT_SERVICE_INTERFACE : string := "org.bluez.GattService1".
Definition GATT_CHARACTERISTIC_INTERFACE : string := "org.bluez.GattCharacteristic1".
Definition GATT_DESCRIPTOR_INTERFACE : string := "org.bluez.GattDescriptor1".

(** ** Exceptions and results *)

Inductive Exn : Type :=
| BleakError (msg : string)
| BleakDBusError (error_name : string)
| KeyError (key : string)
| ValueError
| TypeError
| AttributeError
| RuntimeError (msg : string)
| External (name : string).

Inductive Result (A : Type) : Type :=
| Ok (a : A)
| Err (e : Exn).
Arguments Ok {A} a.
Arguments Err {A} e.

(** ** Registrations *)

(** A Python function object; two of them are equal when they are the
    same object. *)
Abbreviation Callback := nat.

Record CallbackAndState := {
  callback : Callback;
  adapter_path : string
}.

Record DeviceRemovedCallbackAndState := {
  removed_callback : Callback;
  removed_adapter_path : string
}.

Record DeviceWatcher := {
  device_path : string;
  on_connected_changed : Callback;
  on_characteristic_value_changed : Callback
}.

#[global] Instance CallbackAndState_eq_dec : EqDecision CallbackAndState.
Proof. solve_decision. Defined.
#[global] Instance DeviceRemovedCallbackAndState_eq_dec :
  EqDecision DeviceRemovedCallbackAndState.
Proof. solve_decision. Defined.
#[global] Instance DeviceWatcher_eq_dec : EqDecision DeviceWatcher.
Proof. solve_decision. Defined.

(** The closure [callback] that [_wait_condition] builds: what it
    captured, the [asyncio.Event] it sets, and its identity. *)
Record ConditionCallback := {
  cc_id : nat;
  cc_device_path : string;
  cc_property_name : string;
  cc_property_value : Value;
  cc_event : nat
}.

(** ** Handle objects and the service collection *)

Record BleakGATTServiceBlueZDBus := {
  svc_obj : Props;
  svc_path : string
}.

Record BleakGATTCharacteristicBlueZDBus := {
  chr_obj : Props;
  chr_path : string;
  chr_service_uuid : string;
  chr_service_handle : Z;
  max_write_without_response_size : Z
}.

Record BleakGATTDescriptorBlueZDBus := {
  dsc_obj : Props;
  dsc_path : string;
  dsc_characteristic_uuid : string;
  dsc_characteristic_handle : Z
}.

(** Modelled from the spec: the handle classes live in modules that are
    not among the sources; the manager "supplies them only the raw
    property dictionaries and identity strings they need". The
    attributes [uuid] and [handle] that [get_services] reads back from a
    service and from a characteristic are left to the class. *)
Class GattObjects := {
  service_uuid : BleakGATTServiceBlueZDBus → string;
  service_handle : BleakGATTServiceBlueZDBus → Z;
  characteristic_uuid : BleakGATTCharacteristicBlueZDBus → string;
  characteristic_handle : BleakGATTCharacteristicBlueZDBus → Z
}.

Record BleakGATTServiceCollection := {
  coll_id : nat;
  coll_services : list BleakGATTServiceBlueZDBus;
  coll_characteristics : list BleakGATTCharacteristicBlueZDBus;
  coll_descriptors : list BleakGATTDescriptorBlueZDBus
}.

(** ** The manager *)

(** One invocation of a registered callback, with its arguments. *)
Inductive Call : Type :=
| CallAdvertisement (cb : Callback) (path : string) (device : Props)
| CallDeviceRemoved (cb : Callback) (path : string)
| CallConnectedChanged (cb : Callback) (value : Value)
| CallValueChanged (cb : Callback) (path : string) (value : Value).

(** The attributes of [BlueZManager] set in [__init__], followed by the
    pieces of the interpreter the code relies on: the [connected] flag
    of every [MessageBus] object created so far ([_bus] refers to one of
    them), the [asyncio.Event] objects that are set, the next unused
    object identity, and the trace of callbacks invoked so far (oldest
    first). The two sets of registrations are lists without repetition,
    in the order in which the set is iterated. *)
Record State := {
  _bus : option nat;
  _properties : gmap string (gmap string (gmap string Value));
  _service_map : gmap Key (gset string);
  _characteristic_map : gmap Key (gset string);
  _descriptor_map : gmap Key (gset string);
  _advertisement_callbacks : list CallbackAndState;
  _device_removed_callbacks : list DeviceRemovedCallbackAndState;
  _device_watchers : list DeviceWatcher;
  _condition_callbacks : list ConditionCallback;
  _services_cache : gmap string BleakGATTServiceCollection;
  bus_connected : gmap nat bool;
  events : gset nat;
  next_id : nat;
  calls : list Call
}.

(** [BlueZManager.__init__] *)
Definition __init__ : State := {|
  _bus := None;
  _properties := ∅;
  _service_map := ∅;
  _characteristic_map := ∅;
  _descriptor_map := ∅;
  _advertisement_callbacks := [];
  _device_removed_callbacks := [];
  _device_watchers := [];
  _condition_callbacks := [];
  _services_cache := ∅;
  bus_connected := ∅;
  events := ∅;
  next_id := 0%nat;
  calls := []
|}.

(** Field updates. *)
Definition set_bus (x : option nat) (s : State)
    : State :=
  {| _bus := x; _properties := _properties s; _service_map := _service_map s;
     _characteristic_map := _characteristic_map s; _descriptor_map := _descriptor_map s;
     _advertisement_callbacks := _advertisement_callbacks s;
     _device_removed_callbacks := _device_removed_callbacks s;
     _device_watchers := _device_watchers s;
     _condition_callbacks := _condition_callbacks s;
     _services_cache := _services_cache s; bus_connected := bus_connected s;
     events := events s; next_id := next_id s; calls := calls s |}.

Definition set_properties (x : gmap string (gmap string (gmap string Value))) (s : State)
    : State :=
  {| _bus := _bus s; _properties := x; _service_map := _service_map s;
     _characteristic_map := _characteristic_map s; _descriptor_map := _descriptor_map s;
     _advertisement_callbacks := _advertisement_callbacks s;
     _device_removed_callbacks := _device_removed_callbacks s;
     _device_watchers := _device_watchers s;
     _condition_callbacks := _condition_callbacks s;
     _services_cache := _services_cache s; bus_connected := bus_connected s;
     events := events s; next_id := next_id s; calls := calls s |}.

Definition set_service_map (x : gmap Key (gset string)) (s : State)
    : State :=
  {| _bus := _bus s; _properties := _properties s; _service_map := x;
     _characteristic_map := _characteristic_map s; _descriptor_map := _descriptor_map s;
     _advertisement_callbacks := _advertisement_callbacks s;
     _device_removed_callbacks := _device_removed_callbacks s;
     _device_watchers := _device_watchers s;
     _condition_callbacks := _condition_callbacks s;
     _services_cache := _services_cache s; bus_connected := bus_connected s;
     events := events s; next_id := next_id s; calls := calls s |}.

Definition set_characteristic_map (x : gmap Key (gset string)) (s : State)
    : State :=
  {| _bus := _bus s; _properties := _properties s; _service_map := _service_map s;
     _characteristic_map := x; _descriptor_map := _descriptor_map s;
     _advertisement_callbacks := _advertisement_callbacks s;
     _device_removed_callbacks := _device_removed_callbacks s;
     _device_watchers := _device_watchers s;
     _condition_callbacks := _condition_callbacks s;
     _services_cache := _services_cache s; bus_connected := bus_connected s;
     events := events s; next_id := next_id s; calls := calls s |}.

Definition set_descriptor_map (x : gmap Key (gset string)) (s : State)
    : State :=
  {| _bus := _bus s; _properties := _properties s; _service_map := _service_map s;
     _characteristic_map := _characteristic_map s; _descriptor_map := x;
     _advertisement_callbacks := _advertisement_callbacks s;
     _device_removed_callbacks := _device_removed_callbacks s;
     _device_watchers := _device_watchers s;
     _condition_callbacks := _condition_callbacks s;
     _services_cache := _services_cache s; bus_connected := bus_connected s;
     events := events s; next_id := next_id s; calls := calls s |}.

Definition set_advertisement_callbacks (x : list CallbackAndState) (s : State)
    : State :=
  {| _bus := _bus s; _properties := _properties s; _service_map := _service_map s;
     _characteristic_map := _characteristic_map s; _descriptor_map := _descriptor_map s;
     _advertisement_callbacks := x;
     _device_removed_callbacks := _device_removed_callbacks s;
     _device_watchers := _device_watchers s;
     _condition_callbacks := _condition_callbacks s;
     _services_cache := _services_cache s; bus_connected := bus_connected s;
     events := events s; next_id := next_id s; calls := calls s |}.

Definition set_device_removed_callbacks (x : list DeviceRemovedCallbackAndState) (s : State)
    : State :=
  {| _bus := _bus s; _properties := _properties s; _service_map := _service_map s;
     _characteristic_map := _characteristic_map s; _descriptor_map := _descriptor_map s;
     _advertisement_callbacks := _advertisement_callbacks s;
     _device_removed_callbacks := x; _device_watchers := _device_watchers s;
     _condition_callbacks := _condition_callbacks s;
     _services_cache := _services_cache s; bus_connected := bus_connected s;
     events := events s; next_id := next_id s; calls := calls s |}.

Definition set_device_watchers (x : list DeviceWatcher) (s : State)
    : State :=
  {| _bus := _bus s; _properties := _properties s; _service_map := _service_map s;
     _characteristic_map := _characteristic_map s; _descriptor_map := _descriptor_map s;
     _advertisement_callbacks := _advertisement_callbacks s;
     _device_removed_callbacks := _device_removed_callbacks s; _device_watchers := x;
     _condition_callbacks := _condition_callbacks s;
     _services_cache := _services_cache s; bus_connected := bus_connected s;
     events := events s; next_id := next_id s; calls := calls s |}.

Definition set_condition_callbacks (x : list ConditionCallback) (s : State)
    : State :=
  {| _bus := _bus s; _properties := _properties s; _service_map := _service_map s;
     _characteristic_map := _characteristic_map s; _descriptor_map := _descriptor_map s;
     _advertisement_callbacks := _advertisement_callbacks s;
     _device_removed_callbacks := _device_removed_callbacks s;
     _device_watchers := _device_watchers s; _condition_callbacks := x;
     _services_cache := _services_cache s; bus_connected := bus_connected s;
     events := events s; next_id := next_id s; calls := calls s |}.

Definition set_services_cache (x : gmap string BleakGATTServiceCollection) (s : State)
    : State :=
  {| _bus := _bus s; _properties := _properties s; _service_map := _service_map s;
     _characteristic_map := _characteristic_map s; _descriptor_map := _descriptor_map s;
     _advertisement_callbacks := _advertisement_callbacks s;
     _device_removed_callbacks := _device_removed_callbacks s;
     _device_watchers := _device_watchers s;
     _condition_callbacks := _condition_callbacks s; _services_cache := x;
     bus_connected := bus_connected s; events := events s; next_id := next_id s;
     calls := calls s |}.

Definition set_bus_connected (x : gmap nat bool) (s : State)
    : State :=
  {| _bus := _bus s; _properties := _properties s; _service_map := _service_map s;
     _characteristic_map := _characteristic_map s; _descriptor_map := _descriptor_map s;
     _advertisement_callbacks := _advertisement_callbacks s;
     _device_removed_callbacks := _device_removed_callbacks s;
     _device_watchers := _device_watchers s;
     _condition_callbacks := _condition_callbacks s;
     _services_cache := _services_cache s; bus_connected := x; events := events s;
     next_id := next_id s; calls := calls s |}.

Definition set_events (x : gset nat) (s : State)
    : State :=
  {| _bus := _bus s; _properties := _properties s; _service_map := _service_map s;
     _characteristic_map := _characteristic_map s; _descriptor_map := _descriptor_map s;
     _advertisement_callbacks := _advertisement_callbacks s;
     _device_removed_callbacks := _device_removed_callbacks s;
     _device_watchers := _device_watchers s;
     _condition_callbacks := _condition_callbacks s;
     _services_cache := _services_cache s; bus_connected := bus_connected s; events := x;
     next_id := next_id s; calls := calls s |}.

Definition set_next_id (x : nat) (s : State)
    : State :=
  {| _bus := _bus s; _properties := _properties s; _service_map := _service_map s;
     _characteristic_map := _characteristic_map s; _descriptor_map := _descriptor_map s;
     _advertisement_callbacks := _advertisement_callbacks s;
     _device_removed_callbacks := _device_removed_callbacks s;
     _device_watchers := _device_watchers s;
     _condition_callbacks := _condition_callbacks s;
     _services_cache := _services_cache s; bus_connected := bus_connected s;
     events := events s; next_id := x; calls := calls s |}.

Definition set_calls (x : list Call) (s : State)
    : State :=
  {| _bus := _bus s; _properties := _properties s; _service_map := _service_map s;
     _characteristic_map := _characteristic_map s; _descriptor_map := _descriptor_map s;
     _advertisement_callbacks := _advertisement_callbacks s;
     _device_removed_callbacks := _device_removed_callbacks s;
     _device_watchers := _device_watchers s;
     _condition_callbacks := _condition_callbacks s;
     _services_cache := _services_cache s; bus_connected := bus_connected s;
     events := events s; next_id := next_id s; calls := x |}.

(** [table[path][interface]] and [table[path][interface][name]], where
    they exist. *)
Definition interface_at (table : gmap string (gmap string (gmap string Value)))
    (path interface : string) : option (gmap string Value) :=
  ifaces ← table !! path; ifaces !! interface.

Definition property_at (table : gmap string (gmap string (gmap string Value)))
    (path interface name : string) : option Value :=
  props ← interface_at table path interface; props !! name.

(** ** Code that does not suspend *)

(** A method body without [await]: it may change the state and either
    returns or raises. *)
Definition Sync (A : Type) : Type := State → State * Result A.

Definition ret {A} (a : A) : Sync A := λ s, (s, Ok a).
Definition raise {A} (e : Exn) : Sync A := λ s, (s, Err e).
Definition get : Sync State := λ s, (s, Ok s).
Definition modify (f : State → State) : Sync unit := λ s, (f s, Ok tt).

Definition bind {A B} (m : Sync A) (f : A → Sync B) : Sync B :=
  λ s, match m s with
       | (s', Ok a) => f a s'
       | (s', Err e) => (s', Err e)
       end.

Declare Scope sync_scope.
Delimit Scope sync_scope with sync.
Bind Scope sync_scope with Sync.
Notation "'let!' x ':=' m 'in' k" := (bind m (λ x, k))
  (at level 10, x name, m at level 100, k at level 200) : sync_scope.
Notation "m '>>' k" := (bind m (λ _, k))
  (at level 100, k at level 200, right associativity) : sync_scope.

(** [d[k]] *)
Definition getitem {V} (d : gmap string V) (k : string) : Sync V :=
  match d !! k with
  | Some v => ret v
  | None => raise (KeyError k)
  end.

(** [for x in l: body(x)] over a list that the body leaves alone, or
    over a copy. *)
Fixpoint for_each {A} (l : list A) (body : A → Sync unit) : Sync unit :=
  match l with
  | [] => ret tt
  | x :: rest => (body x >> for_each rest body)%sync
  end.

(** [for x in some_set: body(x)] over the live set. Every step of a set
    iterator first compares the size of the set with the size it had
    when the loop began, and raises if they differ. [todo] are the
    members not yet visited. When a body adds and removes so that the
    size is unchanged, which of the remaining members CPython still
    visits depends on the hash table; here they are the members present
    when the loop began. *)
Fixpoint for_live_set {A} (size0 : nat) (current : State → list A)
    (todo : list A) (body : A → Sync unit) : Sync unit :=
  λ s,
    if negb (Nat.eqb (length (current s)) size0)
    then (s, Err (RuntimeError "Set changed size during iteration"))
    else match todo with
         | [] => (s, Ok tt)
         | x :: rest => (body x >> for_live_set size0 current rest body)%sync s
         end.

Definition for_set {A} (current : State → list A) (body : A → Sync unit) : Sync unit :=
  (let! s := get in
   for_live_set (length (current s)) current (current s) body)%sync.

(** ** Device watchers *)

Definition add_device_watcher (device_path : string)
    (on_connected_changed on_characteristic_value_changed : Callback) : Sync DeviceWatcher :=
  let watcher := {| device_path := device_path;
                    on_connected_changed := on_connected_changed;
                    on_characteristic_value_changed := on_characteristic_value_changed |} in
  (modify (λ s, if decide (watcher ∈ _device_watchers s) then s
                else set_device_watchers (_device_watchers s ++ [watcher]) s) >>
   ret watcher)%sync.

Definition remove_device_watcher (watcher : DeviceWatcher) : Sync unit :=
  (let! s := get in
   if decide (watcher ∈ _device_watchers s)
   then modify (set_device_watchers (filter (λ w, w ≠ watcher) (_device_watchers s)))
   else raise (KeyError (device_path watcher)))%sync.

(** ** Registered callbacks *)

(** What a callback does to the manager while it runs. A callback is
    called from [_parse_msg], which is not a coroutine, so it can reach
    the manager only through the methods that do not suspend: it adds
    or removes device watchers, and it may raise. *)
Inductive CallbackOp : Type :=
| OpAddWatcher (w : DeviceWatcher)
| OpRemoveWatcher (w : DeviceWatcher)
| OpRaise (e : Exn).

(** The code behind the registered callbacks. *)
Class UserCode := { user_code : Call → list CallbackOp }.

Definition run_op (op : CallbackOp) : Sync unit :=
  match op with
  | OpAddWatcher w =>
      (add_device_watcher (device_path w) (on_connected_changed w)
         (on_characteristic_value_changed w) >> ret tt)%sync
  | OpRemoveWatcher w => remove_device_watcher w
  | OpRaise e => raise e
  end.

Definition invoke `{UserCode} (c : Call) : Sync unit :=
  (modify (λ s, set_calls (calls s ++ [c]) s) >>
   for_each (user_code c) run_op)%sync.

(** The closure [callback] of [_wait_condition]. *)
Definition run_condition_callback (cc : ConditionCallback) : Sync unit :=
  (let! s := get in
   let! ifaces := getitem (_properties s) (cc_device_path cc) in
   let! props := getitem ifaces DEVICE_INTERFACE in
   let! v := getitem props (cc_property_name cc) in
   if py_eq v (cc_property_value cc)
   then modify (λ s, set_events ({[cc_event cc]} ∪ events s) s)
   else ret tt)%sync.

(** ** Bus messages *)

(** The message types other than [SIGNAL]. *)
Inductive MessageType : Type := METHOD_CALL | METHOD_RETURN | ERROR.

(** An incoming message. The body of a signal has the shape its member
    name announces; [changed] and the property dictionaries are already
    unpacked. The pairs of [InterfacesAdded] are in the order of the
    message. *)
Inductive Message : Type :=
| InterfacesAdded (obj_path : string) (interfaces_and_props : list (string * gmap string Value))
| InterfacesRemoved (obj_path : string) (interfaces : list string)
| PropertiesChanged (path : string) (interface : string)
    (changed : gmap string Value) (invalidated : list string)
| OtherSignal (member : string)
| NotSignal (message_type : MessageType).

Definition keys {V} (d : gmap string V) : list string := (map_to_list d).*1.

(** ** [_run_advertisement_callbacks] *)

(** The list is iterated in place; no callback can append to it or
    remove from it (see [CallbackOp]), so the list read on entry is the
    list the iterator walks. *)
Definition _run_advertisement_callbacks `{UserCode}
    (device_path : string) (device : gmap string Value) (changed : list string) : Sync unit :=
  (let! s := get in
   for_each (_advertisement_callbacks s) (λ c,
     if negb (String.prefix (adapter_path c) device_path)
     then ret tt
     else invoke (CallAdvertisement (callback c) device_path device)))%sync.

(** ** [_parse_msg] *)

(** [index.setdefault(props[key], set()).add(obj_path)] *)
Definition index_add (index : State → gmap Key (gset string))
    (set_index : gmap Key (gset string) → State → State)
    (props : gmap string Value) (key : string) (obj_path : string) : Sync unit :=
  (let! parent := getitem props key in
   match hash_key parent with
   | None => raise TypeError
   | Some k =>
       modify (λ s, set_index (<[k := {[obj_path]} ∪ default ∅ (index s !! k)]> (index s)) s)
   end)%sync.

(** [try: del index[obj_path] except KeyError: pass] *)
Definition index_del (index : State → gmap Key (gset string))
    (set_index : gmap Key (gset string) → State → State) (obj_path : string) : Sync unit :=
  modify (λ s, set_index (delete (KStr obj_path) (index s)) s).

Definition interface_added `{UserCode} (obj_path : string)
    (entry : string * gmap string Value) : Sync unit :=
  let '(interface, unpacked_props) := entry in
  (modify (λ s, set_properties
       (<[obj_path := <[interface := unpacked_props]> (default ∅ (_properties s !! obj_path))]>
          (_properties s)) s) >>
   (if decide (interface = GATT_SERVICE_INTERFACE)
    then index_add _service_map set_service_map unpacked_props "Device" obj_path
    else if decide (interface = GATT_CHARACTERISTIC_INTERFACE)
    then index_add _characteristic_map set_characteristic_map unpacked_props "Service" obj_path
    else if decide (interface = GATT_DESCRIPTOR_INTERFACE)
    then index_add _descriptor_map set_descriptor_map unpacked_props "Characteristic" obj_path
    else ret tt) >>
   if decide (interface = DEVICE_INTERFACE)
   then _run_advertisement_callbacks obj_path unpacked_props (keys unpacked_props)
   else ret tt)%sync.

(** The loop over the device-removed callbacks. The list is iterated
    in place; no callback can change it. *)
Definition notify_removed `{UserCode} (obj_path : string) : Sync unit :=
  (let! s := get in
   for_each (_device_removed_callbacks s) (λ c,
     if String.prefix (removed_adapter_path c) obj_path
     then invoke (CallDeviceRemoved (removed_callback c) obj_path)
     else ret tt))%sync.

Definition interface_removed `{UserCode} (obj_path : string) (interface : string) : Sync unit :=
  (modify (λ s, match _properties s !! obj_path with
                | Some ifaces =>
                    set_properties (<[obj_path := delete interface ifaces]> (_properties s)) s
                | None => s
                end) >>
   if decide (interface = DEVICE_INTERFACE)
   then
     modify (λ s, set_services_cache (delete obj_path (_services_cache s)) s) >>
     index_del _service_map set_service_map obj_path >>
     notify_removed obj_path
   else if decide (interface = GATT_SERVICE_INTERFACE)
   then index_del _characteristic_map set_characteristic_map obj_path
   else if decide (interface = GATT_CHARACTERISTIC_INTERFACE)
   then index_del _descriptor_map set_descriptor_map obj_path
   else ret tt)%sync.

(** The dictionary [self_interface] refers to, which stays in the table
    for the whole call. *)
Definition self_interface (path interface : string) : Sync (gmap string Value) :=
  (let! s := get in
   let! ifaces := getitem (_properties s) path in
   getitem ifaces interface)%sync.

Definition set_self_interface (path interface : string) (props : gmap string Value)
    (s : State) : State :=
  set_properties
    (<[path := <[interface := props]> (default ∅ (_properties s !! path))]> (_properties s)) s.

(** [del self_interface[name]] *)
Definition del_property (path interface name : string) : Sync unit :=
  (let! props := self_interface path interface in
   match props !! name with
   | None => raise (KeyError name)
   | Some _ => modify (set_self_interface path interface (delete name props))
   end)%sync.

(** The two loops over the device watchers: over a copy of the set for
    a change of ["Connected"], over the set itself for a change of
    ["Value"]. *)
Definition notify_connected `{UserCode} (path interface : string) : Sync unit :=
  (let! s := get in
   for_each (_device_watchers s) (λ w,
     if decide (path = device_path w)
     then
       let! props := self_interface path interface in
       let! v := getitem props "Connected" in
       invoke (CallConnectedChanged (on_connected_changed w) v)
     else ret tt))%sync.

Definition notify_value `{UserCode} (path interface : string) : Sync unit :=
  for_set _device_watchers (λ w,
    if String.prefix (device_path w) path
    then
      (let! props := self_interface path interface in
       let! v := getitem props "Value" in
       invoke (CallValueChanged (on_characteristic_value_changed w) path v))%sync
    else ret tt).

Definition properties_changed `{UserCode} (path interface : string)
    (changed : gmap string Value) (invalidated : list string) : Sync unit :=
  (let! s := get in
   match interface_at (_properties s) path interface with
   | None => ret tt
   | Some props =>
       modify (set_self_interface path interface (changed ∪ props)) >>
       for_each invalidated (del_property path interface) >>
       if decide (interface = DEVICE_INTERFACE)
       then
         (let! device := self_interface path interface in
          _run_advertisement_callbacks path device (keys changed)) >>
         for_set _condition_callbacks run_condition_callback >>
         if decide (is_Some (changed !! "Connected"))
         then notify_connected path interface
         else ret tt
       else if decide (interface = GATT_CHARACTERISTIC_INTERFACE)
       then
         if decide (is_Some (changed !! "Value"))
         then notify_value path interface
         else ret tt
       else ret tt
   end)%sync.

Definition _parse_msg `{UserCode} (message : Message) : Sync unit :=
  match message with
  | NotSignal _ => ret tt
  | InterfacesAdded obj_path interfaces_and_props =>
      for_each interfaces_and_props (interface_added obj_path)
  | InterfacesRemoved obj_path interfaces =>
      for_each interfaces (interface_removed obj_path)
  | PropertiesChanged path interface changed invalidated =>
      properties_changed path interface changed invalidated
  | OtherSignal _ => ret tt
  end.

(** ** Coroutines *)

(** Modelled from the spec: further constants of [defs.py]. *)
Definition BLUEZ_SERVICE : string := "org.bluez".
Definition OBJECT_MANAGER_INTERFACE : string := "org.freedesktop.DBus.ObjectManager".
Definition PROPERTIES_INTERFACE : string := "org.freedesktop.DBus.Properties".
Definition ADAPTER_INTERFACE : string := "org.bluez.Adapter1".
Definition ADVERTISEMENT_MONITOR_MANAGER_INTERFACE : string :=
  "org.bluez.AdvertisementMonitorManager1".

Record Variant := {
  signature : string;
  value : Value
}.

(** [Variant(signature, value)] *)
Definition variant (sig : string) (v : Value) : Variant :=
  {| signature := sig; value := v |}.

Record MatchRules := {
  rules_interface : string;
  rules_member : string;
  arg0path : option string;
  path_namespace : option string
}.

Inductive CallBody : Type :=
| NoBody
| FiltersBody (filters : gmap string Variant)
| ObjectPathBody (p : string).

(** An outgoing method call, [Message(destination=..., ...)]. *)
Record MethodCall := {
  destination : string;
  call_path : string;
  call_interface : string;
  call_member : string;
  call_signature : string;
  call_body : CallBody
}.

(** The reply to a method call. [body] is [reply.body[0].items()], the
    objects in the order of the message; it is empty for the calls whose
    reply carries nothing the manager reads. *)
Inductive Reply : Type :=
| MethodReturn (body : list (string * gmap string (gmap string Value)))
| ErrorReply (error_name : string).

(** What a coroutine awaits. *)
Inductive Request : Type :=
| AcquireLock
| Connect (bus : nat)
| AddMatch (bus : nat) (rules : MatchRules)
| BusCall (bus : nat) (msg : MethodCall)
| EventWait (event : nat).

(** Calls into the bus and the lock that return at once. *)
Inductive Action : Type :=
| ReleaseLock
| AddMessageHandler (bus : nat)
| Disconnect (bus : nat)
| Export (bus : nat) (p : string) (monitor : nat)
| Unexport (bus : nat) (p : string) (monitor : nat).

(** How an [await] ends: with a value, or with an exception raised by
    the awaited object (a cancellation, a transport error). *)
Inductive Answer : Type :=
| Returned (r : Reply)
| Thrown (name : string).

(** A running coroutine: finished in a state with a result, about to
    perform an action, or suspended in a state on a request. The event
    loop resumes a suspended coroutine with an answer and the state of
    the manager at that moment. *)
Inductive Coro (A : Type) : Type :=
| Done (s : State) (r : Result A)
| Do (a : Action) (k : Coro A)
| Await (q : Request) (s : State) (k : Answer → State → Coro A).
Arguments Done {A} s r.
Arguments Do {A} a k.
Arguments Await {A} q s k.

Definition Async (A : Type) : Type := State → Coro A.

(** Continue with [h] where [c] finishes. *)
Fixpoint on_exit {A B} (c : Coro A) (h : State → Result A → Coro B) : Coro B :=
  match c with
  | Done s r => h s r
  | Do a k => Do a (on_exit k h)
  | Await q s k => Await q s (λ ans s', on_exit (k ans s') h)
  end.

Definition aret {A} (a : A) : Async A := λ s, Done s (Ok a).
Definition araise {A} (e : Exn) : Async A := λ s, Done s (Err e).

Definition abind {A B} (m : Async A) (f : A → Async B) : Async B :=
  λ s, on_exit (m s) (λ s' r,
    match r with
    | Ok a => f a s'
    | Err e => Done s' (Err e)
    end).

Declare Scope async_scope.
Delimit Scope async_scope with async.
Bind Scope async_scope with Async.
Notation "'let!' x ':=' m 'in' k" := (abind m (λ x, k))
  (at level 10, x name, m at level 100, k at level 200) : async_scope.
Notation "m '>>' k" := (abind m (λ _, k))
  (at level 100, k at level 200, right associativity) : async_scope.

Definition lift {A} (m : Sync A) : Async A :=
  λ s, let '(s', r) := m s in Done s' r.

Definition perform (a : Action) : Async unit := λ s, Do a (Done s (Ok tt)).

(** [await q] *)
Definition await (q : Request) : Async Reply :=
  λ s, Await q s (λ ans s',
    match ans with
    | Returned r => Done s' (Ok r)
    | Thrown name => Done s' (Err (External name))
    end).

(** [try: body except BaseException: handler; raise] *)
Definition try_except {A} (body : Async A) (handler : Async unit) : Async A :=
  λ s, on_exit (body s) (λ s' r,
    match r with
    | Ok a => Done s' (Ok a)
    | Err e =>
        on_exit (handler s') (λ s'' r',
          match r' with
          | Ok _ => Done s'' (Err e)
          | Err e' => Done s'' (Err e')
          end)
    end).

(** [try: body finally: handler] *)
Definition try_finally {A} (body : Async A) (handler : Async unit) : Async A :=
  λ s, on_exit (body s) (λ s' r,
    on_exit (handler s') (λ s'' r',
      match r' with
      | Ok _ => Done s'' r
      | Err e' => Done s'' (Err e')
      end)).

(** [async with self._bus_lock: body] *)
Definition with_bus_lock {A} (body : Async A) : Async A :=
  λ s, Await AcquireLock s (λ ans s',
    match ans with
    | Returned _ => on_exit (body s') (λ s'' r, Do ReleaseLock (Done s'' r))
    | Thrown name => Done s' (Err (External name))
    end).

(** Resume a suspended coroutine with an answer, in the state of that
    moment. *)
Fixpoint resume {A} (c : Coro A) (ans : Answer) (s' : State) : Coro A :=
  match c with
  | Done s r => Done s r
  | Do a k => Do a (resume k ans s')
  | Await _ _ k => k ans s'
  end.

(** What a coroutine is suspended on, and in which state. *)
Fixpoint pending {A} (c : Coro A) : option (Request * State) :=
  match c with
  | Done _ _ => None
  | Do _ k => pending k
  | Await q s _ => Some (q, s)
  end.

(** The state and result of a coroutine that has finished. *)
Fixpoint outcome {A} (c : Coro A) : option (State * Result A) :=
  match c with
  | Done s r => Some (s, r)
  | Do _ k => outcome k
  | Await _ _ _ => None
  end.

(** [c] can finish in state [sf] with result [r], when the state found
    on each resumption is related by [rely] to the state left at the
    suspension. *)
Fixpoint finishes {A} (rely : Request → State → State → Prop) (c : Coro A)
    (sf : State) (r : Result A) : Prop :=
  match c with
  | Done s r' => s = sf ∧ r' = r
  | Do _ k => finishes rely k sf r
  | Await q s k => ∃ ans s', rely q s s' ∧ finishes rely (k ans s') sf r
  end.

(** [P] holds of every suspension [c] can come to, however the event
    loop answers. *)
Fixpoint every_await {A} (P : Request → State → (Answer → State → Coro A) → Prop)
    (c : Coro A) : Prop :=
  match c with
  | Done _ _ => True
  | Do _ k => every_await P k
  | Await q s k => P q s k ∧ ∀ ans s', every_await P (k ans s')
  end.

(** Modelled from the spec: [assert_reply] of [utils.py], which is not
    among the sources: "the daemon returns an error reply; surfaced to
    the caller as-is". *)
Definition assert_reply (reply : Reply) : Sync unit :=
  match reply with
  | MethodReturn _ => ret tt
  | ErrorReply name => raise (BleakDBusError name)
  end.

Definition reply_body (reply : Reply) : list (string * gmap string (gmap string Value)) :=
  match reply with
  | MethodReturn body => body
  | ErrorReply _ => []
  end.

(** A new object identity. *)
Definition fresh : Sync nat :=
  (let! s := get in
   modify (set_next_id (S (next_id s))) >>
   ret (next_id s))%sync.

(** [asyncio.Event()]: a new event, not set. *)
Definition new_event : Sync nat :=
  (let! event := fresh in
   modify (λ s, set_events (events s ∖ {[event]}) s) >>
   ret event)%sync.

(** [self._bus.call], [self._bus.export]: the bus the attribute refers
    to. *)
Definition the_bus : Sync nat :=
  (let! s := get in
   match _bus s with
   | Some b => ret b
   | None => raise AttributeError
   end)%sync.

(** ** [async_init] *)

(** One round of the loop over [reply.body[0].items()]. *)
Definition load_object (entry : string * gmap string (gmap string Value)) : Sync unit :=
  let '(path, props) := entry in
  (modify (λ s, set_properties (<[path := props]> (_properties s)) s) >>
   (match props !! GATT_SERVICE_INTERFACE with
    | Some service_props =>
        if decide (service_props = ∅) then ret tt
        else index_add _service_map set_service_map service_props "Device" path
    | None => ret tt
    end) >>
   (match props !! GATT_CHARACTERISTIC_INTERFACE with
    | Some char_props =>
        if decide (char_props = ∅) then ret tt
        else index_add _characteristic_map set_characteristic_map char_props "Service" path
    | None => ret tt
    end) >>
   match props !! GATT_DESCRIPTOR_INTERFACE with
   | Some desc_props =>
       if decide (desc_props = ∅) then ret tt
       else index_add _descriptor_map set_descriptor_map desc_props "Characteristic" path
   | None => ret tt
   end)%sync.

Definition clear_tables (s : State) : State :=
  set_descriptor_map ∅ (set_characteristic_map ∅ (set_service_map ∅ (set_properties ∅ s))).

Definition get_managed_objects : MethodCall := {|
  destination := BLUEZ_SERVICE;
  call_path := "/";
  call_interface := OBJECT_MANAGER_INTERFACE;
  call_member := "GetManagedObjects";
  call_signature := "";
  call_body := NoBody
|}.

Definition bus_is_connected (s : State) : bool :=
  match _bus s with
  | Some b => default false (bus_connected s !! b)
  | None => false
  end.

Definition async_init : Async unit :=
  with_bus_lock
    (let! s := lift get in
     if bus_is_connected s then aret tt
     else
       lift (modify (set_services_cache ∅)) >>
       let! bus := lift fresh in
       lift (modify (λ s, set_bus_connected (<[bus := false]> (bus_connected s)) s)) >>
       await (Connect bus) >>
       try_except
         (perform (AddMessageHandler bus) >>
          let! reply := await (AddMatch bus
            {| rules_interface := OBJECT_MANAGER_INTERFACE; rules_member := "InterfacesAdded";
               arg0path := Some "/org/bluez/"; path_namespace := None |}) in
          lift (assert_reply reply) >>
          let! reply := await (AddMatch bus
            {| rules_interface := OBJECT_MANAGER_INTERFACE; rules_member := "InterfacesRemoved";
               arg0path := Some "/org/bluez/"; path_namespace := None |}) in
          lift (assert_reply reply) >>
          let! reply := await (AddMatch bus
            {| rules_interface := PROPERTIES_INTERFACE; rules_member := "PropertiesChanged";
               arg0path := None; path_namespace := Some "/org/bluez" |}) in
          lift (assert_reply reply) >>
          let! reply := await (BusCall bus get_managed_objects) in
          lift (assert_reply reply) >>
          lift (modify clear_tables) >>
          lift (for_each (reply_body reply) load_object))
         (perform (Disconnect bus)) >>
       lift (modify (set_bus (Some bus))))%async.

(** ** [active_scan] and [passive_scan] *)

(** [l.remove(x)]: drops the first element equal to [x]. *)
Fixpoint remove_first {A} `{EqDecision A} (x : A) (l : list A) : option (list A) :=
  match l with
  | [] => None
  | y :: l' => if decide (x = y) then Some l' else (y ::.) <$> remove_first x l'
  end.

Definition remove_advertisement_callback (c : CallbackAndState) : Sync unit :=
  (let! s := get in
   match remove_first c (_advertisement_callbacks s) with
   | Some l => modify (set_advertisement_callbacks l)
   | None => raise ValueError
   end)%sync.

Definition remove_device_removed_callback (c : DeviceRemovedCallbackAndState) : Sync unit :=
  (let! s := get in
   match remove_first c (_device_removed_callbacks s) with
   | Some l => modify (set_device_removed_callbacks l)
   | None => raise ValueError
   end)%sync.

(** [adapter_path.split('/')[-1]] *)
Fixpoint last_segment (p : string) : string :=
  match p with
  | EmptyString => EmptyString
  | String c rest =>
      if Ascii.eqb c "/" then last_segment rest
      else if bool_decide ("/"%char ∈ list_ascii_of_string rest) then last_segment rest
      else p
  end.

Definition adapter_not_found (adapter_path : string) : Exn :=
  BleakError ("adapter '" ++ last_segment adapter_path ++ "' not found").

(** The function [stop] that a scan returns, with the variables it
    closes over. *)
Inductive StopFunction : Type :=
| StopActive (adapter_path : string)
    (callback_and_state : CallbackAndState)
    (device_removed_callback_and_state : DeviceRemovedCallbackAndState)
| StopPassive (adapter_path : string) (monitor_path : string) (monitor : nat)
    (callback_and_state : CallbackAndState)
    (device_removed_callback_and_state : DeviceRemovedCallbackAndState).

Definition adapter_call (adapter_path member sig : string) (body : CallBody) : MethodCall := {|
  destination := BLUEZ_SERVICE;
  call_path := adapter_path;
  call_interface := ADAPTER_INTERFACE;
  call_member := member;
  call_signature := sig;
  call_body := body
|}.

Definition monitor_call (adapter_path member monitor_path : string) : MethodCall := {|
  destination := BLUEZ_SERVICE;
  call_path := adapter_path;
  call_interface := ADVERTISEMENT_MONITOR_MANAGER_INTERFACE;
  call_member := member;
  call_signature := "o";
  call_body := ObjectPathBody monitor_path
|}.

(** [await self._bus.call(msg)] *)
Definition bus_call (msg : MethodCall) : Async Reply :=
  (let! bus := lift the_bus in await (BusCall bus msg))%async.

(** The two registrations both scans make before their [try]. *)
Definition register_callbacks (c : CallbackAndState) (d : DeviceRemovedCallbackAndState) : Sync unit :=
  (modify (λ s, set_advertisement_callbacks (_advertisement_callbacks s ++ [c]) s) >>
   modify (λ s, set_device_removed_callbacks (_device_removed_callbacks s ++ [d]) s))%sync.

(** The handler of both [except BaseException] clauses, and the end of
    both [stop] functions. *)
Definition unregister_callbacks (c : CallbackAndState) (d : DeviceRemovedCallbackAndState) : Sync unit :=
  (remove_advertisement_callback c >> remove_device_removed_callback d)%sync.

Definition active_scan (adapter_path : string) (filters : gmap string Variant)
    (advertisement_callback device_removed_callback : Callback) : Async StopFunction :=
  with_bus_lock
    (let! s := lift get in
     if decide (is_Some (_properties s !! adapter_path)) then
       let callback_and_state :=
         {| callback := advertisement_callback; adapter_path := adapter_path |} in
       let device_removed_callback_and_state :=
         {| removed_callback := device_removed_callback;
            removed_adapter_path := adapter_path |} in
       lift (register_callbacks callback_and_state device_removed_callback_and_state) >>
       try_except
         (let! reply := bus_call
            (adapter_call adapter_path "SetDiscoveryFilter" "a{sv}" (FiltersBody filters)) in
          lift (assert_reply reply) >>
          let! reply := bus_call (adapter_call adapter_path "StartDiscovery" "" NoBody) in
          lift (assert_reply reply) >>
          aret (StopActive adapter_path callback_and_state device_removed_callback_and_state))
         (lift (unregister_callbacks callback_and_state device_removed_callback_and_state))
     else araise (adapter_not_found adapter_path))%async.

(** An or-pattern: type, start position, content. *)
Abbreviation OrPatternLike := (Z * Z * list byte)%type.

(** [os.getpid()] *)
Class Process := { getpid : nat }.

Definition unknown_method : string := "org.freedesktop.DBus.Error.UnknownMethod".

Definition passive_scan_unsupported : Exn :=
  BleakError "passive scanning on Linux requires BlueZ >= 5.55 with --experimental enabled and Linux kernel >= 5.10".

Definition passive_scan `{Process} (adapter_path : string) (filters : list OrPatternLike)
    (advertisement_callback device_removed_callback : Callback) : Async StopFunction :=
  with_bus_lock
    (let! s := lift get in
     if decide (is_Some (_properties s !! adapter_path)) then
       let callback_and_state :=
         {| callback := advertisement_callback; adapter_path := adapter_path |} in
       let device_removed_callback_and_state :=
         {| removed_callback := device_removed_callback;
            removed_adapter_path := adapter_path |} in
       lift (register_callbacks callback_and_state device_removed_callback_and_state) >>
       try_except
         (let! monitor := lift fresh in
          let monitor_path := "/org/bleak/" ++ pretty getpid ++ "/" ++ pretty monitor in
          let! reply := bus_call (monitor_call adapter_path "RegisterMonitor" monitor_path) in
          (match reply with
           | ErrorReply name =>
               if decide (name = unknown_method) then araise passive_scan_unsupported
               else aret tt
           | MethodReturn _ => aret tt
           end) >>
          lift (assert_reply reply) >>
          let! bus := lift the_bus in
          perform (Export bus monitor_path monitor) >>
          aret (StopPassive adapter_path monitor_path monitor
                  callback_and_state device_removed_callback_and_state))
         (lift (unregister_callbacks callback_and_state device_removed_callback_and_state))
     else araise (adapter_not_found adapter_path))%async.

(** Calling the function a scan returned. *)
Definition stop (f : StopFunction) : Async unit :=
  match f with
  | StopActive adapter_path c d =>
      with_bus_lock
        (let! reply := bus_call (adapter_call adapter_path "StopDiscovery" "" NoBody) in
         lift (assert_reply reply) >>
         let! reply := bus_call
           (adapter_call adapter_path "SetDiscoveryFilter" "a{sv}" (FiltersBody ∅)) in
         lift (assert_reply reply) >>
         lift (unregister_callbacks c d))%async
  | StopPassive adapter_path monitor_path monitor c d =>
      with_bus_lock
        (let! bus := lift the_bus in
         perform (Unexport bus monitor_path monitor) >>
         let! reply := bus_call (monitor_call adapter_path "UnregisterMonitor" monitor_path) in
         lift (assert_reply reply) >>
         lift (unregister_callbacks c d))%async
  end.

(** ** [_wait_condition] *)

Definition device_property (device_path property_name : string) : Sync Value :=
  (let! s := get in
   let! ifaces := getitem (_properties s) device_path in
   let! props := getitem ifaces DEVICE_INTERFACE in
   getitem props property_name)%sync.

Definition is_registered (cc : ConditionCallback) (l : list ConditionCallback) : bool :=
  bool_decide (cc_id cc ∈ cc_id <$> l).

(** [self._condition_callbacks.add(callback)] *)
Definition add_condition_callback (cc : ConditionCallback) : Sync unit :=
  modify (λ s, if is_registered cc (_condition_callbacks s) then s
               else set_condition_callbacks (_condition_callbacks s ++ [cc]) s).

(** [self._condition_callbacks.remove(callback)] *)
Definition remove_condition_callback (cc : ConditionCallback) : Sync unit :=
  (let! s := get in
   if is_registered cc (_condition_callbacks s)
   then modify (set_condition_callbacks
                  (filter (λ c, cc_id c ≠ cc_id cc) (_condition_callbacks s)))
   else raise (KeyError "callback"))%sync.

Definition _wait_condition (device_path property_name : string) (property_value : Value)
    : Async unit :=
  (let! current := lift (device_property device_path property_name) in
   if py_eq current property_value then aret tt
   else
     let! event := lift new_event in
     let! closure := lift fresh in
     let callback := {| cc_id := closure; cc_device_path := device_path;
                        cc_property_name := property_name;
                        cc_property_value := property_value; cc_event := event |} in
     lift (add_condition_callback callback) >>
     try_finally
       (await (EventWait event) >> aret tt)
       (lift (remove_condition_callback callback)))%async.

(** ** [get_services] *)

(** [a - n]; a [bool] is an [int]. *)
Definition py_sub (a : Value) (n : Z) : Sync Z :=
  match a with
  | VInt m => ret (m - n)
  | VBool b => ret (bool_to_Z b - n)
  | _ => raise TypeError
  end.

(** [index.get(path, set())], in the order of iteration. *)
Definition children (index : gmap Key (gset string)) (path : string) : list string :=
  elements (default ∅ (index !! KStr path)).

(** [self._properties[path][interface]] *)
Definition object_props (path interface : string) : Sync (gmap string Value) :=
  (let! s := get in
   let! ifaces := getitem (_properties s) path in
   getitem ifaces interface)%sync.

(** Modelled from the spec: [BleakGATTServiceCollection] is defined in a
    module that is not among the sources. The snapshot is "a tree of
    service, characteristic and descriptor handle objects"; [add_service],
    [add_characteristic] and [add_descriptor] put a handle into it. *)
Definition add_service (service : BleakGATTServiceBlueZDBus)
    (services : BleakGATTServiceCollection) : BleakGATTServiceCollection :=
  {| coll_id := coll_id services;
     coll_services := coll_services services ++ [service];
     coll_characteristics := coll_characteristics services;
     coll_descriptors := coll_descriptors services |}.

Definition add_characteristic (char : BleakGATTCharacteristicBlueZDBus)
    (services : BleakGATTServiceCollection) : BleakGATTServiceCollection :=
  {| coll_id := coll_id services;
     coll_services := coll_services services;
     coll_characteristics := coll_characteristics services ++ [char];
     coll_descriptors := coll_descriptors services |}.

Definition add_descriptor (desc : BleakGATTDescriptorBlueZDBus)
    (services : BleakGATTServiceCollection) : BleakGATTServiceCollection :=
  {| coll_id := coll_id services;
     coll_services := coll_services services;
     coll_characteristics := coll_characteristics services;
     coll_descriptors := coll_descriptors services ++ [desc] |}.

(** The three nested loops, innermost first. [services] is the
    collection under construction. *)
Fixpoint build_descriptors `{GattObjects} (char : BleakGATTCharacteristicBlueZDBus)
    (desc_paths : list string) (services : BleakGATTServiceCollection)
    : Sync BleakGATTServiceCollection :=
  match desc_paths with
  | [] => ret services
  | desc_path :: rest =>
      (let! desc_props := object_props desc_path GATT_DESCRIPTOR_INTERFACE in
       let desc := {| dsc_obj := desc_props; dsc_path := desc_path;
                      dsc_characteristic_uuid := characteristic_uuid char;
                      dsc_characteristic_handle := characteristic_handle char |} in
       build_descriptors char rest (add_descriptor desc services))%sync
  end.

Fixpoint build_characteristics `{GattObjects} (service : BleakGATTServiceBlueZDBus)
    (char_paths : list string) (services : BleakGATTServiceCollection)
    : Sync BleakGATTServiceCollection :=
  match char_paths with
  | [] => ret services
  | char_path :: rest =>
      (let! char_props := object_props char_path GATT_CHARACTERISTIC_INTERFACE in
       let! size := py_sub (default (VInt 23) (char_props !! "MTU")) 3 in
       let char := {| chr_obj := char_props; chr_path := char_path;
                      chr_service_uuid := service_uuid service;
                      chr_service_handle := service_handle service;
                      max_write_without_response_size := size |} in
       let! s := get in
       let! services := build_descriptors char (children (_descriptor_map s) char_path)
                          (add_characteristic char services) in
       build_characteristics service rest services)%sync
  end.

Fixpoint build_services `{GattObjects} (service_paths : list string)
    (services : BleakGATTServiceCollection) : Sync BleakGATTServiceCollection :=
  match service_paths with
  | [] => ret services
  | service_path :: rest =>
      (let! service_props := object_props service_path GATT_SERVICE_INTERFACE in
       let service := {| svc_obj := service_props; svc_path := service_path |} in
       let! s := get in
       let! services := build_characteristics service
                          (children (_characteristic_map s) service_path)
                          (add_service service services) in
       build_services rest services)%sync
  end.

(** The part of [get_services] that follows the wait. *)
Definition build_snapshot `{GattObjects} (device_path : string)
    : Async BleakGATTServiceCollection :=
  (let! id := lift fresh in
   let services := {| coll_id := id; coll_services := [];
                      coll_characteristics := []; coll_descriptors := [] |} in
   let! s := lift get in
   let! services := lift (build_services (children (_service_map s) device_path) services) in
   lift (modify (λ s, set_services_cache (<[device_path := services]> (_services_cache s)) s)) >>
   aret services)%async.

Definition get_services `{GattObjects} (device_path : string) (use_cached : bool)
    : Async BleakGATTServiceCollection :=
  (let! s := lift get in
   match (if use_cached then _services_cache s !! device_path else None) with
   | Some services => aret services
   | None =>
       _wait_condition device_path "ServicesResolved" (VBool true) >>
       build_snapshot device_path
   end)%async.

(** [get_device_name] and [is_connected] *)
Definition get_device_name (device_path : string) : Sync Value :=
  device_property device_path "Name".

Definition is_connected (device_path : string) : Sync Value :=
  λ s, match device_property device_path "Connected" s with
       | (s', Ok v) => (s', Ok v)
       | (s', Err (KeyError _)) => (s', Ok (VBool false))
       | (s', Err e) => (s', Err e)
       end.

(** ** The scanner's constructor *)

Module Scanner.

(** The [bluez] argument, a [TypedDict] whose keys may all be absent. *)
Record BlueZScannerArgs := {
  filters : option (list (string * Value));
  or_patterns : option (list OrPatternLike)
}.

(** The keyword arguments [__init__] looks at. *)
Record Kwargs := {
  kw_adapter : option string;
  kw_device : option string;
  kw_filters : option (list (string * Value))
}.

(** Modelled from the spec: [BaseBleakScanner.__init__] is defined in a
    module that is not among the sources. It keeps the detection
    callback and the "service UUID allow-list"; what it makes of the
    list it is given is left to the class. *)
Class BaseBleakScanner := {
  base_service_uuids : option (list string) → option (list string)
}.

Record BleakScannerBlueZDBus := {
  _callback : option Callback;
  _service_uuids : option (list string);
  _scanning_mode : string;
  _adapter : string;
  _adapter_path : string;
  _devices : gmap string (gmap string Value);
  _stop : option StopFunction;
  _filters : gmap string Variant;
  _or_patterns : option (list OrPatternLike)
}.

(** One round of the loop of [set_scanning_filter]; an unknown key is
    logged and skipped. *)
Definition set_filter (fs : gmap string Variant) (entry : string * Value)
    : gmap string Variant :=
  let '(k, v) := entry in
  if decide (k = "UUIDs") then <[k := variant "as" v]> fs
  else if decide (k = "RSSI") then <[k := variant "n" v]> fs
  else if decide (k = "Pathloss") then <[k := variant "n" v]> fs
  else if decide (k = "Transport") then <[k := variant "s" v]> fs
  else if decide (k = "DuplicateData") then <[k := variant "b" v]> fs
  else if decide (k = "Discoverable") then <[k := variant "b" v]> fs
  else if decide (k = "Pattern") then <[k := variant "s" v]> fs
  else fs.

Definition set_scanning_filter (filters : list (string * Value))
    (fs : gmap string Variant) : gmap string Variant :=
  fold_left set_filter filters fs.

(** Truth value of an optional list: [None] and [[]] are false. *)
Definition truthy {A} (l : option (list A)) : bool :=
  match l with
  | Some (_ :: _) => true
  | _ => false
  end.

Definition passive_requires_or_patterns : Exn :=
  BleakError "passive scanning mode requires bluez or_patterns".

Definition __init__ `{BaseBleakScanner} (detection_callback : option Callback)
    (service_uuids : option (list string)) (scanning_mode : string)
    (bluez : BlueZScannerArgs) (kwargs : Kwargs) : Result BleakScannerBlueZDBus :=
  let uuids := base_service_uuids service_uuids in
  let adapter := default (default "hci0" (kw_device kwargs)) (kw_adapter kwargs) in
  let fs0 : gmap string Variant :=
    <["DuplicateData" := variant "b" (VBool false)]>
      (<["Transport" := variant "s" (VStr "le")]> ∅) in
  let fs1 := if truthy uuids
             then <["UUIDs" := variant "as" (VList (VStr <$> default [] uuids))]> fs0
             else fs0 in
  let filters := match kw_filters kwargs with
                 | None => filters bluez
                 | Some f => Some f
                 end in
  let fs2 := match filters with
             | Some f => set_scanning_filter f fs1
             | None => fs1
             end in
  let self := {| _callback := detection_callback; _service_uuids := uuids;
                 _scanning_mode := scanning_mode; _adapter := adapter;
                 _adapter_path := "/org/bluez/" ++ adapter; _devices := ∅; _stop := None;
                 _filters := fs2; _or_patterns := or_patterns bluez |} in
  if bool_decide (_scanning_mode self = "passive") && negb (truthy (_or_patterns self))
  then Err passive_requires_or_patterns
  else Ok self.

End Scanner.

(** ** The hierarchy index against the Property Table *)

Inductive Level : Type := ServiceLevel | CharacteristicLevel | DescriptorLevel.

Definition level_interface (lv : Level) : string :=
  match lv with
  | ServiceLevel => GATT_SERVICE_INTERFACE
  | CharacteristicLevel => GATT_CHARACTERISTIC_INTERFACE
  | DescriptorLevel => GATT_DESCRIPTOR_INTERFACE
  end.

Definition level_key (lv : Level) : string :=
  match lv with
  | ServiceLevel => "Device"
  | CharacteristicLevel => "Service"
  | DescriptorLevel => "Characteristic"
  end.

Definition level_index (lv : Level) (s : State) : gmap Key (gset string) :=
  match lv with
  | ServiceLevel => _service_map s
  | CharacteristicLevel => _characteristic_map s
  | DescriptorLevel => _descriptor_map s
  end.

(** The parent a table records for [child] at a level: the entry of
    [child] carries the level's interface, with its parent-reference
    property. *)
Definition parent_in (table : gmap string (gmap string (gmap string Value)))
    (lv : Level) (child : string) : option Key :=
  v ← property_at table child (level_interface lv) (level_key lv); hash_key v.

Definition parent_of (s : State) (lv : Level) (child : string) : option Key :=
  parent_in (_properties s) lv child.

(** [child] is in the set the index holds for [parent]. *)
Definition listed_in (index : gmap Key (gset string)) (parent : Key) (child : string) : Prop :=
  child ∈ default ∅ (index !! parent).

Definition listed (s : State) (lv : Level) (parent : Key) (child : string) : Prop :=
  listed_in (level_index lv s) parent child.

(** No orphans and no missing entries, at one level and at all three. *)
Definition exact_index (index : gmap Key (gset string))
    (table : gmap string (gmap string (gmap string Value))) (lv : Level) : Prop :=
  ∀ parent child, listed_in index parent child ↔ parent_in table lv child = Some parent.

Definition index_exact (s : State) (lv : Level) : Prop :=
  exact_index (level_index lv s) (_properties s) lv.

Definition hierarchy_exact (s : State) : Prop := ∀ lv, index_exact s lv.

(** The states reached from a bulk enumeration by signals that satisfy
    [allowed] when they arrive. The enumeration is the loop of
    [async_init] over the reply, run on the cleared tables; a Python
    dictionary has no repeated keys. *)
Inductive reachable `{UserCode} (allowed : State → Message → Prop) : State → Prop :=
| reachable_enumerated s0 objs s :
    NoDup objs.*1 →
    for_each objs load_object (clear_tables s0) = (s, Ok tt) →
    reachable allowed s
| reachable_signal s message :
    reachable allowed s →
    allowed s message →
    reachable allowed (_parse_msg message s).1.

Definition any_signal (s : State) (message : Message) : Prop := True.

(** The parent-reference property of a GATT interface. *)
Definition parent_key (interface : string) : option string :=
  if decide (interface = GATT_SERVICE_INTERFACE) then Some "Device"
  else if decide (interface = GATT_CHARACTERISTIC_INTERFACE) then Some "Service"
  else if decide (interface = GATT_DESCRIPTOR_INTERFACE) then Some "Characteristic"
  else None.

(** Signals under which the index stays exact: an object-added signal
    brings GATT interfaces only to a path that does not carry them yet,
    a properties-changed signal leaves the parent reference alone, and
    no object is removed. *)
Definition index_safe (s : State) (message : Message) : Prop :=
  match message with
  | InterfacesAdded obj_path interfaces_and_props =>
      NoDup interfaces_and_props.*1 ∧
      ∀ interface, interface ∈ interfaces_and_props.*1 →
        is_Some (parent_key interface) →
        interface_at (_properties s) obj_path interface = None
  | InterfacesRemoved _ _ => False
  | PropertiesChanged _ interface changed invalidated =>
      ∀ key, parent_key interface = Some key →
        changed !! key = None ∧ key ∉ invalidated
  | OtherSignal _ | NotSignal _ => True
  end.

(** The block of [load_object] for one level, and the update of the
    index of a level; the loop body is the three blocks in a row. *)
Definition set_level_index (lv : Level) : gmap Key (gset string) → State → State :=
  match lv with
  | ServiceLevel => set_service_map
  | CharacteristicLevel => set_characteristic_map
  | DescriptorLevel => set_descriptor_map
  end.

Definition load_level (lv : Level) (path : string) (props : gmap string (gmap string Value))
    : Sync unit :=
  match props !! level_interface lv with
  | Some level_props =>
      if decide (level_props = ∅) then ret tt
      else index_add (level_index lv) (set_level_index lv) level_props (level_key lv) path
  | None => ret tt
  end.

(** ** Example inputs *)

(** Callbacks that do nothing. *)
Definition quiet : UserCode := {| user_code := λ _, [] |}.

Definition adapter0 : string := "/org/bluez/hci0".
Definition adapter1 : string := "/org/bluez/hci1".
Definition device0 : string := "/org/bluez/hci0/dev_AA_BB".
Definition service0 : string := "/org/bluez/hci0/dev_AA_BB/service0001".
Definition char0 : string := "/org/bluez/hci0/dev_AA_BB/service0001/char0002".

(** A reply to [GetManagedObjects]: an adapter, a device that is not yet
    resolved, and one service of the device. *)
Definition objects0 : list (string * gmap string (gmap string Value)) :=
  [ (adapter0, {[ ADAPTER_INTERFACE := {[ "Powered" := VBool true ]} ]});
    (device0, {[ DEVICE_INTERFACE :=
                   {[ "Connected" := VBool false; "ServicesResolved" := VBool false ]} ]});
    (service0, {[ GATT_SERVICE_INTERFACE :=
                    {[ "Device" := VStr device0; "UUID" := VStr "180f" ]} ]}) ].

(** The manager after enumerating [objects0]. *)
Definition enumerated0 : State :=
  (for_each objects0 load_object (clear_tables __init__)).1.

(** The daemon removes the service. *)
Definition service_removed : Message :=
  InterfacesRemoved service0 [GATT_SERVICE_INTERFACE].

(** The daemon adds a characteristic to the service, with an MTU. *)
Definition char_added : Message :=
  InterfacesAdded char0
    [ (GATT_CHARACTERISTIC_INTERFACE,
       {[ "Service" := VStr service0; "UUID" := VStr "2a19"; "MTU" := VInt 247 ]}) ].

(** The device reports that its services are resolved. *)
Definition services_resolved : Message :=
  PropertiesChanged device0 DEVICE_INTERFACE {[ "ServicesResolved" := VBool true ]} [].

(** Two watchers of the same device. *)
Definition watcher1 : DeviceWatcher :=
  {| device_path := device0; on_connected_changed := 1%nat;
     on_characteristic_value_changed := 2%nat |}.
Definition watcher2 : DeviceWatcher :=
  {| device_path := device0; on_connected_changed := 3%nat;
     on_characteristic_value_changed := 4%nat |}.

(** Each callback of a watcher unregisters the watcher it belongs to,
    by calling [remove_device_watcher]. *)
Definition self_removing : UserCode := {|
  user_code c :=
    match c with
    | CallConnectedChanged cb _ =>
        if Nat.eqb cb 1 then [OpRemoveWatcher watcher1]
        else if Nat.eqb cb 3 then [OpRemoveWatcher watcher2]
        else []
    | CallValueChanged cb _ _ =>
        if Nat.eqb cb 2 then [OpRemoveWatcher watcher1]
        else if Nat.eqb cb 4 then [OpRemoveWatcher watcher2]
        else []
    | _ => []
    end
|}.

(** The manager knows the characteristic [char0]; the two watchers are
    registered, iterated in the given order. *)
Definition watched (ws : list DeviceWatcher) : State :=
  set_device_watchers ws (@_parse_msg quiet char_added enumerated0).1.

(** A notification: the value of [char0] changes. *)
Definition value_changed : Message :=
  PropertiesChanged char0 GATT_CHARACTERISTIC_INTERFACE
    {[ "Value" := VBytes [Byte.x01] ]} [].

(** The device connects. *)
Definition connected_changed : Message :=
  PropertiesChanged device0 DEVICE_INTERFACE {[ "Connected" := VBool true ]} [].

(** ** [async_init] and the bulk read *)

(** The tables of [s] are those of [s0]. *)
Definition same_tables (s0 s : State) : Prop :=
  _properties s = _properties s0 ∧ ∀ lv, level_index lv s = level_index lv s0.

Definition tables_cleared (s : State) : Prop :=
  _properties s = ∅ ∧ ∀ lv, level_index lv s = ∅.

(** C3 as claimed: whenever [async_init] is suspended on the bulk read,
    it has cleared the tables. *)
Definition cleared_before_bulk_read : Prop :=
  ∀ s0, every_await
    (λ q s _, ∀ bus, q = BusCall bus get_managed_objects → tables_cleared s)
    (async_init s0).

(** What [async_init] does with the answer to the bulk read: from a
    reply that is not an error it ends with the tables of the reply
    alone, whatever the state [s'] it is resumed in; an error reply or
    an exception ends it in [s'] as it is. *)
Definition bulk_read_answered (q : Request) (s : State)
    (k : Answer → State → Coro unit) : Prop :=
  ∀ bus, q = BusCall bus get_managed_objects →
    (∀ s' body, ∃ sf r,
       outcome (k (Returned (MethodReturn body)) s') = Some (sf, r) ∧
       same_tables (for_each body load_object (clear_tables __init__)).1 sf) ∧
    (∀ s' name,
       outcome (k (Returned (ErrorReply name)) s') = Some (s', Err (BleakDBusError name))) ∧
    (∀ s' name,
       outcome (k (Thrown name) s') = Some (s', Err (External name))).

(** Every request answered without an error and without interference. *)
Definition ok : Answer := Returned (MethodReturn []).

(** Answer the pending request of a coroutine, leaving the state as the
    coroutine left it. *)
Definition grant {A} (c : Coro A) (ans : Answer) : Coro A :=
  match pending c with
  | Some (_, s) => resume c ans s
  | None => c
  end.

(** [async_init] after the lock, the connection and the three match
    rules, all granted. *)
Definition at_bulk_read (s : State) : Coro unit :=
  grant (grant (grant (grant (grant (async_init s) ok) ok) ok) ok) ok.

(** The state in which [async_init], called on [enumerated0], waits for
    the reply to the bulk read. *)
Definition stale0 : State :=
  match pending (at_bulk_read enumerated0) with
  | Some (_, s) => s
  | None => __init__
  end.

(** Every way [c] can finish, under [rely], ends in a state and result
    that satisfy [Post]. *)
Fixpoint wp {A} (rely : Request → State → State → Prop) (c : Coro A)
    (Post : State → Result A → Prop) : Prop :=
  match c with
  | Done s r => Post s r
  | Do _ k => wp rely k Post
  | Await q s k => ∀ ans s', rely q s s' → wp rely (k ans s') Post
  end.

(** ** Scans and their registrations *)

(** While a coroutine holds [_bus_lock], no other scan starts or stops:
    the two registration lists it finds on resumption are the lists it
    left. *)
Definition registrations_kept (q : Request) (s s' : State) : Prop :=
  _advertisement_callbacks s' = _advertisement_callbacks s ∧
  _device_removed_callbacks s' = _device_removed_callbacks s.

(** No assumption on what happens while a coroutine is suspended. *)
Definition any_interference (q : Request) (s s' : State) : Prop := True.

(** C4 as claimed, for a scan that has acquired the lock in [s1]: if it
    fails, both lists are as they were in [s1]. *)
Definition restores_exactly (scan : Async StopFunction) : Prop :=
  ∀ s0 r s1 sf e,
    finishes registrations_kept (resume (scan s0) (Returned r) s1) sf (Err e) →
    _advertisement_callbacks sf = _advertisement_callbacks s1 ∧
    _device_removed_callbacks sf = _device_removed_callbacks s1.

(** Two scanners are running, on two adapters. *)
Definition registration1 : CallbackAndState :=
  {| callback := 1%nat; adapter_path := adapter0 |}.
Definition registration2 : CallbackAndState :=
  {| callback := 2%nat; adapter_path := adapter1 |}.
Definition removal1 : DeviceRemovedCallbackAndState :=
  {| removed_callback := 11%nat; removed_adapter_path := adapter0 |}.
Definition removal2 : DeviceRemovedCallbackAndState :=
  {| removed_callback := 12%nat; removed_adapter_path := adapter1 |}.

Definition scanning0 : State :=
  set_bus (Some 0%nat) (set_bus_connected {[ 0%nat := true ]} (set_next_id 1%nat
    (set_advertisement_callbacks [registration1; registration2]
      (set_device_removed_callbacks [removal1; removal2] enumerated0)))).

Definition in_progress : Answer := Returned (ErrorReply "org.bluez.Error.InProgress").

(** The first scanner is started a second time: the filter is set, and
    the daemon refuses to start a discovery that is in progress. *)
Definition second_start : Coro StopFunction :=
  grant (grant (resume (active_scan adapter0 ∅ 1%nat 11%nat scanning0) ok scanning0) ok)
    in_progress.

(** The state [second_start] ends in. *)
Definition after_second_start : State :=
  match outcome second_start with
  | Some (s, _) => s
  | None => __init__
  end.

(** A third scanner is started on the first adapter, and is refused. *)
Definition third_start : Coro StopFunction :=
  grant (grant (resume (active_scan adapter0 ∅ 3%nat 13%nat scanning0) ok scanning0) ok)
    in_progress.

Definition after_third_start : State :=
  match outcome third_start with
  | Some (s, _) => s
  | None => __init__
  end.

(** The process of the examples. *)
Definition process0 : Process := {| getpid := 4242%nat |}.

(** The error of a missing adapter, whatever its name. *)
Definition is_adapter_not_found (e : Exn) : Prop := ∃ p, e = adapter_not_found p.

(** [c] can end by raising the error of a missing adapter. *)
Definition raises_adapter_not_found (c : Coro StopFunction) : Prop :=
  ∃ sf e, finishes any_interference c sf (Err e) ∧ is_adapter_not_found e.

(** A manager whose bus is connected. *)
Definition connected0 : State :=
  set_bus (Some 0%nat) (set_bus_connected {[ 0%nat := true ]} (set_next_id 1%nat enumerated0)).

(** ** Waiting for a condition *)

(** The closure [_wait_condition] registers when it is called in [s]:
    the event is the next new object, the closure the one after. *)
Definition closure_of (s : State) (device_path property_name : string)
    (property_value : Value) : ConditionCallback :=
  {| cc_id := S (next_id s); cc_device_path := device_path;
     cc_property_name := property_name; cc_property_value := property_value;
     cc_event := next_id s |}.


(** [property_name] of the device equals [property_value] in [s]. *)
Definition property_equals (device_path property_name : string) (property_value : Value)
    (s : State) : Prop :=
  ∃ current,
    property_at (_properties s) device_path DEVICE_INTERFACE property_name = Some current ∧
    py_eq current property_value = true.


(** A call of [get_services] has answered with [r] in [sf]: a snapshot
    it returns is the one cached for the device, and asking for the
    cached snapshot next returns it at once. *)
Definition answered `{GattObjects} (device_path : string) (sf : State)
    (r : Result BleakGATTServiceCollection) : Prop :=
  match r with
  | Ok services =>
      _services_cache sf !! device_path = Some services ∧
      get_services device_path true sf = Done sf (Ok services)
  | Err _ => True
  end.

(** The state differs from [s0] at most in the device watchers and in
    the trace of calls: all a registered callback can change. *)
Definition callbacks_frame (s0 s : State) : Prop :=
  ∃ watchers trace, s = set_calls trace (set_device_watchers watchers s0).

(** ** The payload size of a characteristic *)

(** The MTU a characteristic's properties give: the ["MTU"] property,
    or 23 when there is none. *)
Definition mtu_of (props : gmap string Value) : option Z :=
  match props !! "MTU" with
  | None => Some 23
  | Some (VInt n) => Some n
  | Some (VBool b) => Some (bool_to_Z b)
  | Some _ => None
  end.

Definition payload_from_mtu (c : BleakGATTCharacteristicBlueZDBus) : Prop :=
  ∃ mtu, mtu_of (chr_obj c) = Some mtu ∧ max_write_without_response_size c = mtu - 3.

(** Modelled from the spec: handle classes that read nothing but what
    the manager passes them. *)
Definition plain_handles : GattObjects := {|
  service_uuid svc := match svc_obj svc !! "UUID" with Some (VStr u) => u | _ => "" end;
  service_handle svc := 0;
  characteristic_uuid chr := match chr_obj chr !! "UUID" with Some (VStr u) => u | _ => "" end;
  characteristic_handle chr := 0
|}.

(** The manager after the characteristic has been added and the device
    has resolved its services. *)
Definition resolved0 : State :=
  (@_parse_msg quiet services_resolved (@_parse_msg quiet char_added enumerated0).1).1.

(** ** Notions used in the proofs *)

(** [m] never leaves [P]. *)
Definition preserves {A} (P : State → Prop) (m : Sync A) : Prop :=
  ∀ s, P s → P (m s).1.

(** [P] does not look at the device watchers or at the trace. *)
Definition frame_invariant (P : State → Prop) : Prop :=
  ∀ s0 s, callbacks_frame s0 s → P s0 → P s.

(** Code that changes no more than a callback can. *)
Definition touches_registrations_only {A} (m : Sync A) : Prop :=
  ∀ s0, preserves (callbacks_frame s0) m.

(** [m] leaves the state alone, and what it returns satisfies [P]. *)
Definition reads {A} (m : Sync A) (P : A → Prop) : Prop :=
  ∀ s, (m s).1 = s ∧ match (m s).2 with Ok a => P a | Err _ => True end.

(** From states related by [R], [m] gives the same result and states
    related by [R]. *)
Definition related {A} (R : State → State → Prop) (m : Sync A) : Prop :=
  ∀ sA sB, R sA sB → (m sA).2 = (m sB).2 ∧ R (m sA).1 (m sB).1.

(** The indexes of [s] are those of [s0], and the Property Table of [s]
    records the parents that the table of [s0] records. *)
Definition same_hierarchy (s0 s : State) : Prop :=
  (∀ lv, level_index lv s = level_index lv s0) ∧
  (∀ lv child, parent_of s lv child = parent_of s0 lv child).

(** The parent an object of the bulk reply records for itself. *)
Definition own_parent (props : gmap string (gmap string Value)) (lv : Level) : option Key :=
  level_props ← props !! level_interface lv;
  v ← level_props !! level_key lv;
  hash_key v.

(** The indexes of [s] agree with those of [s0] away from key [p]. *)
Definition index_frame (s0 : State) (p : string) (s : State) : Prop :=
  ∀ lv k, k ≠ KStr p → level_index lv s !! k = level_index lv s0 !! k.

(** The two lists as a scan leaves them after registering. *)
Definition registered (c : CallbackAndState) (d : DeviceRemovedCallbackAndState)
    (s1 s : State) : Prop :=
  _advertisement_callbacks s = (_advertisement_callbacks s1 ++ [c])%list ∧
  _device_removed_callbacks s = (_device_removed_callbacks s1 ++ [d])%list.

(** What a scan that fails leaves of the two lists it found in [s1]:
    the same entries, each as often as before, and the very lists when
    the new registration was not in them. *)
Definition rolled_back (c : CallbackAndState) (d : DeviceRemovedCallbackAndState)
    (s1 sf : State) : Prop :=
  _advertisement_callbacks sf ≡ₚ _advertisement_callbacks s1 ∧
  _device_removed_callbacks sf ≡ₚ _device_removed_callbacks s1 ∧
  (c ∉ _advertisement_callbacks s1 →
     _advertisement_callbacks sf = _advertisement_callbacks s1) ∧
  (d ∉ _device_removed_callbacks s1 →
     _device_removed_callbacks sf = _device_removed_callbacks s1).

(** An asynchronous body that never leaves [Q]. *)
Definition keeps {A} (rely : Request → State → State → Prop) (Q : State → Prop)
    (m : Async A) : Prop :=
  ∀ s, Q s → wp rely (m s) (λ s' _, Q s').

(** An asynchronous body that raises only exceptions in [E]. *)
Definition fails_with {A} (rely : Request → State → State → Prop) (E : Exn → Prop)
    (m : Async A) : Prop :=
  ∀ s, wp rely (m s) (λ _ r, match r with Err e => E e | Ok _ => True end).

Definition other_error (e : Exn) : Prop := ¬ is_adapter_not_found e.

Definition payloads_from_mtu (services : BleakGATTServiceCollection) : Prop :=
  Forall payload_from_mtu (coll_characteristics services).



(** ** Further example inputs *)

(** [get_services] on the resolved device, not from the cache. *)
Definition resolved_run : Coro BleakGATTServiceCollection :=
  @get_services plain_handles device0 false resolved0.

Definition snapshot_state0 : State :=
  match outcome resolved_run with
  | Some (s, _) => s
  | None => __init__
  end.

Definition snapshot0 : BleakGATTServiceCollection :=
  match outcome resolved_run with
  | Some (_, Ok services) => services
  | _ => {| coll_id := 0%nat; coll_services := []; coll_characteristics := [];
            coll_descriptors := [] |}
  end.

(** The handle of [char0] in that snapshot. *)
Definition char_handle0 : BleakGATTCharacteristicBlueZDBus :=
  {| chr_obj := {[ "Service" := VStr service0; "UUID" := VStr "2a19"; "MTU" := VInt 247 ]};
     chr_path := char0;
     chr_service_uuid := "180f";
     chr_service_handle := 0;
     max_write_without_response_size := 244 |}.

(** A base class that keeps the list of UUIDs as it is given. *)
Definition plain_base : Scanner.BaseBleakScanner :=
  {| Scanner.base_service_uuids := λ uuids, uuids |}.

(** The [bluez] argument left empty, and no keyword arguments. *)
Definition no_bluez_args : Scanner.BlueZScannerArgs :=
  {| Scanner.filters := None; Scanner.or_patterns := None |}.

Definition no_kwargs : Scanner.Kwargs :=
  {| Scanner.kw_adapter := None; Scanner.kw_device := None; Scanner.kw_filters := None |}.
(** ** Further notions *)

(** The messages handled one after the other. An exception ends the
    handling of its message; the next message finds the state as the
    failed handler left it. *)
Definition handle_all `{UserCode} (messages : list Message) (s : State) : State :=
  foldl (λ s message, (_parse_msg message s).1) s messages.

(** [for name in invalidated: del d[name]] on a dictionary: the
    dictionary as the loop leaves it, and the name it failed on. *)
Fixpoint del_all (names : list string) (d : gmap string Value)
    : gmap string Value * option string :=
  match names with
  | [] => (d, None)
  | name :: rest =>
      match d !! name with
      | None => (d, Some name)
      | Some _ => del_all rest (delete name d)
      end
  end.

(** The end of the [PropertiesChanged] branch, once the table is up to
    date: the calls to the callbacks. *)
Definition dispatch_changed `{UserCode} (path interface : string)
    (changed : gmap string Value) : Sync unit :=
  (if decide (interface = DEVICE_INTERFACE)
   then
     (let! device := self_interface path interface in
      _run_advertisement_callbacks path device (keys changed)) >>
     for_set _condition_callbacks run_condition_callback >>
     if decide (is_Some (changed !! "Connected"))
     then notify_connected path interface
     else ret tt
   else if decide (interface = GATT_CHARACTERISTIC_INTERFACE)
   then
     if decide (is_Some (changed !! "Value"))
     then notify_value path interface
     else ret tt
   else ret tt)%sync.

(** The Property Table of [s] is that of [s0]. *)
Definition table_kept (s0 s : State) : Prop := _properties s = _properties s0.

(** The properties of [device0] after the enumeration of [objects0]. *)
Definition device_props0 : gmap string Value :=
  {[ "Connected" := VBool false; "ServicesResolved" := VBool false ]}.

(** The daemon removes the adapter. *)
Definition adapter_removed : Message := InterfacesRemoved adapter0 [ADAPTER_INTERFACE].

(** The daemon removes the device. *)
Definition device_removed : Message := InterfacesRemoved device0 [DEVICE_INTERFACE].

(** The manager holds nothing of a device any more: no device
    interface, no set of services, no cached snapshot. *)
Definition forgotten (device : string) (s : State) : Prop :=
  _services_cache s !! device = None ∧
  _service_map s !! KStr device = None ∧
  interface_at (_properties s) device DEVICE_INTERFACE = None.

(** The calls a dispatch loop has made, against the calls that were
    due: all of them when the loop ended, and the first of them, up to
    one that raised, when it did not. *)
Definition dispatched {A} (r : Result A) (trace due : list Call) : Prop :=
  match r with
  | Ok _ => trace = due
  | Err _ => trace `prefix_of` due ∧ trace ≠ []
  end.



(** A second device, and a waiter for the first device that is still
    registered when the first device is removed. *)
Definition device1 : string := "/org/bluez/hci0/dev_CC_DD".

Definition device1_added : Message :=
  InterfacesAdded device1 [ (DEVICE_INTERFACE, {[ "Connected" := VBool false ]}) ].

Definition waiter0 : ConditionCallback :=
  closure_of enumerated0 device0 "ServicesResolved" (VBool true).

Definition stale_waiter0 : State :=
  (@_parse_msg quiet device_removed
     (set_condition_callbacks [waiter0] (@_parse_msg quiet device1_added enumerated0).1)).1.

(** The second device connects. *)
Definition device1_connected : Message :=
  PropertiesChanged device1 DEVICE_INTERFACE {[ "Connected" := VBool true ]} [].

(** The Property Table after the interfaces of an [InterfacesAdded]
    signal have been stored under [obj_path], one after the other. *)
Definition added (obj_path : string) (entries : list (string * gmap string Value))
    (table : gmap string (gmap string (gmap string Value)))
    : gmap string (gmap string (gmap string Value)) :=
  foldl (λ t entry, <[obj_path := <[entry.1 := entry.2]> (default ∅ (t !! obj_path))]> t)
    table entries.

(** A second characteristic of [service0], and the signal that adds
    it. *)
Definition char1 : string := "/org/bluez/hci0/dev_AA_BB/service0001/char0005".

Definition char1_added : Message :=
  InterfacesAdded char1
    [ (GATT_CHARACTERISTIC_INTERFACE, {[ "Service" := VStr service0; "UUID" := VStr "2a1a" ]}) ].

(** A signal that adds a service without its ["Device"] property. *)
Definition headless_service : gmap string Value := {[ "UUID" := VStr "180a" ]}.

(** ** Runs of coroutines with the actions they perform *)

(** Every way [c] can run to its end, under [rely], performs a list of
    actions and ends in a state and result that together satisfy
    [Post]. *)
Fixpoint wp_trace {A} (rely : Request → State → State → Prop) (c : Coro A)
    (Post : list Action → State → Result A → Prop) : Prop :=
  match c with
  | Done s r => Post [] s r
  | Do a k => wp_trace rely k (λ acts, Post (a :: acts))
  | Await q s k => ∀ ans s', rely q s s' → wp_trace rely (k ans s') Post
  end.

(** Nothing else assigns [_bus] while a coroutine that holds the lock
    is suspended. *)
Definition bus_kept (q : Request) (s s' : State) : Prop := _bus s' = _bus s.

(** The two registration lists of [s] are those of [s0]. *)
Definition same_registrations (s0 s : State) : Prop :=
  _advertisement_callbacks s = _advertisement_callbacks s0 ∧
  _device_removed_callbacks s = _device_removed_callbacks s0.

(** The registrations of a stop function. *)
Definition stop_registrations (f : StopFunction)
    : CallbackAndState * DeviceRemovedCallbackAndState :=
  match f with
  | StopActive _ c d => (c, d)
  | StopPassive _ _ _ c d => (c, d)
  end.

(** The stop function of the first scanner of [scanning0], and a call
    of it that the daemon refuses. *)
Definition stop0 : StopFunction := StopActive adapter0 registration1 removal1.

Definition refused : Answer := Returned (ErrorReply "org.bluez.Error.Failed").

Definition failed_stop : Coro unit :=
  grant (resume (stop stop0 scanning0) ok scanning0) refused.

Definition after_failed_stop : State :=
  match outcome failed_stop with
  | Some (s, _) => s
  | None => __init__
  end.

(** A third scanner is started on the first adapter, and stopped. *)
Definition registration3 : CallbackAndState :=
  {| callback := 3%nat; adapter_path := adapter0 |}.
Definition removal3 : DeviceRemovedCallbackAndState :=
  {| removed_callback := 13%nat; removed_adapter_path := adapter0 |}.

Definition started : Coro StopFunction :=
  grant (grant (resume (active_scan adapter0 ∅ 3%nat 13%nat scanning0) ok scanning0) ok) ok.

Definition after_start : State :=
  match outcome started with
  | Some (s, _) => s
  | None => __init__
  end.

Definition stop3 : StopFunction := StopActive adapter0 registration3 removal3.

Definition stopped : Coro unit :=
  grant (grant (resume (stop stop3 after_start) ok after_start) ok) ok.

Definition after_stop : State :=
  match outcome stopped with
  | Some (s, _) => s
  | None => __init__
  end.

(** The path under which [passive_scan] registers the monitor it
    creates when called in [s]. *)
Definition monitor_path_of `{Process} (s : State) : string :=
  "/org/bleak/" ++ pretty getpid ++ "/" ++ pretty (next_id s).

(** The error of a refused [RegisterMonitor]. *)
Definition register_monitor_error (name : string) : Exn :=
  if decide (name = unknown_method) then passive_scan_unsupported else BleakDBusError name.

(** ** What a snapshot is built from *)

(** The paths the three indexes list under a device, in the order in
    which [get_services] walks them. *)
Definition service_paths (s : State) (device_path : string) : list string :=
  children (_service_map s) device_path.

Definition characteristic_paths (s : State) (device_path : string) : list string :=
  service_paths s device_path ≫= children (_characteristic_map s).

Definition descriptor_paths (s : State) (device_path : string) : list string :=
  characteristic_paths s device_path ≫= children (_descriptor_map s).

(** Every handle of the collection holds the dictionary that the
    Property Table of [s] has for its path and interface. *)
Definition from_table (s : State) (services : BleakGATTServiceCollection) : Prop :=
  Forall (λ x, interface_at (_properties s) (svc_path x) GATT_SERVICE_INTERFACE =
               Some (svc_obj x)) (coll_services services) ∧
  Forall (λ x, interface_at (_properties s) (chr_path x) GATT_CHARACTERISTIC_INTERFACE =
               Some (chr_obj x)) (coll_characteristics services) ∧
  Forall (λ x, interface_at (_properties s) (dsc_path x) GATT_DESCRIPTOR_INTERFACE =
               Some (dsc_obj x)) (coll_descriptors services).

(** [after] is [before] with handles added for the given paths, in
    this order, from the Property Table of [s]. *)
Definition grown (s : State) (before after : BleakGATTServiceCollection)
    (services characteristics descriptors : list string) : Prop :=
  coll_id after = coll_id before ∧
  svc_path <$> coll_services after = ((svc_path <$> coll_services before) ++ services)%list ∧
  chr_path <$> coll_characteristics after =
    ((chr_path <$> coll_characteristics before) ++ characteristics)%list ∧
  dsc_path <$> coll_descriptors after =
    ((dsc_path <$> coll_descriptors before) ++ descriptors)%list ∧
  (from_table s before → from_table s after).

(** What a call of [get_services] that built a snapshot leaves: the
    handles of the snapshot are those the indexes of [sf] list under the
    device, in the order of the three loops, with the dictionaries of
    the Property Table of [sf]. *)
Definition snapshot_of (device_path : string) (sf : State)
    (services : BleakGATTServiceCollection) : Prop :=
  svc_path <$> coll_services services = service_paths sf device_path ∧
  chr_path <$> coll_characteristics services = characteristic_paths sf device_path ∧
  dsc_path <$> coll_descriptors services = descriptor_paths sf device_path ∧
  from_table sf services.

(** ** The scanner's filters *)

(** The D-Bus signature [set_scanning_filter] gives to the value of a
    filter key, for the keys it knows. *)
Definition filter_signature (k : string) : option string :=
  if decide (k = "UUIDs") then Some "as"
  else if decide (k = "RSSI") then Some "n"
  else if decide (k = "Pathloss") then Some "n"
  else if decide (k = "Transport") then Some "s"
  else if decide (k = "DuplicateData") then Some "b"
  else if decide (k = "Discoverable") then Some "b"
  else if decide (k = "Pattern") then Some "s"
  else None.

(** Every filter of the dictionary has a known key and the signature
    of its key. *)
Definition typed_filters (fs : gmap string Variant) : Prop :=
  ∀ k v, fs !! k = Some v → filter_signature k = Some (signature v).

(** Filters a caller may give: a threshold, and a key that BlueZ does
    not know. *)
Definition filters0 : list (string * Value) :=
  [ ("RSSI", VInt (-70)); ("Colour", VStr "blue") ].

Definition bluez_filters0 : Scanner.BlueZScannerArgs :=
  {| Scanner.filters := Some filters0; Scanner.or_patterns := None |}.

(** The scanner built from [bluez_filters0], for active scanning. *)
Definition scanner0 : Scanner.BleakScannerBlueZDBus :=
  match @Scanner.__init__ plain_base None None "active" bluez_filters0 no_kwargs with
  | Ok self => self
  | Err _ =>
      {| Scanner._callback := None; Scanner._service_uuids := None;
         Scanner._scanning_mode := ""; Scanner._adapter := ""; Scanner._adapter_path := "";
         Scanner._devices := ∅; Scanner._stop := None; Scanner._filters := ∅;
         Scanner._or_patterns := None |}
  end.

(** What the signal handler leaves alone: the bus, the registrations of
    scans and of waiters, and the identities handed out; events are set
    and never cleared. *)
Definition handler_frame (s0 s : State) : Prop :=
  _bus s = _bus s0 ∧
  bus_connected s = bus_connected s0 ∧
  _advertisement_callbacks s = _advertisement_callbacks s0 ∧
  _device_removed_callbacks s = _device_removed_callbacks s0 ∧
  _condition_callbacks s = _condition_callbacks s0 ∧
  next_id s = next_id s0 ∧
  events s0 ⊆ events s.

(** * Proofs *)

Local Open Scope list_scope.

(** ** Invariants of code that does not suspend *)

Lemma preserves_ret {A} P (a : A) : preserves P (ret a).
Proof. by intros s. Qed.

Lemma preserves_raise {A} P e : preserves P (@raise A e).
Proof. by intros s. Qed.

Lemma preserves_get P : preserves P get.
Proof. by intros s. Qed.

Lemma preserves_modify (P : State → Prop) f : (∀ s, P s → P (f s)) → preserves P (modify f).
Proof. intros Hf s Hs. by apply Hf. Qed.

Lemma preserves_bind {A B} P (m : Sync A) (f : A → Sync B) :
  preserves P m → (∀ a, preserves P (f a)) → preserves P (bind m f).
Proof.
  intros Hm Hf s Hs. unfold bind. specialize (Hm s Hs).
  destruct (m s) as [s' [a|e]]; simpl in *; [by apply Hf | done].
Qed.

Lemma preserves_getitem {V} P (d : gmap string V) k : preserves P (getitem d k).
Proof. unfold getitem. destruct (d !! k); [apply preserves_ret | apply preserves_raise]. Qed.

Lemma preserves_for_each {A} P (l : list A) body :
  (∀ x, x ∈ l → preserves P (body x)) → preserves P (for_each l body).
Proof.
  induction l as [|x l IH]; intros Hb; simpl; [apply preserves_ret|].
  apply preserves_bind; [apply Hb; left | intros _; apply IH].
  intros y Hy. apply Hb. by right.
Qed.

Lemma preserves_for_live_set {A} P n cur (l : list A) body :
  (∀ x, x ∈ l → preserves P (body x)) → preserves P (for_live_set n cur l body).
Proof.
  induction l as [|x l IH]; intros Hb s Hs; simpl.
  - by destruct (negb _).
  - destruct (negb _); [done|].
    apply preserves_bind; [apply Hb; left | intros _; apply IH | done].
    intros y Hy. apply Hb. by right.
Qed.

Lemma preserves_for_set {A} P cur (body : A → Sync unit) :
  (∀ x, preserves P (body x)) → preserves P (for_set cur body).
Proof.
  intros Hb. unfold for_set. apply preserves_bind; [apply preserves_get|].
  intros s. apply preserves_for_live_set. auto.
Qed.

Lemma preserves_self_interface P path i : preserves P (self_interface path i).
Proof.
  unfold self_interface. apply preserves_bind; [apply preserves_get|]. intros s.
  apply preserves_bind; [apply preserves_getitem|]. intros ifaces. apply preserves_getitem.
Qed.

Lemma for_each_cons {A} (x : A) l body s :
  for_each (x :: l) body s =
  match body x s with
  | (s1, Ok _) => for_each l body s1
  | (s1, Err e) => (s1, Err e)
  end.
Proof. done. Qed.

(** ** What a registered callback can change *)

Lemma callbacks_frame_refl s : callbacks_frame s s.
Proof. exists (_device_watchers s), (calls s). by destruct s. Qed.

Lemma callbacks_frame_watchers s0 s ws :
  callbacks_frame s0 s → callbacks_frame s0 (set_device_watchers ws s).
Proof. intros (ws' & cs & ->). by exists ws, cs. Qed.

Lemma callbacks_frame_calls s0 s cs :
  callbacks_frame s0 s → callbacks_frame s0 (set_calls cs s).
Proof. intros (ws & cs' & ->). by exists ws, cs. Qed.

Lemma callbacks_frame_trans s0 s1 s2 :
  callbacks_frame s0 s1 → callbacks_frame s1 s2 → callbacks_frame s0 s2.
Proof. intros (ws & cs & ->) (ws' & cs' & ->). by exists ws', cs'. Qed.

Lemma preserves_frame_invariant {A} P (m : Sync A) :
  touches_registrations_only m → frame_invariant P → preserves P m.
Proof.
  intros Hm HP s Hs. apply (HP s); [|done]. apply Hm, callbacks_frame_refl.
Qed.

Lemma add_device_watcher_frame p c1 c2 :
  touches_registrations_only (add_device_watcher p c1 c2).
Proof.
  intros s0. unfold add_device_watcher.
  apply preserves_bind; [|intros; apply preserves_ret].
  apply preserves_modify. intros s Hs. case_decide; [done|].
  by apply callbacks_frame_watchers.
Qed.

Lemma remove_device_watcher_frame w : touches_registrations_only (remove_device_watcher w).
Proof.
  intros s0. unfold remove_device_watcher. apply preserves_bind; [apply preserves_get|].
  intros s. case_decide; [|apply preserves_raise].
  apply preserves_modify. intros s' Hs'. by apply callbacks_frame_watchers.
Qed.

Lemma run_op_frame op : touches_registrations_only (run_op op).
Proof.
  intros s0. destruct op; simpl.
  - apply preserves_bind; [apply add_device_watcher_frame | intros; apply preserves_ret].
  - apply remove_device_watcher_frame.
  - apply preserves_raise.
Qed.

Lemma invoke_frame `{UserCode} c : touches_registrations_only (invoke c).
Proof.
  intros s0. unfold invoke. apply preserves_bind.
  - apply preserves_modify. intros s Hs. by apply callbacks_frame_calls.
  - intros _. apply preserves_for_each. intros op _. apply run_op_frame.
Qed.

Lemma run_advertisement_callbacks_frame `{UserCode} p device changed :
  touches_registrations_only (_run_advertisement_callbacks p device changed).
Proof.
  intros s0. unfold _run_advertisement_callbacks.
  apply preserves_bind; [apply preserves_get|]. intros s.
  apply preserves_for_each. intros c _.
  destruct (negb _); [apply preserves_ret | apply invoke_frame].
Qed.

Lemma connected_watchers_frame `{UserCode} path i :
  touches_registrations_only (notify_connected path i).
Proof.
  intros s0. apply preserves_bind; [apply preserves_get|]. intros s.
  apply preserves_for_each. intros w _. case_decide; [|apply preserves_ret].
  apply preserves_bind; [apply preserves_self_interface|]. intros props.
  apply preserves_bind; [apply preserves_getitem|]. intros v. apply invoke_frame.
Qed.

Lemma value_watchers_frame `{UserCode} path i :
  touches_registrations_only (notify_value path i).
Proof.
  intros s0. apply preserves_for_set. intros w.
  destruct (String.prefix _ _); [|apply preserves_ret].
  apply preserves_bind; [apply preserves_self_interface|]. intros props.
  apply preserves_bind; [apply preserves_getitem|]. intros v. apply invoke_frame.
Qed.

Lemma removed_callbacks_frame `{UserCode} obj_path :
  touches_registrations_only (notify_removed obj_path).
Proof.
  intros s0. apply preserves_bind; [apply preserves_get|]. intros s.
  apply preserves_for_each. intros c _.
  destruct (String.prefix _ _); [apply invoke_frame | apply preserves_ret].
Qed.

Lemma same_tables_refl s : same_tables s s.
Proof. by split. Qed.

Lemma same_tables_frame s0 : frame_invariant (same_tables s0).
Proof.
  intros s1 s (ws & cs & ->) [Hp Hi]. split; [done|].
  intros lv. specialize (Hi lv). by destruct lv.
Qed.

Lemma same_hierarchy_frame s0 : frame_invariant (same_hierarchy s0).
Proof.
  intros s1 s (ws & cs & ->) [Hi Hp]. split; [|done].
  intros lv. specialize (Hi lv). by destruct lv.
Qed.

Lemma index_frame_frame s0 p : frame_invariant (index_frame s0 p).
Proof.
  intros s1 s (ws & cs & ->) Hs lv k Hk. specialize (Hs lv k Hk). by destruct lv.
Qed.

Lemma run_condition_callback_tables s0 cc :
  preserves (same_tables s0) (run_condition_callback cc).
Proof.
  unfold run_condition_callback.
  apply preserves_bind; [apply preserves_get|]. intros s.
  apply preserves_bind; [apply preserves_getitem|]. intros ifaces.
  apply preserves_bind; [apply preserves_getitem|]. intros props.
  apply preserves_bind; [apply preserves_getitem|]. intros v.
  destruct (py_eq _ _); [|apply preserves_ret].
  apply preserves_modify. intros s' [Hp Hi]. split; [done|].
  intros lv. specialize (Hi lv). by destruct lv.
Qed.

(** ** Tables and indexes under insertion *)

Lemma interface_at_insert table p i props q j :
  interface_at (<[p := <[i := props]> (default ∅ (table !! p))]> table) q j =
  if decide (q = p ∧ j = i) then Some props else interface_at table q j.
Proof.
  unfold interface_at. destruct (decide (q = p)) as [->|Hq].
  - rewrite lookup_insert_eq. simpl. destruct (decide (j = i)) as [->|Hj].
    + rewrite lookup_insert_eq. by rewrite decide_True.
    + rewrite lookup_insert_ne by done. rewrite decide_False by tauto.
      destruct (table !! p); simpl; [done|]. apply lookup_empty.
  - rewrite lookup_insert_ne by done. by rewrite decide_False by tauto.
Qed.

Lemma parent_in_insert table p i props lv child :
  parent_in (<[p := <[i := props]> (default ∅ (table !! p))]> table) lv child =
  if decide (child = p ∧ level_interface lv = i)
  then props !! level_key lv ≫= hash_key
  else parent_in table lv child.
Proof.
  unfold parent_in, property_at. rewrite interface_at_insert.
  by case_decide.
Qed.

Lemma listed_in_add (index : gmap Key (gset string)) p k :
  ∀ parent child,
    listed_in (<[k := {[p]} ∪ default ∅ (index !! k)]> index) parent child ↔
    (child = p ∧ parent = k) ∨ listed_in index parent child.
Proof.
  intros parent child. unfold listed_in.
  destruct (decide (parent = k)) as [->|Hne].
  - rewrite lookup_insert_eq. simpl. rewrite elem_of_union, elem_of_singleton. tauto.
  - rewrite lookup_insert_ne by done. split; [tauto|]. intros [[_ ?]|?]; done.
Qed.

Lemma level_interface_inj lv1 lv2 : level_interface lv1 = level_interface lv2 → lv1 = lv2.
Proof. destruct lv1, lv2; simpl; intros; done. Qed.

Lemma parent_key_level lv : parent_key (level_interface lv) = Some (level_key lv).
Proof. by destruct lv. Qed.

Lemma parent_key_Some i key :
  parent_key i = Some key → ∃ lv, i = level_interface lv ∧ key = level_key lv.
Proof.
  unfold parent_key. repeat case_decide; intros; simplify_eq.
  - by exists ServiceLevel.
  - by exists CharacteristicLevel.
  - by exists DescriptorLevel.
Qed.

Ltac by_level :=
  let lv := fresh "lv" in
  intros lv; destruct lv; simpl; repeat case_decide; simplify_eq/=; try done.

Lemma interface_added_tables `{UserCode} p i props s :
  let s' := (interface_added p (i, props) s).1 in
  _properties s' = <[p := <[i := props]> (default ∅ (_properties s !! p))]> (_properties s) ∧
  ∀ lv, level_index lv s' =
     if decide (level_interface lv = i) then
        match props !! level_key lv ≫= hash_key with
        | Some k => <[k := {[p]} ∪ default ∅ (level_index lv s !! k)]> (level_index lv s)
        | None => level_index lv s
        end
     else level_index lv s.
Proof.
  unfold interface_added, bind, modify. simpl.
  repeat case_decide; subst; try discriminate.
  1-3: unfold index_add, bind;
       match goal with |- context [getitem ?d ?k] =>
         unfold getitem, modify; destruct (d !! k) as [v|] eqn:Hk end;
       simpl; [destruct (hash_key v) eqn:Hv; simpl|]; (split; [done|]); by_level;
       rewrite ?Hk; simpl; rewrite ?Hv; done.
  - simpl.
    match goal with |- context [_run_advertisement_callbacks ?a ?b ?c ?s1] =>
      destruct (preserves_frame_invariant _ _
                  (run_advertisement_callbacks_frame a b c) (same_tables_frame s1)
                  s1 (same_tables_refl _))
        as [Hp Hi]; rewrite Hp; split; [done|]; intros lv; rewrite Hi; revert lv end.
    by_level.
  - simpl. split; [done|]. by_level.
Qed.

Lemma not_listed_of_exact index table lv p :
  exact_index index table lv → parent_in table lv p = None →
  ∀ parent, ¬ listed_in index parent p.
Proof. intros Hex Hnone parent Hl. apply Hex in Hl. congruence. Qed.

Lemma parent_in_no_interface table lv p :
  interface_at table p (level_interface lv) = None → parent_in table lv p = None.
Proof. unfold parent_in, property_at. by intros ->. Qed.

Lemma interface_added_exact `{UserCode} p i props s :
  hierarchy_exact s →
  (is_Some (parent_key i) → interface_at (_properties s) p i = None) →
  hierarchy_exact (interface_added p (i, props) s).1.
Proof.
  intros Hex Hfresh lv. destruct (interface_added_tables p i props s) as [Hp Hi].
  unfold index_exact. rewrite Hp, Hi. intros parent child.
  rewrite parent_in_insert.
  destruct (decide (level_interface lv = i)) as [<-|Hne].
  - assert (Hnone : parent_in (_properties s) lv p = None).
    { apply parent_in_no_interface, Hfresh. rewrite parent_key_level. by eexists. }
    pose proof (not_listed_of_exact _ _ _ _ (Hex lv) Hnone) as Hnl.
    destruct (props !! level_key lv ≫= hash_key) as [k|] eqn:Hk.
    + rewrite listed_in_add. case_decide as Hc.
      * destruct Hc as [-> _]. split; [intros [[_ ->]|Hl]; [done | by apply Hnl in Hl]|].
        intros [= ->]. by left.
      * split.
        -- intros [[-> _]|Hl]; [tauto | by apply (Hex lv)].
        -- intros Hpar. right. by apply (Hex lv).
    + case_decide as Hc.
      * destruct Hc as [-> _]. split; [intros Hl; by apply Hnl in Hl | done].
      * apply (Hex lv).
  - rewrite decide_False by tauto. apply (Hex lv).
Qed.

Lemma interface_added_other `{UserCode} p i props s j :
  j ≠ i →
  interface_at (_properties (interface_added p (i, props) s).1) p j =
  interface_at (_properties s) p j.
Proof.
  intros Hne. destruct (interface_added_tables p i props s) as [-> _].
  rewrite interface_at_insert. by rewrite decide_False by tauto.
Qed.

Lemma interfaces_added_exact `{UserCode} p ifs : ∀ s,
  NoDup ifs.*1 →
  (∀ i, i ∈ ifs.*1 → is_Some (parent_key i) → interface_at (_properties s) p i = None) →
  hierarchy_exact s →
  hierarchy_exact (for_each ifs (interface_added p) s).1.
Proof.
  induction ifs as [|[i props] ifs IH]; intros s Hnd Hfresh Hex; [done|].
  rewrite fmap_cons in Hnd, Hfresh. apply NoDup_cons in Hnd as [Hni Hnd].
  assert (Hstep : hierarchy_exact (interface_added p (i, props) s).1).
  { apply interface_added_exact; [done|]. apply Hfresh. left. }
  rewrite for_each_cons.
  pose proof (interface_added_other p i props s) as Hother.
  destruct (interface_added p (i, props) s) as [s1 [[]|e]]; [|done].
  apply IH; [done| |done].
  intros j Hj Hk. simpl in Hother. rewrite Hother by (intros ->; done).
  apply Hfresh; [by right | done].
Qed.

(** ** Properties-changed signals *)

Lemma same_hierarchy_refl s : same_hierarchy s s.
Proof. by split. Qed.

Lemma same_hierarchy_exact s0 s :
  same_hierarchy s0 s → hierarchy_exact s0 → hierarchy_exact s.
Proof.
  intros [Hi Hp] Hex lv parent child. unfold index_exact, exact_index in *.
  rewrite Hi. fold (parent_of s lv child). rewrite Hp. apply Hex.
Qed.

Lemma preserves_same_hierarchy {A} s0 (m : Sync A) :
  (∀ s1, preserves (same_tables s1) m) → preserves (same_hierarchy s0) m.
Proof.
  intros Hm s [Hi Hp]. destruct (Hm s s (same_tables_refl s)) as [Hp' Hi'].
  split.
  - intros lv. by rewrite Hi'.
  - intros lv child. unfold parent_of. rewrite Hp'. apply Hp.
Qed.

Lemma set_self_interface_same_hierarchy s0 path i props s :
  (∀ lv, level_interface lv = i →
     props !! level_key lv ≫= hash_key = parent_of s0 lv path) →
  same_hierarchy s0 s → same_hierarchy s0 (set_self_interface path i props s).
Proof.
  intros Hkey [Hi Hp]. split.
  - intros lv. specialize (Hi lv). by destruct lv.
  - intros lv child. unfold parent_of, set_self_interface. simpl.
    rewrite parent_in_insert. case_decide as Hc; [|apply Hp].
    destruct Hc as [-> Hlv]. by apply Hkey.
Qed.

Lemma del_property_same_hierarchy s0 path i name :
  (∀ lv, level_interface lv = i → level_key lv ≠ name) →
  preserves (same_hierarchy s0) (del_property path i name).
Proof.
  intros Hname s Hs. unfold del_property, self_interface, bind, get, getitem. simpl.
  destruct (_properties s !! path) as [ifaces|] eqn:Hpath; simpl; [|done].
  destruct (ifaces !! i) as [props|] eqn:Hi; simpl; [|done].
  destruct (props !! name) eqn:Hn; simpl; [|done].
  apply set_self_interface_same_hierarchy; [|done].
  intros lv Hlv. rewrite lookup_delete_ne by (by apply not_eq_sym, Hname).
  destruct Hs as [_ Hp]. rewrite <- Hp. unfold parent_of, parent_in, property_at, interface_at.
  rewrite Hpath. simpl. rewrite Hlv, Hi. done.
Qed.

Lemma properties_changed_same_hierarchy `{UserCode} path i changed invalidated s :
  (∀ key, parent_key i = Some key → changed !! key = None ∧ key ∉ invalidated) →
  same_hierarchy s (properties_changed path i changed invalidated s).1.
Proof.
  intros Hsafe.
  assert (Hkey : ∀ lv, level_interface lv = i →
            changed !! level_key lv = None ∧ level_key lv ∉ invalidated).
  { intros lv <-. apply Hsafe, parent_key_level. }
  unfold properties_changed. unfold bind at 1. simpl.
  destruct (interface_at (_properties s) path i) as [props|] eqn:Hia;
    [|apply same_hierarchy_refl].
  apply (preserves_bind (same_hierarchy s)); [| |apply same_hierarchy_refl].
  { apply preserves_modify. intros s1. apply set_self_interface_same_hierarchy.
    intros lv Hlv. destruct (Hkey lv Hlv) as [Hc _].
    rewrite lookup_union_r by done.
    unfold parent_of, parent_in, property_at. by rewrite Hlv, Hia. }
  intros _. apply preserves_bind.
  { apply preserves_for_each. intros name Hname. apply del_property_same_hierarchy.
    intros lv Hlv Heq. subst name. by destruct (Hkey lv Hlv). }
  intros _. case_decide.
  - apply preserves_bind.
    { apply preserves_bind; [apply preserves_self_interface|]. intros device.
      apply preserves_frame_invariant;
        [apply run_advertisement_callbacks_frame | apply same_hierarchy_frame]. }
    intros _. apply preserves_bind.
    { apply preserves_for_set. intros cc. apply preserves_same_hierarchy. intros s1.
      apply run_condition_callback_tables. }
    intros _. case_decide; [|apply preserves_ret].
    apply preserves_frame_invariant;
      [apply connected_watchers_frame | apply same_hierarchy_frame].
  - case_decide; [|apply preserves_ret]. case_decide; [|apply preserves_ret].
    apply preserves_frame_invariant;
      [apply value_watchers_frame | apply same_hierarchy_frame].
Qed.

(** ** The bulk enumeration *)

Lemma load_object_levels path props :
  load_object (path, props) =
  (modify (λ s, set_properties (<[path := props]> (_properties s)) s) >>
   load_level ServiceLevel path props >>
   load_level CharacteristicLevel path props >>
   load_level DescriptorLevel path props)%sync.
Proof. done. Qed.

Lemma load_level_ok lv path props s s' :
  load_level lv path props s = (s', Ok tt) →
  _properties s' = _properties s ∧
  (∀ lv', lv' ≠ lv → level_index lv' s' = level_index lv' s) ∧
  level_index lv s' =
    match own_parent props lv with
    | Some k => <[k := {[path]} ∪ default ∅ (level_index lv s !! k)]> (level_index lv s)
    | None => level_index lv s
    end.
Proof.
  unfold load_level, own_parent.
  destruct (props !! level_interface lv) as [lp|]; simpl; [|by intros [= <-]].
  case_decide as He.
  { subst lp. intros [= <-]. by rewrite lookup_empty. }
  unfold index_add, bind, getitem, modify.
  destruct (lp !! level_key lv) as [v|]; simpl; [|done].
  destruct (hash_key v) as [k|]; simpl; [|done].
  intros [= <-]. destruct lv; simpl; (split; [done|]); (split; [|done]);
    intros []; done.
Qed.

Lemma parent_in_insert_object table path props lv child :
  parent_in (<[path := props]> table) lv child =
  if decide (child = path) then own_parent props lv else parent_in table lv child.
Proof.
  unfold parent_in, property_at, interface_at, own_parent.
  case_decide as Hc.
  - subst. rewrite lookup_insert_eq. simpl. by destruct (props !! _).
  - by rewrite lookup_insert_ne.
Qed.

Lemma load_object_exact path props s s' :
  _properties s !! path = None →
  hierarchy_exact s →
  load_object (path, props) s = (s', Ok tt) →
  hierarchy_exact s' ∧ _properties s' = <[path := props]> (_properties s).
Proof.
  intros Hnew Hex. rewrite load_object_levels. unfold bind at 1. unfold modify at 1.
  set (s0 := set_properties _ s).
  unfold bind at 1. destruct (load_level ServiceLevel path props s0) as [s1 [[]|e]] eqn:E1; [|done].
  unfold bind at 1. destruct (load_level CharacteristicLevel path props s1) as [s2 [[]|e]] eqn:E2; [|done].
  intros E3.
  apply load_level_ok in E1 as (P1 & O1 & I1).
  apply load_level_ok in E2 as (P2 & O2 & I2).
  apply load_level_ok in E3 as (P3 & O3 & I3).
  assert (Hp : _properties s' = <[path := props]> (_properties s)).
  { by rewrite P3, P2, P1. }
  split; [|done].
  assert (Hidx : ∀ lv, level_index lv s' =
            match own_parent props lv with
            | Some k => <[k := {[path]} ∪ default ∅ (level_index lv s !! k)]> (level_index lv s)
            | None => level_index lv s
            end).
  { intros [].
    - rewrite (O3 ServiceLevel), (O2 ServiceLevel) by done. by rewrite I1.
    - rewrite (O3 CharacteristicLevel) by done. rewrite I2.
      by rewrite (O1 CharacteristicLevel) by done.
    - rewrite I3. rewrite (O2 DescriptorLevel), (O1 DescriptorLevel) by done. done. }
  intros lv parent child. unfold index_exact, exact_index in *.
  rewrite Hp, Hidx, parent_in_insert_object.
  assert (Hnl : ∀ parent, ¬ listed_in (level_index lv s) parent path).
  { apply (not_listed_of_exact _ (_properties s) lv); [apply Hex|].
    unfold parent_in, property_at, interface_at. by rewrite Hnew. }
  destruct (own_parent props lv) as [k|].
  - rewrite listed_in_add. case_decide as Hc.
    + subst child. split; [intros [[_ ->]|Hl]; [done | by apply Hnl in Hl]|].
      intros [= ->]. by left.
    + split; [intros [[-> _]|Hl]; [done | by apply (Hex lv)]|].
      intros Hpar. right. by apply (Hex lv).
  - case_decide as Hc; [|apply (Hex lv)].
    subst child. split; [intros Hl; by apply Hnl in Hl | done].
Qed.

Lemma load_objects_exact objs : ∀ s s',
  NoDup objs.*1 →
  (∀ p, p ∈ objs.*1 → _properties s !! p = None) →
  hierarchy_exact s →
  for_each objs load_object s = (s', Ok tt) →
  hierarchy_exact s'.
Proof.
  induction objs as [|[path props] objs IH]; intros s s' Hnd Hnew Hex.
  { by intros [= <-]. }
  rewrite fmap_cons in Hnd, Hnew. apply NoDup_cons in Hnd as [Hni Hnd].
  rewrite for_each_cons.
  destruct (load_object (path, props) s) as [s1 [[]|e]] eqn:E; [|done].
  apply load_object_exact in E as [Hex1 Hp1]; [|apply Hnew; left|done].
  apply IH; [done| |done].
  intros p Hp. rewrite Hp1, lookup_insert_ne by (intros ->; done).
  apply Hnew. by right.
Qed.

Lemma cleared_exact s : hierarchy_exact (clear_tables s).
Proof.
  intros lv parent child. unfold index_exact, exact_index, listed_in, parent_in,
    property_at, interface_at.
  destruct lv; simpl; rewrite !lookup_empty; simpl; split; try done; set_solver.
Qed.

(** ** Object-removed signals *)

Lemma preserves_index_del s0 p lv :
  preserves (index_frame s0 p) (index_del (level_index lv) (set_level_index lv) p).
Proof.
  apply preserves_modify. intros s Hs lv' k Hk. specialize (Hs lv' k Hk).
  destruct lv, lv'; simpl in *; rewrite ?lookup_delete_ne by done; done.
Qed.

Lemma preserves_interface_removed `{UserCode} s0 p i :
  preserves (index_frame s0 p) (interface_removed p i).
Proof.
  unfold interface_removed. apply preserves_bind.
  { apply preserves_modify. intros s Hs. destruct (_properties s !! p); [|done].
    intros lv k Hk. specialize (Hs lv k Hk). by destruct lv. }
  intros _. case_decide.
  - apply preserves_bind.
    { apply preserves_modify. intros s Hs lv k Hk. specialize (Hs lv k Hk). by destruct lv. }
    intros _. apply preserves_bind; [apply (preserves_index_del s0 p ServiceLevel)|].
    intros _. apply preserves_frame_invariant;
      [apply removed_callbacks_frame | apply index_frame_frame].
  - case_decide; [apply (preserves_index_del s0 p CharacteristicLevel)|].
    case_decide; [apply (preserves_index_del s0 p DescriptorLevel)|apply preserves_ret].
Qed.

Lemma interfaces_removed_frame `{UserCode} p interfaces s :
  index_frame s p (_parse_msg (InterfacesRemoved p interfaces) s).1.
Proof.
  simpl. apply (preserves_for_each (index_frame s p)); [|done].
  intros i _. apply preserves_interface_removed.
Qed.

(** ** The hierarchy index: what holds *)

Lemma parse_msg_exact `{UserCode} s message :
  index_safe s message → hierarchy_exact s → hierarchy_exact (_parse_msg message s).1.
Proof.
  destruct message as [p ifs|p ifs|path i changed invalidated|m|t]; simpl; try done.
  - intros [Hnd Hfresh] Hex. by apply interfaces_added_exact.
  - intros Hsafe Hex. eapply same_hierarchy_exact; [|done].
    by apply properties_changed_same_hierarchy.
Qed.

(** C1, as it holds: after a bulk enumeration the three index maps are
    exact (no orphans, no missing entries), and they stay exact under
    object-added signals that bring GATT interfaces to paths not yet
    carrying them and under properties-changed signals that leave the
    parent reference alone. An object-removed signal for a path changes
    the maps at most at the key that is this path: the path stays in the
    set of its parent. *)
Theorem hierarchy_index_exact `{UserCode} s :
  reachable index_safe s →
  hierarchy_exact s ∧
  ∀ obj_path interfaces lv parent,
    parent ≠ KStr obj_path →
    level_index lv (_parse_msg (InterfacesRemoved obj_path interfaces) s).1 !! parent =
    level_index lv s !! parent.
Proof.
  intros Hr. split.
  - induction Hr as [s0 objs s Hnd Hload | s message Hr IH Hsafe].
    + eapply load_objects_exact; [done| |apply cleared_exact|done].
      intros p _. apply lookup_empty.
    + by apply parse_msg_exact.
  - intros p ifs lv parent Hne. by apply interfaces_removed_frame.
Qed.

Lemma NoDup_objects0 : NoDup objects0.*1.
Proof. apply (bool_decide_unpack _). vm_compute. exact I. Qed.

Lemma reachable_enumerated0 `{UserCode} allowed : reachable allowed enumerated0.
Proof.
  apply (reachable_enumerated allowed __init__ objects0); [apply NoDup_objects0|].
  vm_compute; reflexivity.
Qed.

(** The theorem at work: the manager after the enumeration and the
    arrival of a characteristic. *)
Lemma hierarchy_index_exact_witness :
  @reachable quiet index_safe (@_parse_msg quiet char_added enumerated0).1 ∧
  hierarchy_exact (@_parse_msg quiet char_added enumerated0).1.
Proof.
  assert (Hr : @reachable quiet index_safe (@_parse_msg quiet char_added enumerated0).1).
  { apply (@reachable_signal quiet); [apply reachable_enumerated0|].
    split; [apply (bool_decide_unpack _); vm_compute; exact I|].
    intros i Hi _. apply list_elem_of_singleton in Hi as ->. vm_compute; reflexivity. }
  split; [exact Hr|]. exact (proj1 (@hierarchy_index_exact quiet _ Hr)).
Defined.

(** C1, as claimed, fails: after the daemon removes a service, the
    service is still in the set of its device, while its entry in the
    Property Table no longer carries the service interface. *)
Lemma hierarchy_index_orphan :
  ¬ (∀ s, @reachable quiet any_signal s → hierarchy_exact s).
Proof.
  intros Hall.
  specialize (Hall (@_parse_msg quiet service_removed enumerated0).1).
  assert (Hl : listed (@_parse_msg quiet service_removed enumerated0).1
                 ServiceLevel (KStr device0) service0).
  { unfold listed, listed_in.
    assert (E : level_index ServiceLevel (@_parse_msg quiet service_removed enumerated0).1
                  !! KStr device0 = Some {[service0]}) by (vm_compute; reflexivity).
    rewrite E. simpl. by apply elem_of_singleton. }
  apply Hall in Hl.
  - by vm_compute in Hl.
  - apply (@reachable_signal quiet); [apply reachable_enumerated0 | exact I].
Qed.

(** ** Dispatch to device watchers *)

(** The table and the trace are those of [s0]. *)
Lemma run_ops_trace ops s0 :
  preserves (λ s, _properties s = _properties s0 ∧ calls s = calls s0)
    (for_each ops run_op).
Proof.
  apply preserves_for_each. intros op _. destruct op as [w|w|e]; simpl.
  - apply preserves_bind; [|intros; apply preserves_ret].
    unfold add_device_watcher. apply preserves_bind; [|intros; apply preserves_ret].
    apply preserves_modify. intros s Hs. by case_decide.
  - unfold remove_device_watcher. apply preserves_bind; [apply preserves_get|].
    intros s. case_decide; [|apply preserves_raise]. by apply preserves_modify.
  - apply preserves_raise.
Qed.

Lemma invoke_trace `{UserCode} c s :
  _properties (invoke c s).1 = _properties s ∧ calls (invoke c s).1 = calls s ++ [c].
Proof.
  unfold invoke, bind, modify. simpl.
  pose proof (run_ops_trace (user_code c) (set_calls (calls s ++ [c]) s)
                (set_calls (calls s ++ [c]) s) (conj eq_refl eq_refl)) as [Hp Hc].
  by destruct (for_each (user_code c) run_op _) as [s' [[]|e]].
Qed.

(** The watchers of [ws] that watch [path], each called with [v]. *)
Lemma connected_loop_calls `{UserCode} path i v ws : ∀ s s',
  property_at (_properties s) path i "Connected" = Some v →
  for_each ws (λ w,
    if decide (path = device_path w)
    then
      let! props := self_interface path i in
      let! v := getitem props "Connected" in
      invoke (CallConnectedChanged (on_connected_changed w) v)
    else ret tt)%sync s = (s', Ok tt) →
  calls s' =
    calls s ++ ((λ w, CallConnectedChanged (on_connected_changed w) v) <$>
                filter (λ w, path = device_path w) ws).
Proof.
  induction ws as [|w ws IH]; intros s s' Hv.
  { intros [= <-]. by rewrite app_nil_r. }
  rewrite for_each_cons. rewrite filter_cons. case_decide as Hw.
  - unfold property_at, interface_at in Hv.
    unfold bind at 1, self_interface, bind, get, getitem. simpl.
    destruct (_properties s !! path) as [ifaces|] eqn:Hpath; [|done]. simpl in *.
    destruct (ifaces !! i) as [props|] eqn:Hi; [|done]. simpl in *.
    rewrite Hv. simpl.
    destruct (invoke_trace (CallConnectedChanged (on_connected_changed w) v) s) as [Hp Hc].
    destruct (invoke _ s) as [s1 [[]|e]]; [|done]. simpl in *.
    intros Hrest. apply IH in Hrest.
    + rewrite Hrest, Hc. by rewrite <- app_assoc.
    + unfold property_at, interface_at. rewrite Hp, Hpath. simpl. by rewrite Hi.
  - simpl. by apply IH.
Qed.

Lemma notify_connected_calls_all `{UserCode} path i v s s' :
  property_at (_properties s) path i "Connected" = Some v →
  notify_connected path i s = (s', Ok tt) →
  calls s' =
    calls s ++ ((λ w, CallConnectedChanged (on_connected_changed w) v) <$>
                filter (λ w, path = device_path w) (_device_watchers s)).
Proof. intros Hv. unfold notify_connected, bind, get. simpl. by apply connected_loop_calls. Qed.

(** C2, on an input where the code departs from it. When the device
    connects, the handler walks a copy of the set of watchers: every
    watcher of the device that is registered when the loop begins is
    called, whatever the callbacks do to the set. When a characteristic
    changes its value, the handler walks the set itself. With two
    watchers registered for one device, each of whose callbacks
    unregisters its own watcher, in either order of iteration the
    removal by the first callback makes the next step of the iteration
    raise, and the other watcher is not called. *)
Theorem value_watchers_not_copied :
  (∀ (code : UserCode) path i v s s',
     property_at (_properties s) path i "Connected" = Some v →
     notify_connected path i s = (s', Ok tt) →
     calls s' =
       calls s ++ ((λ w, CallConnectedChanged (on_connected_changed w) v) <$>
                   filter (λ w, path = device_path w) (_device_watchers s))) ∧
  let run message ws := @_parse_msg self_removing message (watched ws) in
  ((run value_changed [watcher1; watcher2]).2 =
     Err (RuntimeError "Set changed size during iteration") ∧
   length (calls (run value_changed [watcher1; watcher2]).1) = 1%nat) ∧
  ((run value_changed [watcher2; watcher1]).2 =
     Err (RuntimeError "Set changed size during iteration") ∧
   length (calls (run value_changed [watcher2; watcher1]).1) = 1%nat) ∧
  ((run connected_changed [watcher1; watcher2]).2 = Ok tt ∧
   calls (run connected_changed [watcher1; watcher2]).1 =
     [CallConnectedChanged 1 (VBool true); CallConnectedChanged 3 (VBool true)]) ∧
  ((run connected_changed [watcher2; watcher1]).2 = Ok tt ∧
   calls (run connected_changed [watcher2; watcher1]).1 =
     [CallConnectedChanged 3 (VBool true); CallConnectedChanged 1 (VBool true)]).
Proof.
  split; [intros code; apply notify_connected_calls_all|].
  vm_compute. repeat split; reflexivity.
Qed.

(** ** Two runs from states with the same tables *)

Lemma related_ret {A} R (a : A) : related R (ret a).
Proof. by intros sA sB. Qed.

Lemma related_raise {A} R e : related R (@raise A e).
Proof. by intros sA sB. Qed.

Lemma related_modify (R : State → State → Prop) f :
  (∀ sA sB, R sA sB → R (f sA) (f sB)) → related R (modify f).
Proof. intros Hf sA sB HR. split; [done | by apply Hf]. Qed.

Lemma related_bind {A B} R (m : Sync A) (f : A → Sync B) :
  related R m → (∀ a, related R (f a)) → related R (bind m f).
Proof.
  intros Hm Hf sA sB HR. unfold bind. destruct (Hm sA sB HR) as [Hr Hs].
  destruct (m sA) as [sA' [a|e]], (m sB) as [sB' [b|e']]; simpl in *; simplify_eq; [|done].
  by apply Hf.
Qed.

Lemma related_for_each {A} R (l : list A) body :
  (∀ x, related R (body x)) → related R (for_each l body).
Proof.
  intros Hb. induction l as [|x l IH]; simpl; [apply related_ret|].
  apply related_bind; [apply Hb | by intros _].
Qed.

Lemma related_index_add lv props key path :
  related same_tables (index_add (level_index lv) (set_level_index lv) props key path).
Proof.
  unfold index_add. apply related_bind.
  { unfold getitem. destruct (props !! key); [apply related_ret | apply related_raise]. }
  intros v. destruct (hash_key v) as [k|]; [|apply related_raise].
  apply related_modify. intros sA sB [Hp Hi]. split.
  - by destruct lv.
  - intros lv'. pose proof (Hi lv) as Hlv. pose proof (Hi lv') as Hlv'.
    destruct lv, lv'; simpl in *; congruence.
Qed.

Lemma related_load_level lv path props : related same_tables (load_level lv path props).
Proof.
  unfold load_level. destruct (props !! level_interface lv) as [lp|]; [|apply related_ret].
  case_decide; [apply related_ret | apply related_index_add].
Qed.

Lemma related_load_object entry : related same_tables (load_object entry).
Proof.
  destruct entry as [path props].
  change (load_object (path, props)) with
    (modify (λ s, set_properties (<[path := props]> (_properties s)) s) >>
     load_level ServiceLevel path props >>
     load_level CharacteristicLevel path props >>
     load_level DescriptorLevel path props)%sync.
  apply related_bind.
  { apply related_modify. intros sA sB [Hp Hi]. split; [simpl; by rewrite Hp|].
    intros lv. specialize (Hi lv). by destruct lv. }
  intros _. apply related_bind; [apply related_load_level|].
  intros _. apply related_bind; [apply related_load_level|].
  intros _. apply related_load_level.
Qed.

Lemma same_tables_cleared sA sB : same_tables (clear_tables sA) (clear_tables sB).
Proof. split; [done|]. by intros []. Qed.

Lemma same_tables_set_bus s0 s b : same_tables s0 s → same_tables s0 (set_bus b s).
Proof. intros [Hp Hi]. split; [done|]. intros lv. specialize (Hi lv). by destruct lv. Qed.

(** ** [async_init] *)

Lemma every_await_resume {A} P (c : Coro A) ans s :
  every_await P c → every_await P (resume c ans s).
Proof.
  induction c as [s0 r|a k IH|q s0 k IH]; simpl; [done|done|].
  intros [_ Hk]. apply Hk.
Qed.

Lemma every_await_pending {A} P (c : Coro A) q s :
  every_await P c → pending c = Some (q, s) → ∃ k, P q s k.
Proof.
  induction c as [s0 r|a k IH|q0 s0 k IH]; simpl; [done|done|].
  intros [HP _] [= <- <-]. by exists k.
Qed.

Lemma grant_await {A} q s (k : Answer → State → Coro A) ans :
  grant (Await q s k) ans = k ans s.
Proof. done. Qed.

Lemma grant_do {A} a (c : Coro A) ans : grant (Do a c) ans = Do a (grant c ans).
Proof. unfold grant. simpl. by destruct (pending c) as [[q s]|]. Qed.

(** A reconnecting [async_init] comes to the bulk read with the tables
    as they were. *)
Lemma bulk_read_pending s0 :
  bus_is_connected s0 = false →
  ∃ s, pending (at_bulk_read s0) = Some (BusCall (next_id s0) get_managed_objects, s) ∧
       same_tables s0 s.
Proof.
  intros Hc. eexists. split.
  - unfold at_bulk_read, async_init, with_bus_lock. cbv beta.
    rewrite grant_await. unfold abind, lift, get. simpl. rewrite Hc. simpl.
    repeat (rewrite ?grant_do, ?grant_await; simpl).
    reflexivity.
  - split; [done|]. by intros [].
Qed.

Lemma bulk_read_is_answered s0 : every_await bulk_read_answered (async_init s0).
Proof.
  unfold async_init, with_bus_lock. simpl. split; [done|].
  intros [r|name] s1; simpl; [|done].
  unfold abind, lift, get. simpl.
  destruct (bus_is_connected s1); simpl; [done|].
  split; [done|]. intros [r1|name] s2; simpl; [|done].
  split; [done|]. intros [[b2|n2]|name] s3; simpl; [|done|done].
  split; [done|]. intros [[b3|n3]|name] s4; simpl; [|done|done].
  split; [done|]. intros [[b4|n4]|name] s5; simpl; [|done|done].
  split; [|intros [[b5|n5]|name] s6; simpl; [|done|done]].
  - intros bus _. split; [|by split].
    intros s' body. simpl.
    destruct (related_for_each same_tables body load_object related_load_object
                (clear_tables __init__) (clear_tables s') (same_tables_cleared _ _))
      as [Hr Hs].
    destruct (for_each body load_object (clear_tables s')) as [sf [[]|e]]; simpl in *.
    + eexists _, _. split; [done|]. by apply same_tables_set_bus.
    + eexists _, _. by split.
  - by destruct (for_each b5 load_object (clear_tables s6)) as [sf [[]|e]].
Qed.

(** C3, as it holds: [async_init] clears the Property Table and the
    three index maps once the reply to the bulk read has arrived and is
    not an error, right before it loads the objects of the reply. A
    successful bulk read therefore leaves the tables of the reply
    alone, and a failed one leaves the tables as they were; while the
    bulk read is pending the tables are still those of before the
    call. *)
Theorem tables_cleared_on_bulk_reply s0 :
  every_await bulk_read_answered (async_init s0) ∧
  (bus_is_connected s0 = false →
   ∃ s, pending (at_bulk_read s0) = Some (BusCall (next_id s0) get_managed_objects, s) ∧
        same_tables s0 s).
Proof. split; [apply bulk_read_is_answered | apply bulk_read_pending]. Qed.

Lemma every_await_grant {A} P (c : Coro A) ans :
  every_await P c → every_await P (grant c ans).
Proof.
  intros Hc. unfold grant. destruct (pending c) as [[q s]|]; [|done].
  by apply every_await_resume.
Qed.

(** C3, as claimed, fails: on a reconnect the tables still hold the
    objects of the previous connection while the bulk read is pending. *)
Lemma stale_tables_at_bulk_read : ¬ cleared_before_bulk_read.
Proof.
  intros Hall. specialize (Hall enumerated0).
  assert (Hp : pending (at_bulk_read enumerated0) =
               Some (BusCall 0 get_managed_objects, stale0)).
  { vm_compute. reflexivity. }
  assert (Hdev : (if _properties stale0 !! device0 is Some _ then true else false) = true).
  { vm_compute. reflexivity. }
  do 5 apply (every_await_grant _ _ ok) in Hall.
  destruct (every_await_pending _ _ _ _ Hall Hp) as [_ Hc].
  destruct (Hc 0%nat eq_refl) as [He _]. rewrite He, lookup_empty in Hdev.
  discriminate Hdev.
Qed.

(** ** Coroutines: finishing and postconditions *)

Lemma wp_finishes {A} rely (c : Coro A) Post sf r :
  wp rely c Post → finishes rely c sf r → Post sf r.
Proof.
  induction c as [s r'|a k IH|q s k IH]; simpl.
  - by intros HP [-> ->].
  - apply IH.
  - intros Hwp (ans & s' & Hrely & Hfin). apply (IH ans s'); [by apply Hwp | done].
Qed.

Lemma wp_on_exit {A B} rely (c : Coro A) (h : State → Result A → Coro B) Post :
  wp rely c (λ s r, wp rely (h s r) Post) → wp rely (on_exit c h) Post.
Proof.
  induction c as [s r'|a k IH|q s k IH]; simpl; [done|apply IH|].
  intros Hwp ans s' Hrely. apply IH. by apply Hwp.
Qed.

Lemma finishes_grant {A} (rely : Request → State → State → Prop) (c : Coro A) ans sf r :
  (∀ q s, rely q s s) → finishes rely (grant c ans) sf r → finishes rely c sf r.
Proof.
  intros Hrefl. unfold grant.
  destruct (pending c) as [[q s]|] eqn:Hp; [|done]. revert Hp.
  induction c as [s0 r'|a k IH|q0 s0 k IH]; simpl; [done|apply IH|].
  intros [= -> ->] Hfin. by exists ans, s.
Qed.

(** ** Rolling back a registration *)

Lemma remove_first_app {A} `{EqDecision A} (x : A) l :
  ∃ l', remove_first x (l ++ [x]) = Some l' ∧ l' ≡ₚ l ∧ (x ∉ l → l' = l).
Proof.
  induction l as [|y l (l' & Hrem & Hperm & Hfresh)]; simpl.
  - rewrite decide_True by done. by exists [].
  - case_decide as Hxy.
    + subst y. exists (l ++ [x]). split; [done|]. split.
      * by rewrite Permutation_app_comm.
      * intros Hx. contradict Hx. left.
    + rewrite Hrem. simpl. exists (y :: l'). split; [done|]. split; [by f_equiv|].
      intros Hx. f_equal. apply Hfresh. contradict Hx. by right.
Qed.

Lemma unregister_registered c d s l m :
  _advertisement_callbacks s = l ++ [c] →
  _device_removed_callbacks s = m ++ [d] →
  ∃ l' m',
    unregister_callbacks c d s =
      (set_device_removed_callbacks m' (set_advertisement_callbacks l' s), Ok tt) ∧
    l' ≡ₚ l ∧ m' ≡ₚ m ∧ (c ∉ l → l' = l) ∧ (d ∉ m → m' = m).
Proof.
  intros Hadv Hrem.
  destruct (remove_first_app c l) as (l' & Hl & Hlp & Hlf).
  destruct (remove_first_app d m) as (m' & Hm & Hmp & Hmf).
  exists l', m'. split; [|done].
  unfold unregister_callbacks, remove_advertisement_callback,
    remove_device_removed_callback, bind, get, modify.
  rewrite Hadv, Hl. simpl. by rewrite Hrem, Hm.
Qed.

Lemma rolled_back_refl c d s : rolled_back c d s s.
Proof. by repeat split. Qed.

(** Rules for the postconditions of coroutines. *)

Lemma wp_mono {A} rely (c : Coro A) (P Q : State → Result A → Prop) :
  (∀ s r, P s r → Q s r) → wp rely c P → wp rely c Q.
Proof.
  intros HPQ. induction c as [s r|a k IH|q s k IH]; simpl; [apply HPQ|apply IH|].
  intros Hwp ans s' Hrely. by apply IH, Hwp.
Qed.

Lemma wp_abind {A B} rely (m : Async A) (f : A → Async B) s Post :
  wp rely (m s) (λ s' r, match r with
                         | Ok a => wp rely (f a s') Post
                         | Err e => Post s' (Err e)
                         end) →
  wp rely (abind m f s) Post.
Proof.
  intros Hwp. unfold abind. apply wp_on_exit. revert Hwp. apply wp_mono.
  by intros s' [a|e].
Qed.

Lemma wp_lift {A} rely (m : Sync A) s (Post : State → Result A → Prop) :
  Post (m s).1 (m s).2 → wp rely (lift m s) Post.
Proof. unfold lift. by destruct (m s). Qed.

Lemma wp_await rely q s (Post : State → Result Reply → Prop) :
  (∀ s', rely q s s' →
     (∀ r, Post s' (Ok r)) ∧ (∀ name, Post s' (Err (External name)))) →
  wp rely (await q s) Post.
Proof. intros HP [r|name] s' Hrely; simpl; by apply HP. Qed.

Lemma wp_try_except {A} rely (body : Async A) handler s (Post : State → Result A → Prop) :
  wp rely (body s) (λ s' r,
    match r with
    | Ok a => Post s' (Ok a)
    | Err e => wp rely (handler s') (λ s'' r',
                 match r' with
                 | Ok _ => Post s'' (Err e)
                 | Err e' => Post s'' (Err e')
                 end)
    end) →
  wp rely (try_except body handler s) Post.
Proof.
  intros Hwp. unfold try_except. apply wp_on_exit. revert Hwp. apply wp_mono.
  intros s' [a|e]; [done|]. intros Hh. apply wp_on_exit. revert Hh. apply wp_mono.
  by intros s'' [[]|e'].
Qed.

Lemma resume_with_bus_lock {A} (body : Async A) s0 r s1 :
  resume (with_bus_lock body s0) (Returned r) s1 =
  on_exit (body s1) (λ s'' res, Do ReleaseLock (Done s'' res)).
Proof. done. Qed.

Lemma wp_locked {A} rely (body : Async A) s0 r s1 Post :
  wp rely (body s1) Post →
  wp rely (resume (with_bus_lock body s0) (Returned r) s1) Post.
Proof. intros Hwp. rewrite resume_with_bus_lock. by apply wp_on_exit. Qed.

Lemma keeps_aret {A} rely Q (a : A) : keeps rely Q (aret a).
Proof. by intros s. Qed.

Lemma keeps_araise {A} rely Q e : keeps rely Q (@araise A e).
Proof. by intros s. Qed.

Lemma keeps_perform rely Q a : keeps rely Q (perform a).
Proof. by intros s. Qed.

Lemma keeps_lift {A} rely (Q : State → Prop) (m : Sync A) :
  (∀ s, Q s → Q (m s).1) → keeps rely Q (lift m).
Proof. intros Hm s Hs. apply wp_lift. by apply Hm. Qed.

Lemma keeps_await rely (Q : State → Prop) q :
  (∀ s s', rely q s s' → Q s → Q s') → keeps rely Q (await q).
Proof. intros Hr s Hs. apply wp_await. intros s' Hrely. split; intros; by eapply Hr. Qed.

Lemma keeps_abind {A B} rely Q (m : Async A) (f : A → Async B) :
  keeps rely Q m → (∀ a, keeps rely Q (f a)) → keeps rely Q (abind m f).
Proof.
  intros Hm Hf s Hs. apply wp_abind. eapply wp_mono; [|by apply Hm].
  intros s' [a|e] Hs'; [by apply Hf | done].
Qed.

Lemma keeps_the_bus rely Q : keeps rely Q (lift the_bus).
Proof. apply keeps_lift. intros s Hs. unfold the_bus, bind, get. simpl. by destruct (_bus s). Qed.

Lemma keeps_assert_reply rely Q reply : keeps rely Q (lift (assert_reply reply)).
Proof. apply keeps_lift. intros s Hs. by destruct reply. Qed.

Lemma keeps_bus_call rely (Q : State → Prop) msg :
  (∀ q s s', rely q s s' → Q s → Q s') → keeps rely Q (bus_call msg).
Proof.
  intros Hr. unfold bus_call. apply keeps_abind; [apply keeps_the_bus|].
  intros bus. apply keeps_await. apply Hr.
Qed.

Lemma registered_kept c d s1 q s s' :
  registrations_kept q s s' → registered c d s1 s → registered c d s1 s'.
Proof. intros [Ha Hr] [Ha' Hr']. split; congruence. Qed.

(** A failed [try] block that kept the registrations is rolled back. *)
Lemma wp_rollback {A} (body : Async A) c d s1 s :
  keeps registrations_kept (registered c d s1) body →
  registered c d s1 s →
  wp registrations_kept
    (try_except body (lift (unregister_callbacks c d)) s)
    (λ sf res, match res with
               | Err _ => rolled_back c d s1 sf
               | Ok _ => True
               end).
Proof.
  intros Hbody Hs. apply wp_try_except. eapply wp_mono; [|by apply Hbody].
  intros s' [a|e] [Ha Hr]; [done|]. apply wp_lift.
  destruct (unregister_registered c d s' _ _ Ha Hr) as (l' & m' & -> & Hl & Hm & Hlf & Hmf).
  simpl. by repeat split.
Qed.

Lemma active_scan_rolls_back adapter filters cb1 cb2 s0 r s1 :
  wp registrations_kept (resume (active_scan adapter filters cb1 cb2 s0) (Returned r) s1)
    (λ sf res, match res with
               | Err _ => rolled_back {| callback := cb1; adapter_path := adapter |}
                            {| removed_callback := cb2; removed_adapter_path := adapter |} s1 sf
               | Ok _ => True
               end).
Proof.
  unfold active_scan. apply wp_locked. apply wp_abind, wp_lift. simpl.
  case_decide; [|apply rolled_back_refl].
  apply wp_abind, wp_lift. simpl. apply wp_rollback; [|done].
  apply keeps_abind; [apply keeps_bus_call, registered_kept|]. intros reply.
  apply keeps_abind; [apply keeps_assert_reply|]. intros _.
  apply keeps_abind; [apply keeps_bus_call, registered_kept|]. intros reply'.
  apply keeps_abind; [apply keeps_assert_reply|]. intros _. apply keeps_aret.
Qed.

Lemma passive_scan_rolls_back `{Process} adapter patterns cb1 cb2 s0 r s1 :
  wp registrations_kept (resume (passive_scan adapter patterns cb1 cb2 s0) (Returned r) s1)
    (λ sf res, match res with
               | Err _ => rolled_back {| callback := cb1; adapter_path := adapter |}
                            {| removed_callback := cb2; removed_adapter_path := adapter |} s1 sf
               | Ok _ => True
               end).
Proof.
  unfold passive_scan. apply wp_locked. apply wp_abind, wp_lift. simpl.
  case_decide; [|apply rolled_back_refl].
  apply wp_abind, wp_lift. simpl. apply wp_rollback; [|done].
  apply keeps_abind.
  { apply keeps_lift. intros s [Ha Hr]. by split. }
  intros monitor.
  apply keeps_abind; [apply keeps_bus_call, registered_kept|]. intros reply.
  apply keeps_abind.
  { destruct reply as [body|name]; [apply keeps_aret|].
    case_decide; [apply keeps_araise | apply keeps_aret]. }
  intros _. apply keeps_abind; [apply keeps_assert_reply|]. intros _.
  apply keeps_abind; [apply keeps_the_bus|]. intros bus.
  apply keeps_abind; [apply keeps_perform|]. intros _. apply keeps_aret.
Qed.

(** C4, as it holds: when a scan fails after it has acquired the lock,
    whatever the reason, the two registration lists hold the entries
    they held before, each as often as before; they are exactly the
    lists as before when the registration was not in them already. (A
    registration equal to the new one is removed in its place
    otherwise, and the order changes.) *)
Theorem failed_scan_rolls_back `{Process} adapter filters patterns cb1 cb2 s0 r s1 sf e :
  finishes registrations_kept
    (resume (active_scan adapter filters cb1 cb2 s0) (Returned r) s1) sf (Err e) ∨
  finishes registrations_kept
    (resume (passive_scan adapter patterns cb1 cb2 s0) (Returned r) s1) sf (Err e) →
  rolled_back {| callback := cb1; adapter_path := adapter |}
    {| removed_callback := cb2; removed_adapter_path := adapter |} s1 sf.
Proof.
  intros [Hfin|Hfin].
  - apply (wp_finishes _ _ _ _ _ (active_scan_rolls_back _ _ _ _ _ _ _) Hfin).
  - apply (wp_finishes _ _ _ _ _ (passive_scan_rolls_back _ _ _ _ _ _ _) Hfin).
Qed.

Lemma finishes_outcome {A} rely (c : Coro A) sf r :
  outcome c = Some (sf, r) → finishes rely c sf r.
Proof.
  induction c as [s r'|a k IH|q s k IH]; simpl; [|apply IH|done].
  by intros [= -> ->].
Qed.

Lemma registrations_kept_refl q s : registrations_kept q s s.
Proof. by split. Qed.

(** The theorem at work: a third scanner that is refused leaves the two
    lists as it found them. *)
Lemma failed_scan_rolls_back_witness :
  (finishes registrations_kept
     (resume (active_scan adapter0 ∅ 3%nat 13%nat scanning0) (Returned (MethodReturn [])) scanning0)
     after_third_start (Err (BleakDBusError "org.bluez.Error.InProgress")) ∨
   finishes registrations_kept
     (resume (@passive_scan process0 adapter0 [] 3%nat 13%nat scanning0)
        (Returned (MethodReturn [])) scanning0)
     after_third_start (Err (BleakDBusError "org.bluez.Error.InProgress"))) ∧
  rolled_back {| callback := 3%nat; adapter_path := adapter0 |}
    {| removed_callback := 13%nat; removed_adapter_path := adapter0 |}
    scanning0 after_third_start.
Proof.
  assert (Hfin : finishes registrations_kept
     (resume (active_scan adapter0 ∅ 3%nat 13%nat scanning0) (Returned (MethodReturn [])) scanning0)
     after_third_start (Err (BleakDBusError "org.bluez.Error.InProgress"))).
  { apply (finishes_grant _ _ ok _ _ registrations_kept_refl).
    apply (finishes_grant _ _ in_progress _ _ registrations_kept_refl).
    apply finishes_outcome. vm_compute. reflexivity. }
  split; [by left|].
  exact (@failed_scan_rolls_back process0 adapter0 ∅ [] 3%nat 13%nat scanning0
           (MethodReturn []) scanning0 after_third_start _ (or_introl Hfin)).
Defined.

(** C4, as claimed, fails: a scanner that is started a second time and
    refused leaves the two lists in another order than it found them. *)
Lemma rollback_reorders : ¬ restores_exactly (active_scan adapter0 ∅ 1%nat 11%nat).
Proof.
  intros Hall.
  assert (Hfin : finishes registrations_kept
     (resume (active_scan adapter0 ∅ 1%nat 11%nat scanning0) (Returned (MethodReturn [])) scanning0)
     after_second_start (Err (BleakDBusError "org.bluez.Error.InProgress"))).
  { apply (finishes_grant _ _ ok _ _ registrations_kept_refl).
    apply (finishes_grant _ _ in_progress _ _ registrations_kept_refl).
    apply finishes_outcome. vm_compute. reflexivity. }
  apply Hall in Hfin as [Hadv _].
  assert (E : _advertisement_callbacks after_second_start = [registration2; registration1]).
  { vm_compute. reflexivity. }
  rewrite E in Hadv. discriminate Hadv.
Qed.

(** ** The errors of a coroutine *)

Lemma fails_with_aret {A} rely E (a : A) : fails_with rely E (aret a).
Proof. by intros s. Qed.

Lemma fails_with_araise {A} rely (E : Exn → Prop) e : E e → fails_with rely E (@araise A e).
Proof. by intros He s. Qed.

Lemma fails_with_perform rely E a : fails_with rely E (perform a).
Proof. by intros s. Qed.

Lemma fails_with_lift {A} rely (E : Exn → Prop) (m : Sync A) :
  (∀ s e, (m s).2 = Err e → E e) → fails_with rely E (lift m).
Proof.
  intros Hm s. apply wp_lift. specialize (Hm s).
  destruct (m s).2 as [a|e]; [done | by apply Hm].
Qed.

Lemma fails_with_await rely (E : Exn → Prop) q :
  (∀ name, E (External name)) → fails_with rely E (await q).
Proof. intros HE s. apply wp_await. intros s' _. by split. Qed.

Lemma fails_with_abind {A B} rely E (m : Async A) (f : A → Async B) :
  fails_with rely E m → (∀ a, fails_with rely E (f a)) → fails_with rely E (abind m f).
Proof.
  intros Hm Hf s. apply wp_abind. eapply wp_mono; [|by apply Hm].
  intros s' [a|e] He; [by apply Hf | done].
Qed.

Lemma fails_with_try_except {A} rely E (body : Async A) handler :
  fails_with rely E body → fails_with rely E handler →
  fails_with rely E (try_except body handler).
Proof.
  intros Hb Hh s. apply wp_try_except. eapply wp_mono; [|by apply Hb].
  intros s' [a|e] He; [done|]. eapply wp_mono; [|by apply Hh].
  by intros s'' [[]|e'].
Qed.

Lemma not_found_is_bleak_error e :
  is_adapter_not_found e → ∃ msg, e = BleakError (String "a" msg).
Proof. intros [p ->]. by eexists. Qed.

Lemma other_error_intro e :
  (∀ msg, e ≠ BleakError (String "a" msg)) → other_error e.
Proof. intros He Hnf. apply not_found_is_bleak_error in Hnf as [msg ->]. by eapply He. Qed.

Lemma fails_with_the_bus rely : fails_with rely other_error (lift the_bus).
Proof.
  apply fails_with_lift. intros s e. unfold the_bus, bind, get. simpl.
  destruct (_bus s); simpl; intros [= <-]. by apply other_error_intro.
Qed.

Lemma fails_with_assert_reply rely reply :
  fails_with rely other_error (lift (assert_reply reply)).
Proof.
  apply fails_with_lift. intros s e. destruct reply; simpl; intros [= <-].
  by apply other_error_intro.
Qed.

Lemma fails_with_bus_call rely msg : fails_with rely other_error (bus_call msg).
Proof.
  unfold bus_call. apply fails_with_abind; [apply fails_with_the_bus|]. intros bus.
  apply fails_with_await. intros name. by apply other_error_intro.
Qed.

Lemma fails_with_unregister rely c d :
  fails_with rely other_error (lift (unregister_callbacks c d)).
Proof.
  apply fails_with_lift. intros s e.
  unfold unregister_callbacks, remove_advertisement_callback,
    remove_device_removed_callback, bind, get, modify. simpl.
  destruct (remove_first c _); simpl; [|intros [= <-]; by apply other_error_intro].
  destruct (remove_first d _); simpl; intros [= <-]; by apply other_error_intro.
Qed.

Lemma active_scan_other_errors adapter filters cb1 cb2 s0 r s1 :
  is_Some (_properties s1 !! adapter) →
  wp any_interference (resume (active_scan adapter filters cb1 cb2 s0) (Returned r) s1)
    (λ _ res, match res with Err e => other_error e | Ok _ => True end).
Proof.
  intros Hin. unfold active_scan. apply wp_locked. apply wp_abind, wp_lift. simpl.
  rewrite decide_True by done.
  apply wp_abind, wp_lift. simpl. apply fails_with_try_except.
  - apply fails_with_abind; [apply fails_with_bus_call|]. intros reply.
    apply fails_with_abind; [apply fails_with_assert_reply|]. intros _.
    apply fails_with_abind; [apply fails_with_bus_call|]. intros reply'.
    apply fails_with_abind; [apply fails_with_assert_reply|]. intros _.
    apply fails_with_aret.
  - apply fails_with_unregister.
Qed.

Lemma passive_scan_other_errors `{Process} adapter patterns cb1 cb2 s0 r s1 :
  is_Some (_properties s1 !! adapter) →
  wp any_interference (resume (passive_scan adapter patterns cb1 cb2 s0) (Returned r) s1)
    (λ _ res, match res with Err e => other_error e | Ok _ => True end).
Proof.
  intros Hin. unfold passive_scan. apply wp_locked. apply wp_abind, wp_lift. simpl.
  rewrite decide_True by done.
  apply wp_abind, wp_lift. simpl. apply fails_with_try_except.
  - apply fails_with_abind; [by apply fails_with_lift|]. intros monitor.
    apply fails_with_abind; [apply fails_with_bus_call|]. intros reply.
    apply fails_with_abind.
    { destruct reply as [body|name]; [apply fails_with_aret|].
      case_decide; [|apply fails_with_aret].
      apply fails_with_araise. by apply other_error_intro. }
    intros _. apply fails_with_abind; [apply fails_with_assert_reply|]. intros _.
    apply fails_with_abind; [apply fails_with_the_bus|]. intros bus.
    apply fails_with_abind; [apply fails_with_perform|]. intros _. apply fails_with_aret.
  - apply fails_with_unregister.
Qed.

Lemma scan_without_adapter `{Process} adapter filters patterns cb1 cb2 s0 r s1 :
  _properties s1 !! adapter = None →
  resume (active_scan adapter filters cb1 cb2 s0) (Returned r) s1 =
    Do ReleaseLock (Done s1 (Err (adapter_not_found adapter))) ∧
  resume (passive_scan adapter patterns cb1 cb2 s0) (Returned r) s1 =
    Do ReleaseLock (Done s1 (Err (adapter_not_found adapter))).
Proof.
  intros Hnone. unfold active_scan, passive_scan. rewrite !resume_with_bus_lock.
  unfold abind, lift, get. simpl.
  rewrite !decide_False by (rewrite Hnone; by intros [? ?]). done.
Qed.

(** C7: a scan that has acquired the lock in state [s1] can raise the
    error of a missing adapter exactly when the adapter path has no
    entry in the Property Table of [s1]; it then ends at once, in [s1]
    itself, having registered nothing and awaited nothing. *)
Theorem adapter_not_found_iff `{Process} adapter filters patterns cb1 cb2 s0 r s1 :
  (raises_adapter_not_found
     (resume (active_scan adapter filters cb1 cb2 s0) (Returned r) s1) ↔
   _properties s1 !! adapter = None) ∧
  (raises_adapter_not_found
     (resume (passive_scan adapter patterns cb1 cb2 s0) (Returned r) s1) ↔
   _properties s1 !! adapter = None) ∧
  (_properties s1 !! adapter = None →
   resume (active_scan adapter filters cb1 cb2 s0) (Returned r) s1 =
     Do ReleaseLock (Done s1 (Err (adapter_not_found adapter))) ∧
   resume (passive_scan adapter patterns cb1 cb2 s0) (Returned r) s1 =
     Do ReleaseLock (Done s1 (Err (adapter_not_found adapter)))).
Proof.
  split; [|split].
  - split.
    + intros (sf & e & Hfin & Hnf). destruct (_properties s1 !! adapter) eqn:Hin; [|done].
      exfalso.
      apply (wp_finishes _ _ _ _ _
               (active_scan_other_errors adapter filters cb1 cb2 s0 r s1 (mk_is_Some _ _ Hin)) Hfin).
      done.
    + intros Hnone.
      destruct (scan_without_adapter adapter filters patterns cb1 cb2 s0 r s1 Hnone) as [-> _].
      exists s1, (adapter_not_found adapter). split; [done | by exists adapter].
  - split.
    + intros (sf & e & Hfin & Hnf). destruct (_properties s1 !! adapter) eqn:Hin; [|done].
      exfalso.
      apply (wp_finishes _ _ _ _ _
               (passive_scan_other_errors adapter patterns cb1 cb2 s0 r s1 (mk_is_Some _ _ Hin)) Hfin).
      done.
    + intros Hnone.
      destruct (scan_without_adapter adapter filters patterns cb1 cb2 s0 r s1 Hnone) as [_ ->].
      exists s1, (adapter_not_found adapter). split; [done | by exists adapter].
  - apply scan_without_adapter.
Qed.

(** C6: when [async_init] has acquired the lock and finds the bus
    connected, it releases the lock and returns: it ends in the state it
    found, it connects no bus and awaits nothing. *)
Theorem async_init_connected_noop s0 r s1 :
  bus_is_connected s1 = true →
  pending (async_init s0) = Some (AcquireLock, s0) ∧
  resume (async_init s0) (Returned r) s1 = Do ReleaseLock (Done s1 (Ok tt)).
Proof.
  intros Hc. split; [done|].
  unfold async_init. rewrite resume_with_bus_lock.
  unfold abind, lift, get. simpl. by rewrite Hc.
Qed.

(** The theorem at work, on a connected manager. *)
Lemma async_init_connected_noop_witness :
  bus_is_connected connected0 = true ∧
  pending (async_init connected0) = Some (AcquireLock, connected0) ∧
  resume (async_init connected0) (Returned (MethodReturn [])) connected0 =
    Do ReleaseLock (Done connected0 (Ok tt)).
Proof.
  assert (Hc : bus_is_connected connected0 = true) by (vm_compute; reflexivity).
  split; [exact Hc|].
  exact (async_init_connected_noop connected0 (MethodReturn []) connected0 Hc).
Defined.


(** ** [_wait_condition] *)

Lemma device_property_run d p s :
  ∃ r, device_property d p s = (s, r) ∧
    match property_at (_properties s) d DEVICE_INTERFACE p with
    | Some v => r = Ok v
    | None => ∃ key, r = Err (KeyError key)
    end.
Proof.
  unfold device_property, property_at, interface_at, bind, get, getitem. simpl.
  destruct (_properties s !! d) as [ifaces|]; simpl; [|by eauto].
  destruct (ifaces !! DEVICE_INTERFACE) as [props|]; simpl; [|by eauto].
  destruct (props !! p); simpl; by eauto.
Qed.

Lemma is_registered_filter cc l :
  is_registered cc (filter (λ c, cc_id c ≠ cc_id cc) l) = false.
Proof.
  unfold is_registered. apply bool_decide_eq_false. intros Hin.
  apply list_elem_of_fmap in Hin as (c & Hid & Hc).
  apply list_elem_of_filter in Hc as [Hne _]. by apply Hne.
Qed.

Lemma remove_condition_callback_run cc s :
  ∃ sf r, remove_condition_callback cc s = (sf, r) ∧
    is_registered cc (_condition_callbacks sf) = false ∧
    (∀ c, cc_id c ≠ cc_id cc →
       c ∈ _condition_callbacks sf ↔ c ∈ _condition_callbacks s) ∧
    sf = set_condition_callbacks (_condition_callbacks sf) s.
Proof.
  unfold remove_condition_callback, bind, get, modify. simpl.
  destruct (is_registered cc (_condition_callbacks s)) eqn:Hreg; simpl.
  - eexists _, _. split; [done|]. simpl. split; [apply is_registered_filter|].
    split; [|done]. intros c Hne. rewrite list_elem_of_filter. tauto.
  - eexists _, _. split; [done|]. split; [done|]. split; [done|]. by destruct s.
Qed.

Lemma wait_condition_missing d p v s :
  property_at (_properties s) d DEVICE_INTERFACE p = None →
  ∃ key, _wait_condition d p v s = Done s (Err (KeyError key)).
Proof.
  intros Hp. unfold _wait_condition, abind, lift.
  destruct (device_property_run d p s) as (r0 & -> & Hr0).
  rewrite Hp in Hr0. destruct Hr0 as [key ->]. by exists key.
Qed.

Lemma wait_condition_immediate d p v s current :
  property_at (_properties s) d DEVICE_INTERFACE p = Some current →
  py_eq current v = true →
  _wait_condition d p v s = Done s (Ok tt).
Proof.
  intros Hp Hv. unfold _wait_condition, abind, lift.
  destruct (device_property_run d p s) as (r0 & -> & Hr0).
  rewrite Hp in Hr0. subst r0. simpl. by rewrite Hv.
Qed.

(** The suspended form of [_wait_condition]. *)
Lemma wait_condition_suspends d p v s current :
  property_at (_properties s) d DEVICE_INTERFACE p = Some current →
  py_eq current v = false →
  ∃ s_reg k,
    _wait_condition d p v s = Await (EventWait (next_id s)) s_reg k ∧
    (next_id s ∉ events s_reg) ∧
    _condition_callbacks s_reg =
      (if is_registered (closure_of s d p v) (_condition_callbacks s)
       then _condition_callbacks s
       else _condition_callbacks s ++ [closure_of s d p v]) ∧
    ∀ ans s',
      k ans s' =
      (let '(sf, r) := remove_condition_callback (closure_of s d p v) s' in
       Done sf (match r with
                | Ok _ => match ans with
                          | Returned _ => Ok tt
                          | Thrown name => Err (External name)
                          end
                | Err e => Err e
                end)).
Proof.
  intros Hp Hv. unfold _wait_condition, abind, lift.
  destruct (device_property_run d p s) as (r0 & -> & Hr0).
  rewrite Hp in Hr0. subst r0. simpl. rewrite Hv. simpl.
  unfold try_finally, add_condition_callback, modify. simpl.
  fold (closure_of s d p v).
  eexists _, _. split; [done|]. split; [|split].
  - destruct (is_registered _ _); simpl; rewrite elem_of_difference, elem_of_singleton; tauto.
  - by destruct (is_registered _ _).
  - intros [reply|name] s'; simpl;
      by destruct (remove_condition_callback (closure_of s d p v) s') as [sf [[]|e]].
Qed.


(** C8: [_wait_condition] returns at once when the property already
    equals the value, and raises without registering anything when the
    property is missing. Otherwise it registers a closure and suspends;
    however the wait ends, by a wake-up or by an exception thrown into
    it, the call ends with that closure no longer registered and all
    other closures as they were. *)
Theorem wait_condition_releases device_path property_name property_value s :
  match property_at (_properties s) device_path DEVICE_INTERFACE property_name with
  | None =>
      ∃ key, _wait_condition device_path property_name property_value s =
             Done s (Err (KeyError key))
  | Some current =>
      if py_eq current property_value
      then _wait_condition device_path property_name property_value s = Done s (Ok tt)
      else
        ∃ s_reg k,
          _wait_condition device_path property_name property_value s =
            Await (EventWait (next_id s)) s_reg k ∧
          is_registered (closure_of s device_path property_name property_value)
            (_condition_callbacks s_reg) = true ∧
          ∀ ans s', ∃ sf r,
            k ans s' = Done sf r ∧
            is_registered (closure_of s device_path property_name property_value)
              (_condition_callbacks sf) = false ∧
            (∀ cc, cc_id cc ≠ S (next_id s) →
               cc ∈ _condition_callbacks sf ↔ cc ∈ _condition_callbacks s')
  end.
Proof.
  destruct (property_at _ _ _ _) as [current|] eqn:Hp;
    [|by apply wait_condition_missing].
  destruct (py_eq current property_value) eqn:Hv;
    [by eapply wait_condition_immediate|].
  destruct (wait_condition_suspends _ _ _ _ _ Hp Hv) as (s_reg & k & Hrun & _ & Hreg & Hk).
  exists s_reg, k. split; [done|]. split.
  - rewrite Hreg.
    destruct (is_registered _ (_condition_callbacks s)) eqn:Hin; [done|].
    unfold is_registered. apply bool_decide_eq_true.
    rewrite fmap_app. apply elem_of_app. right. by left.
  - intros ans s'. rewrite Hk.
    destruct (remove_condition_callback_run
                (closure_of s device_path property_name property_value) s')
      as (sf & r & -> & Hgone & Hothers & _).
    eexists _, _. by split.
Qed.

(** ** Building the snapshot *)

Lemma reads_ret {A} (a : A) (P : A → Prop) : P a → reads (ret a) P.
Proof. by intros Ha s. Qed.

Lemma reads_get : reads get (λ _, True).
Proof. by intros s. Qed.

Lemma reads_getitem {V} (d : gmap string V) k : reads (getitem d k) (λ _, True).
Proof. intros s. unfold getitem. by destruct (d !! k). Qed.

Lemma reads_bind {A B} (m : Sync A) (f : A → Sync B) P Q :
  reads m P → (∀ a, P a → reads (f a) Q) → reads (bind m f) Q.
Proof.
  intros Hm Hf s. unfold bind. destruct (Hm s) as [Hs Hr].
  destruct (m s) as [s' [a|e]]; simpl in *; subst; [by apply Hf | done].
Qed.

Lemma reads_object_props path interface : reads (object_props path interface) (λ _, True).
Proof.
  unfold object_props. eapply reads_bind; [apply reads_get|]. intros s _.
  eapply reads_bind; [apply reads_getitem|]. intros ifaces _. apply reads_getitem.
Qed.

Lemma reads_py_sub v : reads (py_sub v 3) (λ size,
  match v with
  | VInt n => size = n - 3
  | VBool b => size = bool_to_Z b - 3
  | _ => False
  end).
Proof. intros s. by destruct v. Qed.

Lemma reads_build_descriptors `{GattObjects} char desc_paths : ∀ services,
  payloads_from_mtu services →
  reads (build_descriptors char desc_paths services) payloads_from_mtu.
Proof.
  induction desc_paths as [|p ps IH]; intros services Hs; simpl; [by apply reads_ret|].
  eapply reads_bind; [apply reads_object_props|]. intros props _. by apply IH.
Qed.

Lemma payload_of_props props size :
  match default (VInt 23) (props !! "MTU") with
  | VInt n => size = n - 3
  | VBool b => size = bool_to_Z b - 3
  | _ => False
  end →
  ∃ mtu, mtu_of props = Some mtu ∧ size = mtu - 3.
Proof.
  unfold mtu_of. destruct (props !! "MTU") as [[]|]; simpl; try done; by eauto.
Qed.

Lemma reads_build_characteristics `{GattObjects} service char_paths : ∀ services,
  payloads_from_mtu services →
  reads (build_characteristics service char_paths services) payloads_from_mtu.
Proof.
  induction char_paths as [|p ps IH]; intros services Hs; simpl; [by apply reads_ret|].
  eapply reads_bind; [apply reads_object_props|]. intros props _.
  eapply reads_bind; [apply reads_py_sub|]. intros size Hsize.
  eapply reads_bind; [apply reads_get|]. intros s _.
  eapply reads_bind; [|intros services' Hs'; by apply IH].
  apply reads_build_descriptors. unfold payloads_from_mtu. simpl.
  apply Forall_app. split; [done|]. apply Forall_singleton.
  by apply payload_of_props.
Qed.

Lemma reads_build_services `{GattObjects} service_paths : ∀ services,
  payloads_from_mtu services →
  reads (build_services service_paths services) payloads_from_mtu.
Proof.
  induction service_paths as [|p ps IH]; intros services Hs; simpl; [by apply reads_ret|].
  eapply reads_bind; [apply reads_object_props|]. intros props _.
  eapply reads_bind; [apply reads_get|]. intros s _.
  eapply reads_bind; [|intros services' Hs'; by apply IH].
  by apply reads_build_characteristics.
Qed.

Lemma get_services_cached `{GattObjects} device_path services s :
  _services_cache s !! device_path = Some services →
  get_services device_path true s = Done s (Ok services).
Proof. intros Hc. unfold get_services, abind, lift, get. simpl. by rewrite Hc. Qed.

(** What [build_snapshot] does, from any state. *)
Lemma build_snapshot_run `{GattObjects} device_path s :
  ∃ sf r, build_snapshot device_path s = Done sf r ∧
    answered device_path sf r ∧
    match r with Ok services => payloads_from_mtu services | Err _ => True end.
Proof.
  unfold build_snapshot, abind, lift, get, fresh, bind, modify. simpl.
  destruct (reads_build_services (children (_service_map s) device_path)
              {| coll_id := next_id s; coll_services := [];
                 coll_characteristics := []; coll_descriptors := [] |}
              (Forall_nil_2 _) (set_next_id (S (next_id s)) s)) as [Hs Hr].
  destruct (build_services _ _ _) as [s' [services|e]]; simpl in *.
  - eexists _, _. split; [done|]. split; [|done]. split.
    + simpl. apply lookup_insert_eq.
    + apply get_services_cached. simpl. apply lookup_insert_eq.
  - by eexists _, _.
Qed.

Lemma wp_done {A} rely (c : Coro A) (Post : State → Result A → Prop) sf r :
  c = Done sf r → Post sf r → wp rely c Post.
Proof. by intros ->. Qed.

Lemma wp_build_snapshot `{GattObjects} rely device_path s :
  wp rely (build_snapshot device_path s)
    (λ _ r, match r with Ok services => payloads_from_mtu services | Err _ => True end).
Proof.
  destruct (build_snapshot_run device_path s) as (sf & r & Hrun & _ & Hp).
  by eapply wp_done.
Qed.

Lemma wp_any {A} rely (c : Coro A) (Post : State → Result A → Prop) :
  (∀ s r, Post s r) → wp rely c Post.
Proof.
  intros HP. induction c as [s r|a k IH|q s k IH]; simpl; [done|done|].
  intros ans s' _. apply IH.
Qed.

(** C9: every characteristic handle of a snapshot that [get_services]
    builds has as payload size the MTU of its properties minus 3, the
    MTU being the ["MTU"] property, or 23 where the properties have
    none: 20 then. *)
Theorem characteristic_payload_size `{GattObjects} rely device_path (use_cached : bool)
    s sf services c :
  (if use_cached then _services_cache s !! device_path else None) = None →
  finishes rely (get_services device_path use_cached s) sf (Ok services) →
  c ∈ coll_characteristics services →
  (∃ mtu, mtu_of (chr_obj c) = Some mtu ∧ max_write_without_response_size c = mtu - 3) ∧
  (chr_obj c !! "MTU" = None → max_write_without_response_size c = 20).
Proof.
  intros Hc Hfin Hin.
  assert (Hwp : wp rely (get_services device_path use_cached s)
            (λ _ r, match r with Ok services => payloads_from_mtu services | Err _ => True end)).
  { unfold get_services. apply wp_abind, wp_lift. simpl. rewrite Hc.
    apply wp_abind. apply wp_any. intros s' [[]|e]; [|done]. apply wp_build_snapshot. }
  pose proof (wp_finishes _ _ _ _ _ Hwp Hfin) as Hall. simpl in Hall.
  unfold payloads_from_mtu in Hall. rewrite Forall_forall in Hall.
  destruct (Hall c Hin) as (mtu & Hmtu & Hsize). split; [by exists mtu|].
  intros Hnone. unfold mtu_of in Hmtu. rewrite Hnone in Hmtu. simplify_eq. lia.
Qed.

(** ** When an event is set *)














(** ** [get_services] *)

Lemma get_services_uncached `{GattObjects} device_path (use_cached : bool) s :
  (if use_cached then _services_cache s !! device_path else None) = None →
  get_services device_path use_cached s =
  on_exit (_wait_condition device_path "ServicesResolved" (VBool true) s)
    (λ s' r, match r with
             | Ok _ => build_snapshot device_path s'
             | Err e => Done s' (Err e)
             end).
Proof. intros Hc. unfold get_services. unfold abind at 1, lift at 1. simpl. by rewrite Hc. Qed.


(** The theorem at work: an MTU of 247 gives a payload of 244. *)
Lemma characteristic_payload_size_witness :
  (if false then _services_cache resolved0 !! device0 else None) = None ∧
  finishes any_interference (@get_services plain_handles device0 false resolved0)
    snapshot_state0 (Ok snapshot0) ∧
  char_handle0 ∈ coll_characteristics snapshot0 ∧
  (∃ mtu, mtu_of (chr_obj char_handle0) = Some mtu ∧
          max_write_without_response_size char_handle0 = mtu - 3) ∧
  (chr_obj char_handle0 !! "MTU" = None →
   max_write_without_response_size char_handle0 = 20).
Proof.
  assert (Hfin : finishes any_interference
            (@get_services plain_handles device0 false resolved0)
            snapshot_state0 (Ok snapshot0)).
  { apply finishes_outcome. vm_compute. reflexivity. }
  assert (Hin : char_handle0 ∈ coll_characteristics snapshot0).
  { assert (E : coll_characteristics snapshot0 = [char_handle0])
      by (vm_compute; reflexivity).
    rewrite E. left. }
  split; [reflexivity|]. split; [exact Hfin|]. split; [exact Hin|].
  exact (@characteristic_payload_size plain_handles any_interference device0 false
           resolved0 snapshot_state0 snapshot0 char_handle0 eq_refl Hfin Hin).
Defined.

(** ** The scanner's constructor *)

(** C10: constructing a scanner for passive scanning with no
    [or_patterns] entry in the [bluez] argument raises [BleakError];
    the constructor calls nothing of the manager. *)
Theorem passive_scanner_requires_or_patterns `{Scanner.BaseBleakScanner}
    detection_callback service_uuids bluez kwargs :
  Scanner.or_patterns bluez = None →
  Scanner.__init__ detection_callback service_uuids "passive" bluez kwargs =
    Err (BleakError "passive scanning mode requires bluez or_patterns").
Proof. intros Hnone. unfold Scanner.__init__. simpl. by rewrite Hnone. Qed.

(** The theorem at work, on a scanner given no arguments but the mode. *)
Lemma passive_scanner_requires_or_patterns_witness :
  Scanner.or_patterns no_bluez_args = None ∧
  @Scanner.__init__ plain_base None None "passive" no_bluez_args no_kwargs =
    Err (BleakError "passive scanning mode requires bluez or_patterns").
Proof.
  split; [reflexivity|].
  exact (@passive_scanner_requires_or_patterns plain_base None None
           no_bluez_args no_kwargs eq_refl).
Defined.

(** ** Device watchers *)

Lemma filter_not_elem {A} `{EqDecision A} (x : A) (l : list A) :
  x ∉ l → filter (λ y, y ≠ x) l = l.
Proof.
  induction l as [|y l IH]; [done|]. intros Hx.
  apply not_elem_of_cons in Hx as [Hne Hx].
  rewrite filter_cons_True by done. by rewrite IH.
Qed.

Lemma set_device_watchers_same s : set_device_watchers (_device_watchers s) s = s.
Proof. by destruct s. Qed.

Lemma set_device_watchers_twice l l' s :
  set_device_watchers l (set_device_watchers l' s) = set_device_watchers l s.
Proof. done. Qed.

(** X1: [add_device_watcher] hands back the watcher it registered, and
    [remove_device_watcher] on it undoes the registration: a watcher
    that was not registered before leaves the manager exactly as it
    was. Watchers are compared by value, so registering an equal triple
    again changes nothing, and removing a watcher that is not registered
    (for instance, a second time) raises [KeyError] and changes
    nothing. *)
Theorem device_watcher_round_trip device_path on_connected on_value s :
  let watcher := {| device_path := device_path; on_connected_changed := on_connected;
                    on_characteristic_value_changed := on_value |} in
  let s1 := (add_device_watcher device_path on_connected on_value s).1 in
  let s2 := (remove_device_watcher watcher s1).1 in
  (add_device_watcher device_path on_connected on_value s).2 = Ok watcher ∧
  watcher ∈ _device_watchers s1 ∧
  (watcher ∈ _device_watchers s → s1 = s) ∧
  (remove_device_watcher watcher s1).2 = Ok tt ∧
  (watcher ∉ _device_watchers s2) ∧
  (watcher ∉ _device_watchers s → s2 = s) ∧
  remove_device_watcher watcher s2 = (s2, Err (KeyError device_path)).
Proof.
  intros watcher s1 s2.
  assert (Hs1 : s1 = if decide (watcher ∈ _device_watchers s) then s
                     else set_device_watchers (_device_watchers s ++ [watcher]) s) by done.
  assert (Hin : watcher ∈ _device_watchers s1).
  { rewrite Hs1. case_decide; [done|]. simpl. apply elem_of_app. right. by left. }
  assert (Hrem : remove_device_watcher watcher s1 =
                 (set_device_watchers (filter (λ w, w ≠ watcher) (_device_watchers s1)) s1,
                  Ok tt)).
  { unfold remove_device_watcher, bind, get, modify. simpl. by rewrite decide_True. }
  assert (Hs2 : s2 = set_device_watchers (filter (λ w, w ≠ watcher) (_device_watchers s1)) s1).
  { unfold s2. by rewrite Hrem. }
  assert (Hout : watcher ∉ _device_watchers s2).
  { rewrite Hs2. simpl. intros Hw. apply list_elem_of_filter in Hw as [Hne _]. by apply Hne. }
  split; [done|]. split; [done|]. split.
  { intros Hw. rewrite Hs1. by rewrite decide_True. }
  split; [by rewrite Hrem|]. split; [done|]. split.
  - intros Hw. rewrite Hs2, Hs1. rewrite decide_False by done. simpl.
    rewrite filter_app, (filter_not_elem _ _ Hw). simpl.
    rewrite filter_cons_False, filter_nil by (by intros H; apply H).
    rewrite app_nil_r. by destruct s.
  - unfold remove_device_watcher, bind, get. simpl. by rewrite decide_False.
Qed.

(** ** [is_connected] and [get_device_name] *)

(** X2: [is_connected] never raises and never changes the manager: it
    answers with the stored ["Connected"] value, and with [False] when
    the device, its device interface or the property is missing.
    [get_device_name] reads ["Name"] the same way but lets the
    [KeyError] of a missing entry out. *)
Theorem is_connected_defaults_to_false device_path s :
  is_connected device_path s =
    (s, Ok (default (VBool false)
              (property_at (_properties s) device_path DEVICE_INTERFACE "Connected"))) ∧
  match property_at (_properties s) device_path DEVICE_INTERFACE "Name" with
  | Some name => get_device_name device_path s = (s, Ok name)
  | None => ∃ key, get_device_name device_path s = (s, Err (KeyError key))
  end.
Proof.
  split.
  - unfold is_connected.
    destruct (device_property_run device_path "Connected" s) as (r & -> & Hr).
    destruct (property_at _ _ _ _) as [v|]; simpl.
    + by subst r.
    + by destruct Hr as [key ->].
  - unfold get_device_name.
    destruct (device_property_run device_path "Name" s) as (r & -> & Hr).
    destruct (property_at _ _ _ _) as [v|]; [by subst r|].
    destruct Hr as [key ->]. by exists key.
Qed.

(** ** The Property Table under [PropertiesChanged] *)

Lemma interface_at_set_self path i d s :
  interface_at (_properties (set_self_interface path i d s)) path i = Some d.
Proof.
  unfold interface_at, set_self_interface. simpl.
  rewrite lookup_insert_eq. simpl. by rewrite lookup_insert_eq.
Qed.

Lemma interface_at_set_self_ne path i d s p' i' :
  (p', i') ≠ (path, i) →
  interface_at (_properties (set_self_interface path i d s)) p' i' =
  interface_at (_properties s) p' i'.
Proof.
  intros Hne. unfold interface_at, set_self_interface. simpl.
  destruct (decide (p' = path)) as [->|Hp].
  - rewrite lookup_insert_eq. simpl.
    rewrite lookup_insert_ne by congruence.
    by destruct (_properties s !! path).
  - by rewrite lookup_insert_ne.
Qed.

Lemma set_self_interface_twice path i d d' s :
  set_self_interface path i d' (set_self_interface path i d s) = set_self_interface path i d' s.
Proof.
  unfold set_self_interface. simpl.
  rewrite lookup_insert_eq. simpl. by rewrite !insert_insert_eq.
Qed.

Lemma set_self_interface_id path i d s :
  interface_at (_properties s) path i = Some d → set_self_interface path i d s = s.
Proof.
  unfold interface_at, set_self_interface. intros Hd.
  destruct (_properties s !! path) as [ifaces|] eqn:Hp; [|done]. simpl in *.
  rewrite (insert_id ifaces) by done. rewrite insert_id by done. by destruct s.
Qed.

Lemma self_interface_run path i s :
  self_interface path i s =
  (s, match interface_at (_properties s) path i with
      | Some d => Ok d
      | None => Err (KeyError (match _properties s !! path with Some _ => i | None => path end))
      end).
Proof.
  unfold self_interface, interface_at, bind, get, getitem. simpl.
  destruct (_properties s !! path) as [ifaces|]; simpl; [|done].
  by destruct (ifaces !! i).
Qed.

Lemma del_loop_run path i names : ∀ d s,
  interface_at (_properties s) path i = Some d →
  for_each names (del_property path i) s =
  (set_self_interface path i (del_all names d).1 s,
   match (del_all names d).2 with
   | None => Ok tt
   | Some name => Err (KeyError name)
   end).
Proof.
  induction names as [|name names IH]; intros d s Hd; simpl.
  { by rewrite set_self_interface_id. }
  unfold bind at 1. unfold del_property. unfold bind at 1.
  rewrite self_interface_run, Hd.
  destruct (d !! name) as [v|] eqn:Hn; simpl.
  - rewrite (IH (delete name d)) by apply interface_at_set_self.
    by rewrite set_self_interface_twice.
  - by rewrite set_self_interface_id.
Qed.

Lemma del_all_other names : ∀ d name,
  name ∉ names → (del_all names d).1 !! name = d !! name.
Proof.
  induction names as [|n names IH]; intros d name Hn; simpl; [done|].
  apply not_elem_of_cons in Hn as [Hne Hn].
  destruct (d !! n); [|done]. rewrite IH by done. by rewrite lookup_delete_ne.
Qed.

Lemma del_all_sub names : ∀ d name v,
  (del_all names d).1 !! name = Some v → d !! name = Some v.
Proof.
  induction names as [|n names IH]; intros d name v; simpl; [done|].
  destruct (d !! n) eqn:Hn; [|done]. intros Hv. apply IH in Hv.
  destruct (decide (n = name)) as [->|Hne]; [by rewrite lookup_delete_eq in Hv|].
  by rewrite lookup_delete_ne in Hv.
Qed.

Lemma del_all_deleted names : ∀ d name,
  (del_all names d).2 = None → name ∈ names → (del_all names d).1 !! name = None.
Proof.
  induction names as [|n names IH]; intros d name Hok Hin; simpl in *.
  { by apply elem_of_nil in Hin. }
  destruct (d !! n) eqn:Hn; [|done].
  destruct (decide (name ∈ names)) as [Hin'|Hout]; [by apply IH|].
  apply elem_of_cons in Hin as [->|Hin]; [|done].
  rewrite del_all_other by done. by rewrite lookup_delete_eq.
Qed.

Lemma del_all_missing names : ∀ d name,
  name ∈ names → d !! name = None → is_Some (del_all names d).2.
Proof.
  induction names as [|n names IH]; intros d name Hin Hnone; simpl.
  { by apply elem_of_nil in Hin. }
  destruct (d !! n) eqn:Hn; [|by eexists].
  apply elem_of_cons in Hin as [->|Hin]; [congruence|].
  apply (IH _ name); [done|].
  destruct (decide (n = name)) as [->|Hne]; [by rewrite lookup_delete_eq|].
  by rewrite lookup_delete_ne.
Qed.

Lemma properties_changed_run `{UserCode} path i changed invalidated props s :
  interface_at (_properties s) path i = Some props →
  let updated := del_all invalidated (changed ∪ props) in
  let s2 := set_self_interface path i updated.1 s in
  properties_changed path i changed invalidated s =
  match updated.2 with
  | None => dispatch_changed path i changed s2
  | Some name => (s2, Err (KeyError name))
  end.
Proof.
  intros Hp updated s2. unfold properties_changed. unfold bind at 1. simpl. rewrite Hp.
  unfold bind at 1. unfold modify at 1. unfold bind at 1.
  rewrite (del_loop_run path i invalidated (changed ∪ props)) by apply interface_at_set_self.
  rewrite set_self_interface_twice. fold updated. fold s2.
  by destruct updated.2.
Qed.

Lemma table_kept_frame s0 : frame_invariant (table_kept s0).
Proof. by intros s1 s (ws & cs & ->) Hs. Qed.

Lemma run_condition_callback_table s0 cc : preserves (table_kept s0) (run_condition_callback cc).
Proof.
  unfold run_condition_callback.
  apply preserves_bind; [apply preserves_get|]. intros s.
  apply preserves_bind; [apply preserves_getitem|]. intros ifaces.
  apply preserves_bind; [apply preserves_getitem|]. intros props.
  apply preserves_bind; [apply preserves_getitem|]. intros v.
  destruct (py_eq _ _); [|apply preserves_ret]. by apply preserves_modify.
Qed.

Lemma dispatch_changed_table `{UserCode} path i changed s0 :
  preserves (table_kept s0) (dispatch_changed path i changed).
Proof.
  unfold dispatch_changed. case_decide.
  - apply preserves_bind.
    { apply preserves_bind; [apply preserves_self_interface|]. intros device.
      apply preserves_frame_invariant;
        [apply run_advertisement_callbacks_frame | apply table_kept_frame]. }
    intros _. apply preserves_bind.
    { apply preserves_for_set. intros cc. apply run_condition_callback_table. }
    intros _. case_decide; [|apply preserves_ret].
    apply preserves_frame_invariant; [apply connected_watchers_frame | apply table_kept_frame].
  - case_decide; [|apply preserves_ret]. case_decide; [|apply preserves_ret].
    apply preserves_frame_invariant; [apply value_watchers_frame | apply table_kept_frame].
Qed.

Lemma properties_changed_table `{UserCode} path i changed invalidated props s :
  interface_at (_properties s) path i = Some props →
  _properties (properties_changed path i changed invalidated s).1 =
  _properties (set_self_interface path i (del_all invalidated (changed ∪ props)).1 s).
Proof.
  intros Hp. rewrite (properties_changed_run path i changed invalidated props) by done.
  cbv zeta. destruct (del_all invalidated (changed ∪ props)).2; [done|].
  by apply (dispatch_changed_table path i changed
              (set_self_interface path i (del_all invalidated (changed ∪ props)).1 s)).
Qed.

Lemma properties_changed_ok `{UserCode} path i changed invalidated props s :
  interface_at (_properties s) path i = Some props →
  (properties_changed path i changed invalidated s).2 = Ok tt →
  (del_all invalidated (changed ∪ props)).2 = None.
Proof.
  intros Hp. rewrite (properties_changed_run path i changed invalidated props) by done.
  simpl. by destruct (del_all invalidated (changed ∪ props)).2.
Qed.

Lemma del_all_failed names : ∀ d name,
  (del_all names d).2 = Some name → name ∈ names.
Proof.
  induction names as [|n names IH]; intros d name; simpl; [done|].
  destruct (d !! n).
  - intros Hk. right. by apply (IH (delete n d)).
  - intros [= ->]. by left.
Qed.

(** X3: a [PropertiesChanged] signal for a path and interface the
    Property Table does not hold is discarded: nothing changes and no
    callback is called. For a known one, the dictionary of that path
    and interface afterwards holds the changed values over the earlier
    ones, whatever the callbacks do; when the handler returns normally
    the invalidated names are gone from it; and no other dictionary of
    the table is touched. *)
Theorem properties_changed_merges `{UserCode} path interface changed invalidated s :
  let handled := _parse_msg (PropertiesChanged path interface changed invalidated) s in
  match interface_at (_properties s) path interface with
  | None => handled = (s, Ok tt)
  | Some props =>
      (∀ name, name ∉ invalidated →
         property_at (_properties handled.1) path interface name = (changed ∪ props) !! name) ∧
      (handled.2 = Ok tt → ∀ name, name ∈ invalidated →
         property_at (_properties handled.1) path interface name = None) ∧
      (∀ p i, (p, i) ≠ (path, interface) →
         interface_at (_properties handled.1) p i = interface_at (_properties s) p i)
  end.
Proof.
  simpl. destruct (interface_at (_properties s) path interface) as [props|] eqn:Hp.
  - pose proof (properties_changed_table path interface changed invalidated props s Hp) as Ht.
    repeat split.
    + intros name Hn. unfold property_at. rewrite Ht, interface_at_set_self. simpl.
      by apply del_all_other.
    + intros Hok name Hn. unfold property_at. rewrite Ht, interface_at_set_self. simpl.
      apply del_all_deleted; [|done]. by eapply properties_changed_ok.
    + intros p i Hne. rewrite Ht. by apply interface_at_set_self_ne.
  - unfold properties_changed, bind, get. simpl. by rewrite Hp.
Qed.

(** X4: when a name among the invalidated ones is not a property of
    the interface (and is not among the changed ones), the handler
    raises [KeyError] for a name of the invalidated list. The changed
    values are in the table by then, and no callback has been called:
    the state differs from the earlier one in that one dictionary
    only. *)
Theorem invalidated_missing_raises `{UserCode} path interface changed invalidated props name s :
  interface_at (_properties s) path interface = Some props →
  name ∈ invalidated →
  (changed ∪ props) !! name = None →
  ∃ key d,
    _parse_msg (PropertiesChanged path interface changed invalidated) s =
      (set_self_interface path interface d s, Err (KeyError key)) ∧
    key ∈ invalidated ∧
    ∀ n v, changed !! n = Some v → n ∉ invalidated → d !! n = Some v.
Proof.
  intros Hp Hin Hnone. simpl.
  rewrite (properties_changed_run path interface changed invalidated props) by done. simpl.
  destruct (del_all_missing invalidated (changed ∪ props) name Hin Hnone) as [key Hkey].
  rewrite Hkey. exists key, (del_all invalidated (changed ∪ props)).1.
  split; [done|]. split; [by eapply del_all_failed|].
  intros n v Hn Hout. rewrite del_all_other by done.
  by apply lookup_union_Some_l.
Qed.

(** The theorem at work: the device has no ["RSSI"] property when a
    signal invalidates it. *)
Lemma invalidated_missing_raises_witness :
  interface_at (_properties enumerated0) device0 DEVICE_INTERFACE = Some device_props0 ∧
  "RSSI" ∈ ["RSSI"] ∧
  (∅ ∪ device_props0) !! "RSSI" = None ∧
  ∃ key d,
    @_parse_msg quiet (PropertiesChanged device0 DEVICE_INTERFACE ∅ ["RSSI"]) enumerated0 =
      (set_self_interface device0 DEVICE_INTERFACE d enumerated0, Err (KeyError key)) ∧
    key ∈ ["RSSI"] ∧
    ∀ n v, (∅ : gmap string Value) !! n = Some v → n ∉ ["RSSI"] → d !! n = Some v.
Proof.
  assert (H1 : interface_at (_properties enumerated0) device0 DEVICE_INTERFACE =
               Some device_props0) by (vm_compute; reflexivity).
  assert (H2 : "RSSI" ∈ ["RSSI"]) by constructor.
  assert (H3 : ((∅ : gmap string Value) ∪ device_props0) !! "RSSI" = None)
    by (vm_compute; reflexivity).
  split; [exact H1|]. split; [exact H2|]. split; [exact H3|].
  exact (@invalidated_missing_raises quiet device0 DEVICE_INTERFACE ∅ ["RSSI"]
           device_props0 "RSSI" enumerated0 H1 H2 H3).
Defined.

(** ** Paths of the Property Table *)

Lemma preserves_table_only {A} (P : State → Prop) (m : Sync A) :
  (∀ s0, preserves (table_kept s0) m) →
  (∀ s s', _properties s' = _properties s → P s → P s') →
  preserves P m.
Proof. intros Hm HP s Hs. apply (HP s); [|done]. by apply (Hm s). Qed.

Lemma index_add_table index set_index props key path s0 :
  (∀ x s, _properties (set_index x s) = _properties s) →
  preserves (table_kept s0) (index_add index set_index props key path).
Proof.
  intros Hset. unfold index_add. apply preserves_bind; [apply preserves_getitem|].
  intros parent. destruct (hash_key parent); [|apply preserves_raise].
  apply preserves_modify. intros s Hs. unfold table_kept. by rewrite Hset.
Qed.

Lemma index_del_table index set_index path s0 :
  (∀ x s, _properties (set_index x s) = _properties s) →
  preserves (table_kept s0) (index_del index set_index path).
Proof.
  intros Hset. apply preserves_modify. intros s Hs. unfold table_kept. by rewrite Hset.
Qed.

Lemma interface_added_path `{UserCode} obj_path entry path :
  preserves (λ s, is_Some (_properties s !! path)) (interface_added obj_path entry).
Proof.
  destruct entry as [i props]. unfold interface_added.
  apply preserves_bind.
  { apply preserves_modify. intros s Hs. simpl.
    destruct (decide (obj_path = path)) as [->|Hne];
      [by rewrite lookup_insert_eq | by rewrite lookup_insert_ne]. }
  intros _. apply preserves_table_only; [|by intros s s' ->].
  intros s0. apply preserves_bind.
  { repeat case_decide; try apply preserves_ret; by apply index_add_table. }
  intros _. case_decide; [|apply preserves_ret].
  apply preserves_frame_invariant; [apply run_advertisement_callbacks_frame|].
  apply table_kept_frame.
Qed.

Lemma interface_removed_path `{UserCode} obj_path i path :
  preserves (λ s, is_Some (_properties s !! path)) (interface_removed obj_path i).
Proof.
  unfold interface_removed. apply preserves_bind.
  { apply preserves_modify. intros s Hs.
    destruct (_properties s !! obj_path) as [ifaces|] eqn:Hp; [|done]. simpl.
    destruct (decide (obj_path = path)) as [->|Hne];
      [by rewrite lookup_insert_eq | by rewrite lookup_insert_ne]. }
  intros _. apply preserves_table_only; [|by intros s s' ->].
  intros s0. case_decide.
  - apply preserves_bind; [by apply preserves_modify|]. intros _.
    apply preserves_bind; [by apply index_del_table|]. intros _.
    apply preserves_frame_invariant; [apply removed_callbacks_frame|].
    apply table_kept_frame.
  - repeat case_decide; try apply preserves_ret; by apply index_del_table.
Qed.

Lemma parse_msg_path `{UserCode} message path :
  preserves (λ s, is_Some (_properties s !! path)) (_parse_msg message).
Proof.
  destruct message as [p entries|p ifs|p i changed invalidated|m|t]; simpl.
  - apply preserves_for_each. intros entry _. apply interface_added_path.
  - apply preserves_for_each. intros i _. apply interface_removed_path.
  - intros s Hs.
    destruct (interface_at (_properties s) p i) as [props|] eqn:Hp.
    + rewrite (properties_changed_table p i changed invalidated props) by done. simpl.
      destruct (decide (p = path)) as [->|Hne];
        [by rewrite lookup_insert_eq | by rewrite lookup_insert_ne].
    + unfold properties_changed, bind, get. simpl. by rewrite Hp.
  - apply preserves_ret.
  - apply preserves_ret.
Qed.

Lemma handle_all_path `{UserCode} messages path : ∀ s,
  is_Some (_properties s !! path) → is_Some (_properties (handle_all messages s) !! path).
Proof.
  induction messages as [|m ms IH]; intros s Hs; [done|].
  apply IH. by apply parse_msg_path.
Qed.

(** X5: the signal handler never takes a path out of the Property
    Table. A path that is a key of the table is still one after any
    sequence of signals: [InterfacesRemoved] deletes interfaces under
    the path and leaves the path, with an empty dictionary when nothing
    else is left. *)
Theorem known_paths_stay `{UserCode} messages path s :
  is_Some (_properties s !! path) →
  is_Some (_properties (handle_all messages s) !! path).
Proof. apply handle_all_path. Qed.

(** The theorem at work: the adapter is removed. *)
Lemma known_paths_stay_witness :
  is_Some (_properties enumerated0 !! adapter0) ∧
  is_Some (_properties (@handle_all quiet [adapter_removed] enumerated0) !! adapter0).
Proof.
  assert (H1 : is_Some (_properties enumerated0 !! adapter0)).
  { apply (proj2 (is_Some_alt _)). vm_compute. exact I. }
  split; [exact H1|].
  exact (@known_paths_stay quiet [adapter_removed] adapter0 enumerated0 H1).
Defined.

(** X6: so an adapter that was known once is never reported as not
    found by [active_scan] or [passive_scan], whatever signals have
    been handled since, the removal of the adapter among them: the scan
    goes on to register its callbacks and to call the daemon. *)
Theorem removed_adapter_not_reported `{UserCode} `{Process}
    messages adapter filters patterns cb1 cb2 s s0 r :
  is_Some (_properties s !! adapter) →
  ¬ raises_adapter_not_found
      (resume (active_scan adapter filters cb1 cb2 s0) (Returned r) (handle_all messages s)) ∧
  ¬ raises_adapter_not_found
      (resume (passive_scan adapter patterns cb1 cb2 s0) (Returned r) (handle_all messages s)).
Proof.
  intros Hs. apply (handle_all_path messages) in Hs.
  split; intros (sf & e & Hfin & He).
  - by apply (wp_finishes _ _ _ _ _
                (active_scan_other_errors adapter filters cb1 cb2 s0 r _ Hs) Hfin).
  - by apply (wp_finishes _ _ _ _ _
                (passive_scan_other_errors adapter patterns cb1 cb2 s0 r _ Hs) Hfin).
Qed.

(** The theorem at work: a scan on the adapter that was removed. *)
Lemma removed_adapter_not_reported_witness :
  is_Some (_properties enumerated0 !! adapter0) ∧
  ¬ raises_adapter_not_found
      (resume (active_scan adapter0 ∅ 1%nat 11%nat enumerated0) (Returned (MethodReturn []))
         (@handle_all quiet [adapter_removed] enumerated0)) ∧
  ¬ raises_adapter_not_found
      (resume (@passive_scan process0 adapter0 [] 1%nat 11%nat enumerated0)
         (Returned (MethodReturn []))
         (@handle_all quiet [adapter_removed] enumerated0)).
Proof.
  assert (H1 : is_Some (_properties enumerated0 !! adapter0)).
  { apply (proj2 (is_Some_alt _)). vm_compute. exact I. }
  split; [exact H1|].
  exact (@removed_adapter_not_reported quiet process0 [adapter_removed] adapter0 ∅ []
           1%nat 11%nat enumerated0 enumerated0 (MethodReturn []) H1).
Defined.

(** ** Removal of a device *)

Lemma forgotten_frame device : frame_invariant (forgotten device).
Proof. by intros s0 s (ws & cs & ->) Hs. Qed.

Lemma interface_at_deleted (table : gmap string (gmap string (gmap string Value)))
    p i ifaces device :
  table !! p = Some ifaces →
  interface_at table device DEVICE_INTERFACE = None →
  interface_at (<[p := delete i ifaces]> table) device DEVICE_INTERFACE = None.
Proof.
  unfold interface_at. intros Hp Hd.
  destruct (decide (p = device)) as [->|Hne].
  - rewrite lookup_insert_eq. simpl. rewrite Hp in Hd. simpl in Hd.
    destruct (decide (i = DEVICE_INTERFACE)) as [->|Hi];
      [by rewrite lookup_delete_eq | by rewrite lookup_delete_ne].
  - by rewrite lookup_insert_ne.
Qed.

Lemma interface_removed_forgotten `{UserCode} device i :
  preserves (forgotten device) (interface_removed device i).
Proof.
  unfold interface_removed. apply preserves_bind.
  { apply preserves_modify. intros s (Hc & Hm & Hp).
    destruct (_properties s !! device) as [ifaces|] eqn:Hd; [|done].
    repeat split; [done|done|]. simpl. by apply interface_at_deleted. }
  intros _. case_decide.
  - apply preserves_bind.
    { apply preserves_modify. intros s (Hc & Hm & Hp). repeat split; [|done|done].
      simpl. by rewrite lookup_delete_eq. }
    intros _. apply preserves_bind.
    { apply preserves_modify. intros s (Hc & Hm & Hp). repeat split; [done| |done].
      simpl. by rewrite lookup_delete_eq. }
    intros _. apply preserves_frame_invariant;
      [apply removed_callbacks_frame | apply forgotten_frame].
  - repeat case_decide; try apply preserves_ret;
      apply preserves_modify; by intros s (Hc & Hm & Hp).
Qed.

Lemma device_interface_removed `{UserCode} device s :
  forgotten device (interface_removed device DEVICE_INTERFACE s).1.
Proof.
  unfold interface_removed. rewrite decide_True by done.
  unfold bind at 1. unfold modify at 1.
  set (s1 := match _properties s !! device with
             | Some ifaces =>
                 set_properties (<[device := delete DEVICE_INTERFACE ifaces]> (_properties s)) s
             | None => s
             end).
  assert (H1 : interface_at (_properties s1) device DEVICE_INTERFACE = None).
  { unfold s1, interface_at. destruct (_properties s !! device) as [ifaces|] eqn:Hd.
    - simpl. rewrite lookup_insert_eq. simpl. by rewrite lookup_delete_eq.
    - by rewrite Hd. }
  unfold bind at 1. unfold modify at 1. unfold bind at 1. unfold index_del, modify.
  match goal with |- forgotten _ (notify_removed _ ?s2).1 =>
    assert (H2 : forgotten device s2)
  end.
  { repeat split; simpl; [by rewrite lookup_delete_eq | by rewrite lookup_delete_eq | done]. }
  revert H2. apply preserves_frame_invariant;
    [apply removed_callbacks_frame | apply forgotten_frame].
Qed.

Lemma other_interface_removed `{UserCode} p i s :
  i ≠ DEVICE_INTERFACE → (interface_removed p i s).2 = Ok tt.
Proof.
  intros Hi. unfold interface_removed. rewrite decide_False by done.
  unfold bind, modify. simpl. by repeat case_decide.
Qed.

Lemma removed_loop_forgotten `{UserCode} device interfaces : ∀ s,
  forgotten device s ∨ DEVICE_INTERFACE ∈ interfaces →
  forgotten device (for_each interfaces (interface_removed device) s).1.
Proof.
  induction interfaces as [|i interfaces IH]; intros s Hs.
  { destruct Hs as [Hs|Hin]; [done | by apply elem_of_nil in Hin]. }
  rewrite for_each_cons.
  assert (Hstep : forgotten device (interface_removed device i s).1 ∨
                  (i ≠ DEVICE_INTERFACE ∧ DEVICE_INTERFACE ∈ interfaces)).
  { destruct Hs as [Hs|Hin]; [left; by apply interface_removed_forgotten|].
    destruct (decide (i = DEVICE_INTERFACE)) as [->|Hne];
      [left; apply device_interface_removed|].
    right. split; [done|]. by apply elem_of_cons in Hin as [?|?]. }
  destruct Hstep as [Hf|[Hne Hin]].
  - destruct (interface_removed device i s) as [s1 [[]|e]]; simpl in *; [|done].
    apply IH. by left.
  - pose proof (other_interface_removed device i s Hne) as Hok.
    destruct (interface_removed device i s) as [s1 [[]|e]]; simpl in *; [|done].
    apply IH. by right.
Qed.

(** X7: when a device is removed (an [InterfacesRemoved] signal that
    names the device interface), the manager forgets its cached
    snapshot, its set of services and its device interface, whatever
    the device-removed callbacks do. [get_services] on the device then
    raises [KeyError] at once, also when asked for the cached snapshot,
    and leaves the manager as it is. *)
Theorem removed_device_is_forgotten `{UserCode} `{GattObjects} device interfaces s :
  DEVICE_INTERFACE ∈ interfaces →
  let s' := (_parse_msg (InterfacesRemoved device interfaces) s).1 in
  _services_cache s' !! device = None ∧
  _service_map s' !! KStr device = None ∧
  interface_at (_properties s') device DEVICE_INTERFACE = None ∧
  ∀ use_cached : bool, ∃ key, get_services device use_cached s' = Done s' (Err (KeyError key)).
Proof.
  intros Hin s'.
  assert (Hf : forgotten device s') by (apply removed_loop_forgotten; by right).
  destruct Hf as (Hc & Hm & Hp). repeat split; [done..|].
  intros use_cached. rewrite get_services_uncached by (destruct use_cached; [done|done]).
  destruct (wait_condition_missing device "ServicesResolved" (VBool true) s') as [key ->].
  { unfold property_at. by rewrite Hp. }
  by exists key.
Qed.

(** The theorem at work: the device of the examples is removed. *)
Lemma removed_device_is_forgotten_witness :
  DEVICE_INTERFACE ∈ [DEVICE_INTERFACE] ∧
  let s' := (@_parse_msg quiet device_removed resolved0).1 in
  _services_cache s' !! device0 = None ∧
  _service_map s' !! KStr device0 = None ∧
  interface_at (_properties s') device0 DEVICE_INTERFACE = None ∧
  ∀ use_cached : bool,
    ∃ key, @get_services plain_handles device0 use_cached s' = Done s' (Err (KeyError key)).
Proof.
  assert (H1 : DEVICE_INTERFACE ∈ [DEVICE_INTERFACE]) by constructor.
  split; [exact H1|].
  exact (@removed_device_is_forgotten quiet plain_handles device0 [DEVICE_INTERFACE]
           resolved0 H1).
Defined.

(** ** Which callbacks a signal reaches *)

Lemma invoke_calls `{UserCode} c s : calls (invoke c s).1 = calls s ++ [c].
Proof. apply invoke_trace. Qed.

Lemma dispatch_loop_inv `{UserCode} {A} (P : State → Prop) (test : A → bool) (mk : A → Call)
    (body : A → Sync unit) (l : list A) :
  frame_invariant P →
  (∀ x s, P s → body x s = if test x then invoke (mk x) s else (s, Ok tt)) →
  ∀ s, P s → ∃ trace,
    calls (for_each l body s).1 = calls s ++ trace ∧
    callbacks_frame s (for_each l body s).1 ∧
    dispatched (for_each l body s).2 trace (mk <$> filter (λ x, test x) l).
Proof.
  intros HP Hbody. induction l as [|x l IH]; intros s Hs.
  { exists []. simpl. rewrite app_nil_r. split; [done|]. split; [apply callbacks_frame_refl|done]. }
  rewrite for_each_cons, Hbody by done. destruct (test x) eqn:Hx.
  - rewrite filter_cons_True by (by rewrite Hx). rewrite fmap_cons.
    pose proof (invoke_calls (mk x) s) as Hc.
    pose proof (invoke_frame (mk x) s s (callbacks_frame_refl s)) as Hf.
    destruct (invoke (mk x) s) as [s1 [[]|e]]; simpl in *.
    + destruct (IH s1) as (trace & Ht & Hfr & Hd); [by apply (HP s)|]. exists (mk x :: trace).
      rewrite Ht, Hc, <- (assoc_L (++)). split; [done|].
      split; [by eapply callbacks_frame_trans|].
      destruct (for_each l body s1).2 as [[]|e]; simpl in *; [by rewrite Hd|].
      destruct Hd as [Hp _]. split; [by apply prefix_cons | done].
    + exists [mk x]. split; [done|]. split; [done|]. split; [|done].
      apply prefix_cons, prefix_nil.
  - rewrite filter_cons_False by (rewrite Hx; exact id). by apply IH.
Qed.

Lemma dispatch_loop `{UserCode} {A} (test : A → bool) (mk : A → Call) (body : A → Sync unit)
    (l : list A) :
  (∀ x s, body x s = if test x then invoke (mk x) s else (s, Ok tt)) →
  ∀ s, ∃ trace,
    calls (for_each l body s).1 = calls s ++ trace ∧
    callbacks_frame s (for_each l body s).1 ∧
    dispatched (for_each l body s).2 trace (mk <$> filter (λ x, test x) l).
Proof.
  intros Hbody s.
  apply (dispatch_loop_inv (λ _, True) test mk body l); [done| |done].
  intros x s0 _. apply Hbody.
Qed.







(** ** The watchers of characteristic values *)






(** ** A waiter whose device is gone *)

Lemma run_condition_callback_calls c0 cc :
  preserves (λ s, calls s = c0) (run_condition_callback cc).
Proof.
  unfold run_condition_callback.
  apply preserves_bind; [apply preserves_get|]. intros s.
  apply preserves_bind; [apply preserves_getitem|]. intros ifaces.
  apply preserves_bind; [apply preserves_getitem|]. intros props.
  apply preserves_bind; [apply preserves_getitem|]. intros v.
  destruct (py_eq _ _); [|apply preserves_ret]. by apply preserves_modify.
Qed.

Lemma run_condition_callback_missing cc s :
  interface_at (_properties s) (cc_device_path cc) DEVICE_INTERFACE = None →
  ∃ key, run_condition_callback cc s = (s, Err (KeyError key)).
Proof.
  unfold interface_at, run_condition_callback, bind, get, getitem. simpl.
  destruct (_properties s !! cc_device_path cc) as [ifaces|]; simpl; [|by eexists].
  intros ->. by eexists.
Qed.

Lemma stale_waiter_loop cc n cur todo : ∀ s,
  cc ∈ todo →
  interface_at (_properties s) (cc_device_path cc) DEVICE_INTERFACE = None →
  let run := for_live_set n cur todo run_condition_callback s in
  (∃ e, run.2 = Err e) ∧ calls run.1 = calls s.
Proof.
  induction todo as [|x todo IH]; intros s Hin Hs; [by apply elem_of_nil in Hin|].
  simpl. destruct (negb (n =? length (cur s))%nat) eqn:Hsize.
  { rewrite Nat.eqb_sym in Hsize. rewrite Hsize. simpl. split; [by eexists | done]. }
  rewrite Nat.eqb_sym in Hsize. rewrite Hsize. unfold bind.
  pose proof (run_condition_callback_table s x s eq_refl) as Ht.
  pose proof (run_condition_callback_calls (calls s) x s eq_refl) as Hc.
  apply elem_of_cons in Hin as [<-|Hin].
  - destruct (run_condition_callback_missing cc s Hs) as [key ->]. simpl.
    split; [by eexists | done].
  - destruct (run_condition_callback x s) as [s1 [[]|e]]; simpl in *;
      [|split; [by eexists | done]].
    unfold table_kept in Ht. rewrite <- Hc. apply IH; [done|]. by rewrite Ht.
Qed.

Lemma dispatched_elem {A B} (r : Result A) trace (mk : B → Call) l c :
  dispatched r trace (mk <$> l) → c ∈ trace → ∃ x, c = mk x.
Proof.
  intros Hd Hc.
  assert (Hin : c ∈ mk <$> l).
  { destruct r; simpl in Hd; [by subst|]. destruct Hd as [[k ->] _].
    apply elem_of_app. by left. }
  apply list_elem_of_fmap in Hin as (x & -> & _). by exists x.
Qed.

(** X11: the closure of a waiter looks its device up without a guard.
    While a waiter is registered for a device whose device interface is
    not in the Property Table (the device was removed), the handling of
    every properties-changed signal for any other device raises before
    it returns, and no watcher is told of a change of ["Connected"]. *)
Theorem stale_waiter_breaks_dispatch `{UserCode} cc path changed invalidated props s :
  cc ∈ _condition_callbacks s →
  interface_at (_properties s) (cc_device_path cc) DEVICE_INTERFACE = None →
  interface_at (_properties s) path DEVICE_INTERFACE = Some props →
  let run := _parse_msg (PropertiesChanged path DEVICE_INTERFACE changed invalidated) s in
  (∃ e, run.2 = Err e) ∧
  ∀ cb v, CallConnectedChanged cb v ∈ calls run.1 → CallConnectedChanged cb v ∈ calls s.
Proof.
  intros Hcc Hgone Hp run. unfold run. simpl.
  rewrite (properties_changed_run path DEVICE_INTERFACE changed invalidated props) by done.
  cbv zeta. set (d := del_all invalidated (changed ∪ props)).
  set (s2 := set_self_interface path DEVICE_INTERFACE d.1 s).
  assert (Hne : (cc_device_path cc, DEVICE_INTERFACE) ≠ (path, DEVICE_INTERFACE)).
  { intros [= Heq]. rewrite Heq in Hgone. congruence. }
  assert (H2 : interface_at (_properties s2) (cc_device_path cc) DEVICE_INTERFACE = None).
  { unfold s2. by rewrite interface_at_set_self_ne. }
  destruct d.2 as [name|]; [split; [by eexists | done]|].
  destruct (dispatch_changed path DEVICE_INTERFACE changed s2) as [sf rf] eqn:Hrun. simpl.
  unfold dispatch_changed in Hrun. rewrite decide_True in Hrun by done.
  unfold bind at 1 in Hrun. unfold bind at 1 in Hrun. rewrite self_interface_run in Hrun.
  unfold s2 at 1 in Hrun. rewrite interface_at_set_self in Hrun.
  pose proof (run_advertisement_callbacks_frame path d.1 (keys changed) s2 s2
                (callbacks_frame_refl s2)) as (ws & cs & Hf).
  assert (Hadv : ∃ trace,
            calls (_run_advertisement_callbacks path d.1 (keys changed) s2).1 = calls s ++ trace ∧
            ∀ c, c ∈ trace → ∃ x, c = CallAdvertisement (callback x) path d.1).
  { unfold _run_advertisement_callbacks, bind, get. simpl.
    destruct (dispatch_loop (λ c, String.prefix (adapter_path c) path)
                (λ c, CallAdvertisement (callback c) path d.1)
                (λ c, if negb (String.prefix (adapter_path c) path) then ret tt
                      else invoke (CallAdvertisement (callback c) path d.1))
                (_advertisement_callbacks s)) with (s := s2) as (trace & Ht & _ & Hd).
    { intros c s1. by destruct (String.prefix _ _). }
    exists trace. split; [done|]. intros c Hc. by eapply dispatched_elem. }
  destruct Hadv as (trace & Ht & Honly).
  assert (Hcalls : ∀ cb v, CallConnectedChanged cb v ∈ calls s ++ trace →
                           CallConnectedChanged cb v ∈ calls s).
  { intros cb v Hin. apply elem_of_app in Hin as [Hin|Hin]; [done|].
    by destruct (Honly _ Hin) as [x Hx]. }
  destruct (_run_advertisement_callbacks path d.1 (keys changed) s2) as [s3 [[]|e]];
    simpl in *; [|simplify_eq; split; [by eexists | by rewrite Ht]].
  unfold bind at 1 in Hrun. unfold for_set, bind, get in Hrun. simpl in Hrun.
  assert (H3 : interface_at (_properties s3) (cc_device_path cc) DEVICE_INTERFACE = None).
  { by rewrite Hf. }
  assert (Hin3 : cc ∈ _condition_callbacks s3) by (by rewrite Hf).
  destruct (stale_waiter_loop cc (length (_condition_callbacks s3)) _condition_callbacks
              (_condition_callbacks s3) s3 Hin3 H3) as [[e He] Hc].
  destruct (for_live_set _ _ _ _ s3) as [s4 r4]; simpl in *. subst r4. simplify_eq.
  split; [by eexists|]. by rewrite Hc, Ht.
Qed.

(** The theorem at work: the first device was removed while a waiter
    for its services was registered; the second device connects. *)
Lemma stale_waiter_breaks_dispatch_witness :
  waiter0 ∈ _condition_callbacks stale_waiter0 ∧
  interface_at (_properties stale_waiter0) (cc_device_path waiter0) DEVICE_INTERFACE = None ∧
  interface_at (_properties stale_waiter0) device1 DEVICE_INTERFACE =
    Some {[ "Connected" := VBool false ]} ∧
  let run := @_parse_msg quiet device1_connected stale_waiter0 in
  (∃ e, run.2 = Err e) ∧
  ∀ cb v, CallConnectedChanged cb v ∈ calls run.1 →
          CallConnectedChanged cb v ∈ calls stale_waiter0.
Proof.
  assert (H1 : waiter0 ∈ _condition_callbacks stale_waiter0) by constructor.
  assert (H2 : interface_at (_properties stale_waiter0) (cc_device_path waiter0)
                 DEVICE_INTERFACE = None) by (vm_compute; reflexivity).
  assert (H3 : interface_at (_properties stale_waiter0) device1 DEVICE_INTERFACE =
                 Some {[ "Connected" := VBool false ]}) by (vm_compute; reflexivity).
  split; [exact H1|]. split; [exact H2|]. split; [exact H3|].
  exact (@stale_waiter_breaks_dispatch quiet waiter0 device1 {[ "Connected" := VBool true ]} []
           {[ "Connected" := VBool false ]} stale_waiter0 H1 H2 H3).
Defined.

(** ** The Property Table under [InterfacesAdded] *)

Lemma interface_added_table `{UserCode} obj_path entry s :
  _properties (interface_added obj_path entry s).1 =
  <[obj_path := <[entry.1 := entry.2]> (default ∅ (_properties s !! obj_path))]> (_properties s).
Proof.
  destruct entry as [i props]. unfold interface_added.
  unfold bind at 1. unfold modify at 1. cbv beta iota.
  match goal with |- _properties (?m ?s1).1 = _ =>
    change (table_kept s1 (m s1).1); cut (preserves (table_kept s1) m);
      [intros Hm; by apply Hm|]
  end.
  apply preserves_bind.
  { repeat case_decide; try apply preserves_ret; by apply index_add_table. }
  intros _. case_decide; [|apply preserves_ret].
  apply preserves_frame_invariant; [apply run_advertisement_callbacks_frame|].
  apply table_kept_frame.
Qed.

Lemma added_loop_table `{UserCode} obj_path entries : ∀ s,
  (for_each entries (interface_added obj_path) s).2 = Ok tt →
  _properties (for_each entries (interface_added obj_path) s).1 =
  added obj_path entries (_properties s).
Proof.
  induction entries as [|entry entries IH]; intros s; [done|].
  rewrite for_each_cons. pose proof (interface_added_table obj_path entry s) as Ht.
  destruct (interface_added obj_path entry s) as [s1 [[]|e]]; simpl in *; [|done].
  intros Hok. rewrite IH by done. by rewrite Ht.
Qed.

Lemma added_frame obj_path entries p i : ∀ table,
  p ≠ obj_path ∨ i ∉ entries.*1 →
  interface_at (added obj_path entries table) p i = interface_at table p i.
Proof.
  induction entries as [|[i0 props0] entries IH]; intros table Hne; [done|].
  simpl. rewrite IH.
  - unfold interface_at. destruct (decide (p = obj_path)) as [->|Hp].
    + rewrite lookup_insert_eq. simpl.
      destruct Hne as [?|Hi]; [done|]. rewrite fmap_cons in Hi.
      apply not_elem_of_cons in Hi as [Hi _]. simpl in Hi.
      rewrite lookup_insert_ne by done. by destruct (table !! obj_path).
    + by rewrite lookup_insert_ne.
  - destruct Hne as [?|Hi]; [by left|]. right. rewrite fmap_cons in Hi.
    by apply not_elem_of_cons in Hi as [_ ?].
Qed.

Lemma added_lookup obj_path entries i props : ∀ table,
  NoDup entries.*1 → (i, props) ∈ entries →
  interface_at (added obj_path entries table) obj_path i = Some props.
Proof.
  induction entries as [|[i0 props0] entries IH]; intros table Hnd Hin.
  { by apply elem_of_nil in Hin. }
  rewrite fmap_cons in Hnd. apply NoDup_cons in Hnd as [Hfresh Hnd]. simpl in *.
  apply elem_of_cons in Hin as [[= -> ->]|Hin]; [|by apply IH].
  rewrite added_frame by (by right).
  unfold interface_at. rewrite lookup_insert_eq. simpl. by rewrite lookup_insert_eq.
Qed.

(** X12: when the handler returns normally from an [InterfacesAdded]
    signal, the Property Table holds under the signal's path every
    interface the signal brought, with the properties it brought, and
    every other interface of every path is as before. *)
Theorem interfaces_added_are_stored `{UserCode} obj_path entries s :
  NoDup entries.*1 →
  (_parse_msg (InterfacesAdded obj_path entries) s).2 = Ok tt →
  let s' := (_parse_msg (InterfacesAdded obj_path entries) s).1 in
  (∀ interface props, (interface, props) ∈ entries →
     interface_at (_properties s') obj_path interface = Some props) ∧
  (∀ path interface, path ≠ obj_path ∨ interface ∉ entries.*1 →
     interface_at (_properties s') path interface =
     interface_at (_properties s) path interface).
Proof.
  intros Hnd Hok s'. unfold s'. simpl in *. rewrite added_loop_table by done. split.
  - intros i props Hin. by apply added_lookup.
  - intros p i Hne. by apply added_frame.
Qed.

(** The theorem at work: a second characteristic is added. *)
Lemma interfaces_added_are_stored_witness :
  NoDup [GATT_CHARACTERISTIC_INTERFACE] ∧
  (@_parse_msg quiet char1_added enumerated0).2 = Ok tt ∧
  let s' := (@_parse_msg quiet char1_added enumerated0).1 in
  (∀ interface props,
     (interface, props) ∈
       [ (GATT_CHARACTERISTIC_INTERFACE,
          ({[ "Service" := VStr service0; "UUID" := VStr "2a1a" ]} : gmap string Value)) ] →
     interface_at (_properties s') char1 interface = Some props) ∧
  (∀ path interface, path ≠ char1 ∨ interface ∉ [GATT_CHARACTERISTIC_INTERFACE] →
     interface_at (_properties s') path interface =
     interface_at (_properties enumerated0) path interface).
Proof.
  assert (H1 : NoDup [GATT_CHARACTERISTIC_INTERFACE]) by (apply NoDup_singleton).
  assert (H2 : (@_parse_msg quiet char1_added enumerated0).2 = Ok tt)
    by (vm_compute; reflexivity).
  split; [exact H1|]. split; [exact H2|].
  exact (@interfaces_added_are_stored quiet char1
           [ (GATT_CHARACTERISTIC_INTERFACE,
              {[ "Service" := VStr service0; "UUID" := VStr "2a1a" ]}) ]
           enumerated0 H1 H2).
Defined.

(** X13: an added service, characteristic or descriptor that comes
    without its parent reference is stored in the Property Table, and
    then the handler raises [KeyError] for the missing property: the
    index is not touched, no callback is called, and the interfaces
    that follow in the signal are not stored. *)
Theorem added_without_parent_raises `{UserCode} lv obj_path props rest s :
  props !! level_key lv = None →
  _parse_msg (InterfacesAdded obj_path ((level_interface lv, props) :: rest)) s =
    (set_properties
       (<[obj_path := <[level_interface lv := props]> (default ∅ (_properties s !! obj_path))]>
          (_properties s)) s,
     Err (KeyError (level_key lv))).
Proof.
  intros Hnone. simpl. unfold bind at 1. unfold interface_added.
  unfold bind at 1. unfold modify at 1. cbv beta iota.
  unfold bind at 1.
  destruct lv; simpl level_interface; simpl level_key in *;
    repeat (first [rewrite decide_True by done | rewrite decide_False by done]);
    unfold index_add, bind, getitem; by rewrite Hnone.
Qed.

(** The theorem at work: a service without ["Device"]. *)
Lemma added_without_parent_raises_witness :
  headless_service !! level_key ServiceLevel = None ∧
  @_parse_msg quiet
    (InterfacesAdded service0 ((level_interface ServiceLevel, headless_service) :: []))
    __init__ =
    (set_properties
       (<[service0 := <[level_interface ServiceLevel := headless_service]>
                        (default ∅ (_properties __init__ !! service0))]>
          (_properties __init__)) __init__,
     Err (KeyError (level_key ServiceLevel))).
Proof.
  assert (H1 : headless_service !! level_key ServiceLevel = None) by (vm_compute; reflexivity).
  split; [exact H1|].
  exact (@added_without_parent_raises quiet ServiceLevel service0 headless_service []
           __init__ H1).
Defined.

(** ** [async_init]: the new bus *)

Lemma load_object_bus b entry : preserves (λ s, _bus s = b) (load_object entry).
Proof.
  destruct entry as [path props].
  change (load_object (path, props)) with
    (modify (λ s, set_properties (<[path := props]> (_properties s)) s) >>
     load_level ServiceLevel path props >>
     load_level CharacteristicLevel path props >>
     load_level DescriptorLevel path props)%sync.
  assert (Hl : ∀ lv, preserves (λ s, _bus s = b) (load_level lv path props)).
  { intros lv. unfold load_level. destruct (props !! level_interface lv); [|apply preserves_ret].
    case_decide; [apply preserves_ret|]. unfold index_add.
    apply preserves_bind; [apply preserves_getitem|]. intros parent.
    destruct (hash_key parent); [|apply preserves_raise].
    apply preserves_modify. intros s Hs. by destruct lv. }
  apply preserves_bind; [by apply preserves_modify|]. intros _.
  apply preserves_bind; [apply Hl|]. intros _.
  apply preserves_bind; [apply Hl|]. intros _. apply Hl.
Qed.

Ltac bus_facts := unfold bus_kept in *; simpl in *; congruence.

(** X14: [async_init] on a manager whose bus is not connected first
    empties the services cache and opens a new bus. When every step
    succeeds it ends with [_bus] set to the new bus, after installing
    the message handler. When a step after the connection fails (a
    match rule or the bulk read is refused or raises, or an object of
    the reply cannot be indexed), the new bus is disconnected before
    the lock is released and [_bus] is left as it was; when the
    connection itself raises, nothing is disconnected. *)
Theorem async_init_disconnects_on_failure s0 r s1 :
  bus_is_connected s1 = false →
  (∃ s, pending (resume (async_init s0) (Returned r) s1) = Some (Connect (next_id s1), s) ∧
        _services_cache s = ∅) ∧
  wp_trace bus_kept (resume (async_init s0) (Returned r) s1)
    (λ acts sf res,
       let bus := next_id s1 in
       match res with
       | Ok _ => _bus sf = Some bus ∧ acts = [AddMessageHandler bus; ReleaseLock]
       | Err _ =>
           _bus sf = _bus s1 ∧
           (acts = [ReleaseLock] ∨
            acts = [AddMessageHandler bus; Disconnect bus; ReleaseLock])
       end).
Proof.
  intros Hc. unfold async_init. rewrite resume_with_bus_lock.
  split; unfold abind at 1; unfold lift at 1, get; simpl on_exit; rewrite Hc; simpl;
    [by eexists|].
  intros [rc|name] s2 H2; simpl; [|split; [bus_facts | by left]].
  intros [[body3|err]|name] s3 H3; simpl; [|split; [bus_facts | by right]..].
  intros [[body4|err]|name] s4 H4; simpl; [|split; [bus_facts | by right]..].
  intros [[body5|err]|name] s5 H5; simpl; [|split; [bus_facts | by right]..].
  intros [[body6|err]|name] s6 H6; simpl; [|split; [bus_facts | by right]..].
  unfold abind, lift, assert_reply, ret, modify, reply_body. simpl.
  pose proof (preserves_for_each (λ s, _bus s = _bus s6) body6 load_object
                (λ entry _, load_object_bus (_bus s6) entry) (clear_tables s6) eq_refl) as Hb.
  destruct (for_each body6 load_object (clear_tables s6)) as [s7 [[]|e]]; simpl in *.
  - done.
  - split; [bus_facts | by right].
Qed.

(** The theorem at work: the first initialisation of a manager. *)
Lemma async_init_disconnects_on_failure_witness :
  bus_is_connected __init__ = false ∧
  (∃ s, pending (resume (async_init __init__) (Returned (MethodReturn [])) __init__) =
          Some (Connect (next_id __init__), s) ∧
        _services_cache s = ∅) ∧
  wp_trace bus_kept (resume (async_init __init__) (Returned (MethodReturn [])) __init__)
    (λ acts sf res,
       let bus := next_id __init__ in
       match res with
       | Ok _ => _bus sf = Some bus ∧ acts = [AddMessageHandler bus; ReleaseLock]
       | Err _ =>
           _bus sf = _bus __init__ ∧
           (acts = [ReleaseLock] ∨
            acts = [AddMessageHandler bus; Disconnect bus; ReleaseLock])
       end).
Proof.
  split; [reflexivity|].
  exact (async_init_disconnects_on_failure __init__ (MethodReturn []) __init__ eq_refl).
Defined.

(** ** Stopping a scan *)

Lemma wp_keeps_then {A B} rely (Q : State → Prop) (m : Async A) (f : A → Async B) s
    (Post : State → Result B → Prop) :
  keeps rely Q m → Q s →
  (∀ s' e, Q s' → Post s' (Err e)) →
  (∀ a s', Q s' → wp rely (f a s') Post) →
  wp rely (abind m f s) Post.
Proof.
  intros Hm Hs Herr Hf. apply wp_abind. eapply wp_mono; [|by apply Hm].
  intros s' [a|e] Hs'; [by apply Hf | by apply Herr].
Qed.

Lemma same_registrations_kept s0 q s s' :
  registrations_kept q s s' → same_registrations s0 s → same_registrations s0 s'.
Proof. intros [Ha Hr] [Ha' Hr']. split; congruence. Qed.

Lemma wp_unregister rely c d s0 s :
  same_registrations s0 s →
  wp rely (lift (unregister_callbacks c d) s)
    (λ sf res,
       match res with
       | Ok _ =>
           remove_first c (_advertisement_callbacks s0) = Some (_advertisement_callbacks sf) ∧
           remove_first d (_device_removed_callbacks s0) = Some (_device_removed_callbacks sf)
       | Err e => e ≠ ValueError → same_registrations s0 sf
       end).
Proof.
  intros [Ha Hr]. apply wp_lift.
  unfold unregister_callbacks, remove_advertisement_callback, remove_device_removed_callback,
    bind, get, modify. simpl. rewrite Ha.
  destruct (remove_first c (_advertisement_callbacks s0)) as [l|]; simpl; [|done].
  rewrite Hr. by destruct (remove_first d (_device_removed_callbacks s0)) as [m|]; simpl.
Qed.

Lemma stop_run f s0 r s2 :
  wp registrations_kept (resume (stop f s0) (Returned r) s2)
    (λ sf res,
       match res with
       | Ok _ =>
           remove_first (stop_registrations f).1 (_advertisement_callbacks s2) =
             Some (_advertisement_callbacks sf) ∧
           remove_first (stop_registrations f).2 (_device_removed_callbacks s2) =
             Some (_device_removed_callbacks sf)
       | Err e => e ≠ ValueError → same_registrations s2 sf
       end).
Proof.
  assert (Hrefl : same_registrations s2 s2) by done.
  destruct f as [adapter c d|adapter monitor_path monitor c d]; unfold stop;
    apply wp_locked; simpl stop_registrations; simpl fst; simpl snd.
  - apply (wp_keeps_then _ (same_registrations s2)); [|done|done|].
    { apply keeps_bus_call. apply same_registrations_kept. }
    intros reply s Hs.
    apply (wp_keeps_then _ (same_registrations s2)); [apply keeps_assert_reply|done..|].
    intros _ s3 Hs3.
    apply (wp_keeps_then _ (same_registrations s2)); [|done|done|].
    { apply keeps_bus_call. apply same_registrations_kept. }
    intros reply' s4 Hs4.
    apply (wp_keeps_then _ (same_registrations s2)); [apply keeps_assert_reply|done..|].
    intros _ s5 Hs5. by apply wp_unregister.
  - apply (wp_keeps_then _ (same_registrations s2)); [apply keeps_the_bus|done..|].
    intros bus s Hs.
    apply (wp_keeps_then _ (same_registrations s2)); [apply keeps_perform|done..|].
    intros _ s3 Hs3.
    apply (wp_keeps_then _ (same_registrations s2)); [|done|done|].
    { apply keeps_bus_call. apply same_registrations_kept. }
    intros reply s4 Hs4.
    apply (wp_keeps_then _ (same_registrations s2)); [apply keeps_assert_reply|done..|].
    intros _ s5 Hs5. by apply wp_unregister.
Qed.

(** X15: when the function a scan returned fails because the bus or
    the daemon does (no bus, a call that raises, [StopDiscovery],
    [SetDiscoveryFilter] or [UnregisterMonitor] refused), the callbacks
    of the scan stay registered: both registration lists are as the
    call found them. *)
Theorem failed_stop_keeps_registrations f s0 r s2 sf e :
  finishes registrations_kept (resume (stop f s0) (Returned r) s2) sf (Err e) →
  e ≠ ValueError →
  _advertisement_callbacks sf = _advertisement_callbacks s2 ∧
  _device_removed_callbacks sf = _device_removed_callbacks s2.
Proof.
  intros Hfin He. by apply (wp_finishes _ _ _ _ _ (stop_run f s0 r s2) Hfin).
Qed.

(** The theorem at work: the daemon refuses to stop the discovery. *)
Lemma failed_stop_keeps_registrations_witness :
  finishes registrations_kept (resume (stop stop0 scanning0) (Returned (MethodReturn [])) scanning0)
    after_failed_stop (Err (BleakDBusError "org.bluez.Error.Failed")) ∧
  BleakDBusError "org.bluez.Error.Failed" ≠ ValueError ∧
  _advertisement_callbacks after_failed_stop = _advertisement_callbacks scanning0 ∧
  _device_removed_callbacks after_failed_stop = _device_removed_callbacks scanning0.
Proof.
  assert (Hfin : finishes registrations_kept
     (resume (stop stop0 scanning0) (Returned (MethodReturn [])) scanning0)
     after_failed_stop (Err (BleakDBusError "org.bluez.Error.Failed"))).
  { apply (finishes_grant _ _ refused _ _ registrations_kept_refl).
    apply finishes_outcome. vm_compute. reflexivity. }
  assert (Hne : BleakDBusError "org.bluez.Error.Failed" ≠ ValueError) by discriminate.
  split; [exact Hfin|]. split; [exact Hne|].
  exact (failed_stop_keeps_registrations stop0 scanning0 (MethodReturn []) scanning0
           after_failed_stop _ Hfin Hne).
Defined.

(** ** A scan from start to stop *)

Lemma wp_trivial {A} rely (c : Coro A) : wp rely c (λ _ _, True).
Proof. by apply wp_any. Qed.

Lemma wp_conj {A} rely (c : Coro A) (P Q : State → Result A → Prop) :
  wp rely c P → wp rely c Q → wp rely c (λ s r, P s r ∧ Q s r).
Proof.
  induction c as [s r|a k IH|q s k IH]; simpl; [done|apply IH|].
  intros HP HQ ans s' Hrely. apply IH; [by apply HP | by apply HQ].
Qed.

Lemma wp_value_abind {A B} rely (m : Async A) (f : A → Async B) s (V : B → Prop) :
  (∀ a s', wp rely (f a s') (λ _ r, match r with Ok b => V b | Err _ => True end)) →
  wp rely (abind m f s) (λ _ r, match r with Ok b => V b | Err _ => True end).
Proof.
  intros Hf. apply wp_abind. eapply wp_mono; [|apply wp_trivial].
  intros s' [a|e] _; [apply Hf | done].
Qed.

Lemma scan_body_registers {A} (body : Async A) c d s1 s (V : A → Prop) :
  keeps registrations_kept (registered c d s1) body →
  (∀ s', wp registrations_kept (body s')
           (λ _ r, match r with Ok a => V a | Err _ => True end)) →
  registered c d s1 s →
  wp registrations_kept
    (try_except body (lift (unregister_callbacks c d)) s)
    (λ sf res, match res with
               | Ok a => V a ∧ registered c d s1 sf
               | Err _ => True
               end).
Proof.
  intros Hkeeps Hvalue Hs. apply wp_try_except.
  eapply wp_mono; [|apply (wp_conj _ _ _ _ (Hkeeps s Hs) (Hvalue s))].
  intros s' [a|e] [Hreg Hv]; [done|].
  apply wp_any. by intros s'' [|].
Qed.

Lemma active_scan_registers adapter filters cb1 cb2 s0 r s1 :
  let c := {| callback := cb1; adapter_path := adapter |} in
  let d := {| removed_callback := cb2; removed_adapter_path := adapter |} in
  wp registrations_kept (resume (active_scan adapter filters cb1 cb2 s0) (Returned r) s1)
    (λ sf res, match res with
               | Ok f => stop_registrations f = (c, d) ∧ registered c d s1 sf
               | Err _ => True
               end).
Proof.
  intros c d. unfold active_scan. apply wp_locked. apply wp_abind, wp_lift. simpl.
  case_decide; [|done].
  apply wp_abind, wp_lift. simpl.
  apply (scan_body_registers _ c d s1 _ (λ f, stop_registrations f = (c, d))); [| |done].
  - apply keeps_abind; [apply keeps_bus_call, registered_kept|]. intros reply.
    apply keeps_abind; [apply keeps_assert_reply|]. intros _.
    apply keeps_abind; [apply keeps_bus_call, registered_kept|]. intros reply'.
    apply keeps_abind; [apply keeps_assert_reply|]. intros _. apply keeps_aret.
  - intros s'. apply wp_value_abind. intros reply s2.
    apply wp_value_abind. intros _ s3. apply wp_value_abind. intros reply' s4.
    apply wp_value_abind. intros _ s5. done.
Qed.

Lemma passive_scan_registers `{Process} adapter patterns cb1 cb2 s0 r s1 :
  let c := {| callback := cb1; adapter_path := adapter |} in
  let d := {| removed_callback := cb2; removed_adapter_path := adapter |} in
  wp registrations_kept (resume (passive_scan adapter patterns cb1 cb2 s0) (Returned r) s1)
    (λ sf res, match res with
               | Ok f => stop_registrations f = (c, d) ∧ registered c d s1 sf
               | Err _ => True
               end).
Proof.
  intros c d. unfold passive_scan. apply wp_locked. apply wp_abind, wp_lift. simpl.
  case_decide; [|done].
  apply wp_abind, wp_lift. simpl.
  apply (scan_body_registers _ c d s1 _ (λ f, stop_registrations f = (c, d))); [| |done].
  - apply keeps_abind.
    { apply keeps_lift. intros s [Ha Hr]. by split. }
    intros monitor.
    apply keeps_abind; [apply keeps_bus_call, registered_kept|]. intros reply.
    apply keeps_abind.
    { destruct reply as [body|name]; [apply keeps_aret|].
      case_decide; [apply keeps_araise | apply keeps_aret]. }
    intros _. apply keeps_abind; [apply keeps_assert_reply|]. intros _.
    apply keeps_abind; [apply keeps_the_bus|]. intros bus.
    apply keeps_abind; [apply keeps_perform|]. intros _. apply keeps_aret.
  - intros s'. apply wp_value_abind. intros monitor s2.
    apply wp_value_abind. intros reply s3. apply wp_value_abind. intros _ s4.
    apply wp_value_abind. intros _ s5. apply wp_value_abind. intros bus s6.
    apply wp_value_abind. intros _ s7. done.
Qed.

(** X16: a scan that started registers its two callbacks at the end of
    the two lists, and the function it returns takes them out again:
    when the scan is stopped while the lists are as the scan left them,
    they hold afterwards the entries they held before the scan, each as
    often as before, and they are the very lists of before when the
    registration was not in them already. *)
Theorem scan_then_stop_round_trip `{Process}
    adapter filters patterns cb1 cb2 s0 r s1 f started_in s0' r' s2 sf :
  finishes registrations_kept
    (resume (active_scan adapter filters cb1 cb2 s0) (Returned r) s1) started_in (Ok f) ∨
  finishes registrations_kept
    (resume (passive_scan adapter patterns cb1 cb2 s0) (Returned r) s1) started_in (Ok f) →
  same_registrations started_in s2 →
  finishes registrations_kept (resume (stop f s0') (Returned r') s2) sf (Ok tt) →
  registered {| callback := cb1; adapter_path := adapter |}
    {| removed_callback := cb2; removed_adapter_path := adapter |} s1 started_in ∧
  rolled_back {| callback := cb1; adapter_path := adapter |}
    {| removed_callback := cb2; removed_adapter_path := adapter |} s1 sf.
Proof.
  intros Hstart [Ha2 Hr2] Hstop.
  assert (Hreg : stop_registrations f =
                   ({| callback := cb1; adapter_path := adapter |},
                    {| removed_callback := cb2; removed_adapter_path := adapter |}) ∧
                 registered {| callback := cb1; adapter_path := adapter |}
                   {| removed_callback := cb2; removed_adapter_path := adapter |} s1 started_in).
  { destruct Hstart as [Hfin|Hfin].
    - apply (wp_finishes _ _ _ _ _ (active_scan_registers _ _ _ _ _ _ _) Hfin).
    - apply (wp_finishes _ _ _ _ _ (passive_scan_registers _ _ _ _ _ _ _) Hfin). }
  destruct Hreg as [Hf [Ha Hr]]. split; [done|].
  pose proof (wp_finishes _ _ _ _ _ (stop_run f s0' r' s2) Hstop) as [Hadv Hrem].
  simpl in Hadv, Hrem. rewrite Hf in Hadv, Hrem. simpl in Hadv, Hrem.
  rewrite Ha2, Ha in Hadv. rewrite Hr2, Hr in Hrem.
  destruct (remove_first_app {| callback := cb1; adapter_path := adapter |}
              (_advertisement_callbacks s1)) as (l' & Hl & Hlp & Hlf).
  destruct (remove_first_app {| removed_callback := cb2; removed_adapter_path := adapter |}
              (_device_removed_callbacks s1)) as (m' & Hm & Hmp & Hmf).
  rewrite Hl in Hadv. rewrite Hm in Hrem. simplify_eq.
  by repeat split.
Qed.

(** The theorem at work: the third scanner of the examples is started
    and stopped. *)
Lemma scan_then_stop_round_trip_witness :
  (finishes registrations_kept
     (resume (active_scan adapter0 ∅ 3%nat 13%nat scanning0) (Returned (MethodReturn []))
        scanning0) after_start (Ok stop3) ∨
   finishes registrations_kept
     (resume (@passive_scan process0 adapter0 [] 3%nat 13%nat scanning0)
        (Returned (MethodReturn [])) scanning0) after_start (Ok stop3)) ∧
  same_registrations after_start after_start ∧
  finishes registrations_kept
    (resume (stop stop3 after_start) (Returned (MethodReturn [])) after_start)
    after_stop (Ok tt) ∧
  registered registration3 removal3 scanning0 after_start ∧
  rolled_back registration3 removal3 scanning0 after_stop.
Proof.
  assert (H1 : finishes registrations_kept
     (resume (active_scan adapter0 ∅ 3%nat 13%nat scanning0) (Returned (MethodReturn []))
        scanning0) after_start (Ok stop3)).
  { apply (finishes_grant _ _ ok _ _ registrations_kept_refl).
    apply (finishes_grant _ _ ok _ _ registrations_kept_refl).
    apply finishes_outcome. vm_compute. reflexivity. }
  assert (H2 : same_registrations after_start after_start) by (split; reflexivity).
  assert (H3 : finishes registrations_kept
     (resume (stop stop3 after_start) (Returned (MethodReturn [])) after_start)
     after_stop (Ok tt)).
  { apply (finishes_grant _ _ ok _ _ registrations_kept_refl).
    apply (finishes_grant _ _ ok _ _ registrations_kept_refl).
    apply finishes_outcome. vm_compute. reflexivity. }
  split; [left; exact H1|]. split; [exact H2|]. split; [exact H3|].
  exact (@scan_then_stop_round_trip process0 adapter0 ∅ [] 3%nat 13%nat scanning0
           (MethodReturn []) scanning0 stop3 after_start after_start (MethodReturn [])
           after_start after_stop (or_introl H1) H2 H3).
Defined.

(** ** [passive_scan]: registering the monitor *)

(** X17: [passive_scan] on a known adapter registers the callbacks and
    asks the daemon to register a monitor under a path made of the
    process id and the identity of the monitor. When the daemon refuses,
    the scan raises: the [BleakError] about BlueZ 5.55 for the error
    name of an unknown method, the daemon's error otherwise; the
    callbacks are rolled back and the monitor is not exported. When the
    daemon accepts, the monitor is exported on the bus after that, and
    the scan returns. *)
Theorem register_monitor_then_export `{Process} adapter patterns cb1 cb2 s0 r s1 bus :
  is_Some (_properties s1 !! adapter) →
  _bus s1 = Some bus →
  let c := {| callback := cb1; adapter_path := adapter |} in
  let d := {| removed_callback := cb2; removed_adapter_path := adapter |} in
  let path := monitor_path_of s1 in
  let waiting := resume (passive_scan adapter patterns cb1 cb2 s0) (Returned r) s1 in
  ∃ s,
    pending waiting = Some (BusCall bus (monitor_call adapter "RegisterMonitor" path), s) ∧
    registered c d s1 s ∧
    (∀ name s2, same_registrations s s2 →
       ∃ sf, resume waiting (Returned (ErrorReply name)) s2 =
               Do ReleaseLock (Done sf (Err (register_monitor_error name))) ∧
             rolled_back c d s1 sf) ∧
    (∀ body s2, _bus s2 = Some bus →
       resume waiting (Returned (MethodReturn body)) s2 =
         Do (Export bus path (next_id s1))
           (Do ReleaseLock (Done s2 (Ok (StopPassive adapter path (next_id s1) c d))))).
Proof.
  intros Hadapter Hbus c d path waiting.
  exists (set_next_id (S (next_id s1))
            (set_device_removed_callbacks (_device_removed_callbacks s1 ++ [d])
               (set_advertisement_callbacks (_advertisement_callbacks s1 ++ [c]) s1))).
  assert (Hwaiting : waiting =
    on_exit
      (try_except
         (let! monitor := lift fresh in
          let monitor_path := ("/org/bleak/" ++ pretty getpid ++ "/" ++ pretty monitor)%string in
          let! reply := bus_call (monitor_call adapter "RegisterMonitor" monitor_path) in
          (match reply with
           | ErrorReply name =>
               if decide (name = unknown_method) then araise passive_scan_unsupported
               else aret tt
           | MethodReturn _ => aret tt
           end) >>
          lift (assert_reply reply) >>
          let! bus := lift the_bus in
          perform (Export bus monitor_path monitor) >>
          aret (StopPassive adapter monitor_path monitor c d))%async
         (lift (unregister_callbacks c d))
         (set_device_removed_callbacks (_device_removed_callbacks s1 ++ [d])
            (set_advertisement_callbacks (_advertisement_callbacks s1 ++ [c]) s1)))
      (λ s'' res, Do ReleaseLock (Done s'' res))).
  { unfold waiting, passive_scan. rewrite resume_with_bus_lock.
    unfold abind at 1. unfold lift at 1, get. simpl on_exit.
    rewrite decide_True by done.
    unfold abind at 1. unfold lift at 1. unfold register_callbacks, bind, modify.
    reflexivity. }
  rewrite Hwaiting. clear Hwaiting. clearbody c d.
  unfold try_except, bus_call, the_bus, fresh.
  unfold abind, lift, bind, modify, get, await. simpl. rewrite Hbus. simpl.
  split; [reflexivity|]. split; [by split|]. split.
  - intros name s2 [Ha Hr]. simpl in Ha, Hr.
    destruct (unregister_registered c d s2 _ _ Ha Hr) as (l' & m' & Hun & Hl & Hm & Hlf & Hmf).
    unfold register_monitor_error, araise, aret, assert_reply. case_decide; simpl.
    + rewrite Hun. simpl. eexists. split; [reflexivity|]. by repeat split.
    + rewrite Hun. simpl. eexists. split; [reflexivity|]. by repeat split.
  - intros body s2 Hbus2. unfold aret, assert_reply, ret, perform. simpl.
    rewrite Hbus2. simpl. reflexivity.
Qed.

(** The theorem at work: a passive scan on the first adapter. *)
Lemma register_monitor_then_export_witness :
  is_Some (_properties scanning0 !! adapter0) ∧
  _bus scanning0 = Some 0%nat ∧
  let c := {| callback := 3%nat; adapter_path := adapter0 |} in
  let d := {| removed_callback := 13%nat; removed_adapter_path := adapter0 |} in
  let path := @monitor_path_of process0 scanning0 in
  let waiting := resume (@passive_scan process0 adapter0 [] 3%nat 13%nat scanning0)
                   (Returned (MethodReturn [])) scanning0 in
  ∃ s,
    pending waiting = Some (BusCall 0%nat (monitor_call adapter0 "RegisterMonitor" path), s) ∧
    registered c d scanning0 s ∧
    (∀ name s2, same_registrations s s2 →
       ∃ sf, resume waiting (Returned (ErrorReply name)) s2 =
               Do ReleaseLock (Done sf (Err (register_monitor_error name))) ∧
             rolled_back c d scanning0 sf) ∧
    (∀ body s2, _bus s2 = Some 0%nat →
       resume waiting (Returned (MethodReturn body)) s2 =
         Do (Export 0%nat path (next_id scanning0))
           (Do ReleaseLock
              (Done s2 (Ok (StopPassive adapter0 path (next_id scanning0) c d))))).
Proof.
  assert (H1 : is_Some (_properties scanning0 !! adapter0)).
  { apply (proj2 (is_Some_alt _)). vm_compute. exact I. }
  assert (H2 : _bus scanning0 = Some 0%nat) by reflexivity.
  split; [exact H1|]. split; [exact H2|].
  exact (@register_monitor_then_export process0 adapter0 [] 3%nat 13%nat scanning0
           (MethodReturn []) scanning0 0%nat H1 H2).
Defined.

(** ** The snapshot and the indexes *)

Lemma object_props_run path i s :
  object_props path i s =
  (s, match interface_at (_properties s) path i with
      | Some d => Ok d
      | None => Err (KeyError (match _properties s !! path with Some _ => i | None => path end))
      end).
Proof. apply self_interface_run. Qed.

Lemma grown_refl s services : grown s services services [] [] [].
Proof. unfold grown. by rewrite !app_nil_r. Qed.

Lemma grown_trans s a b c s1 c1 d1 s2 c2 d2 :
  grown s a b s1 c1 d1 → grown s b c s2 c2 d2 →
  grown s a c (s1 ++ s2) (c1 ++ c2) (d1 ++ d2).
Proof.
  intros (Hi & Hs & Hc & Hd & Hf) (Hi' & Hs' & Hc' & Hd' & Hf').
  unfold grown. rewrite Hi', Hi, Hs', Hs, Hc', Hc, Hd', Hd, !(assoc_L (++)).
  split; [done|]. split; [done|]. split; [done|]. split; [done|].
  intros H0. by apply Hf', Hf.
Qed.

Ltac grow_one :=
  unfold grown, from_table; simpl; rewrite !fmap_app, !app_nil_r; simpl;
  split; [done|]; split; [done|]; split; [done|]; split; [done|];
  intros (Hsv & Hch & Hds); repeat split; try done;
  apply Forall_app; split; [done|]; by apply Forall_singleton.

Lemma build_descriptors_run `{GattObjects} char paths : ∀ services s,
  ∃ r, build_descriptors char paths services s = (s, r) ∧
    ∀ services', r = Ok services' → grown s services services' [] [] paths.
Proof.
  induction paths as [|p paths IH]; intros services s; simpl.
  { eexists. split; [done|]. intros services' [= <-]. apply grown_refl. }
  unfold bind. rewrite object_props_run.
  destruct (interface_at (_properties s) p GATT_DESCRIPTOR_INTERFACE) as [props|] eqn:Hp;
    [|by eexists].
  match goal with |- context [build_descriptors char paths ?sv s] =>
    destruct (IH sv s) as (r & -> & Hr)
  end.
  exists r. split; [done|]. intros services' Hok. specialize (Hr services' Hok).
  eapply (grown_trans s _ _ _ [] [] [p]) in Hr; [exact Hr|]. grow_one.
Qed.

Lemma build_characteristics_run `{GattObjects} service paths : ∀ services s,
  ∃ r, build_characteristics service paths services s = (s, r) ∧
    ∀ services', r = Ok services' →
      grown s services services' [] paths (paths ≫= children (_descriptor_map s)).
Proof.
  induction paths as [|p paths IH]; intros services s; simpl.
  { eexists. split; [done|]. intros services' [= <-]. apply grown_refl. }
  unfold bind at 1. rewrite object_props_run.
  destruct (interface_at (_properties s) p GATT_CHARACTERISTIC_INTERFACE) as [props|] eqn:Hp;
    [|by eexists].
  unfold bind at 1.
  destruct (reads_py_sub (default (VInt 23) (props !! "MTU")) s) as [Hs0 _].
  destruct (py_sub (default (VInt 23) (props !! "MTU")) 3 s) as [s0 [size|e]];
    simpl in Hs0; subst s0; [|by eexists].
  unfold bind at 1. unfold get at 1. unfold bind at 1.
  match goal with |- context [build_descriptors ?ch ?ps ?sv s] =>
    destruct (build_descriptors_run ch ps sv s) as ([services1|e] & -> & Hr1)
  end; [|by eexists].
  destruct (IH services1 s) as (r & -> & Hr2). exists r. split; [done|].
  intros services' Hok. specialize (Hr2 services' Hok). specialize (Hr1 services1 eq_refl).
  eapply (grown_trans s _ _ _ [] [p]) in Hr1; [|grow_one].
  eapply (grown_trans s) in Hr2; [|exact Hr1]. exact Hr2.
Qed.

Lemma build_services_run `{GattObjects} paths : ∀ services s,
  ∃ r, build_services paths services s = (s, r) ∧
    ∀ services', r = Ok services' →
      grown s services services' paths (paths ≫= children (_characteristic_map s))
        ((paths ≫= children (_characteristic_map s)) ≫= children (_descriptor_map s)).
Proof.
  induction paths as [|p paths IH]; intros services s; simpl.
  { eexists. split; [done|]. intros services' [= <-]. apply grown_refl. }
  unfold bind at 1. rewrite object_props_run.
  destruct (interface_at (_properties s) p GATT_SERVICE_INTERFACE) as [props|] eqn:Hp;
    [|by eexists].
  unfold bind at 1. unfold get at 1. unfold bind at 1.
  match goal with |- context [build_characteristics ?sv ?ps ?c s] =>
    destruct (build_characteristics_run sv ps c s) as ([services1|e] & -> & Hr1)
  end; [|by eexists].
  destruct (IH services1 s) as (r & -> & Hr2). exists r. split; [done|].
  intros services' Hok. specialize (Hr2 services' Hok). specialize (Hr1 services1 eq_refl).
  rewrite bind_app.
  eapply (grown_trans s _ _ _ [p] [] []) in Hr1; [|grow_one].
  eapply (grown_trans s) in Hr2; [|exact Hr1]. exact Hr2.
Qed.

Lemma build_snapshot_shape `{GattObjects} device_path s :
  ∃ sf r, build_snapshot device_path s = Done sf r ∧
    match r with
    | Ok services =>
        snapshot_of device_path sf services ∧
        _services_cache sf = <[device_path := services]> (_services_cache s)
    | Err _ => _services_cache sf = _services_cache s
    end ∧
    same_tables s sf.
Proof.
  unfold build_snapshot, abind, lift, get, fresh, bind, modify. simpl.
  destruct (build_services_run (children (_service_map s) device_path)
              {| coll_id := next_id s; coll_services := [];
                 coll_characteristics := []; coll_descriptors := [] |}
              (set_next_id (S (next_id s)) s)) as ([services|e] & Hrun & Hr).
  - simpl in Hrun. rewrite Hrun. simpl. eexists _, _. split; [done|].
    split; [|split; [done|by intros []]]. split; [|done].
    destruct (Hr services eq_refl) as (_ & Hs & Hc & Hd & Hf). simpl in *.
    split; [done|]. split; [done|]. split; [done|]. by apply Hf.
  - simpl in Hrun. rewrite Hrun. simpl. eexists _, _. split; [done|]. split; [done|].
    split; [done|by intros []].
Qed.

(** X18: a snapshot that [get_services] builds has one service handle
    for every path the service index lists under the device, one
    characteristic handle for every path the characteristic index lists
    under these, and one descriptor handle for every path the
    descriptor index lists under those, in the order of the loops; each
    handle holds the dictionary the Property Table has for its path. *)
Theorem snapshot_follows_indexes `{GattObjects} rely device_path (use_cached : bool)
    s sf services :
  (if use_cached then _services_cache s !! device_path else None) = None →
  finishes rely (get_services device_path use_cached s) sf (Ok services) →
  svc_path <$> coll_services services = service_paths sf device_path ∧
  chr_path <$> coll_characteristics services = characteristic_paths sf device_path ∧
  dsc_path <$> coll_descriptors services = descriptor_paths sf device_path ∧
  from_table sf services.
Proof.
  intros Hc Hfin.
  assert (Hwp : wp rely (get_services device_path use_cached s)
            (λ sf r, match r with
                     | Ok services => snapshot_of device_path sf services
                     | Err _ => True
                     end)).
  { unfold get_services. apply wp_abind, wp_lift. simpl. rewrite Hc.
    apply wp_abind. apply wp_any. intros s' [[]|e]; [|done].
    destruct (build_snapshot_shape device_path s') as (sf' & r & Hrun & Hr).
    eapply wp_done; [done|]. destruct Hr as [Hr _]. destruct r; [by destruct Hr | done]. }
  apply (wp_finishes _ _ _ _ _ Hwp Hfin).
Qed.

(** The theorem at work: the snapshot of the resolved device of the
    examples. *)
Lemma snapshot_follows_indexes_witness :
  (if false then _services_cache resolved0 !! device0 else None) = None ∧
  finishes any_interference (@get_services plain_handles device0 false resolved0)
    snapshot_state0 (Ok snapshot0) ∧
  svc_path <$> coll_services snapshot0 = service_paths snapshot_state0 device0 ∧
  chr_path <$> coll_characteristics snapshot0 = characteristic_paths snapshot_state0 device0 ∧
  dsc_path <$> coll_descriptors snapshot0 = descriptor_paths snapshot_state0 device0 ∧
  from_table snapshot_state0 snapshot0.
Proof.
  assert (H1 : (if false then _services_cache resolved0 !! device0 else None) = None)
    by reflexivity.
  assert (H2 : finishes any_interference (@get_services plain_handles device0 false resolved0)
                 snapshot_state0 (Ok snapshot0)).
  { apply finishes_outcome. vm_compute. reflexivity. }
  split; [exact H1|]. split; [exact H2|].
  exact (@snapshot_follows_indexes plain_handles any_interference device0 false resolved0
           snapshot_state0 snapshot0 H1 H2).
Defined.

(** ** A service that was removed *)

(** X19: the removal of a service ([InterfacesRemoved] naming the
    service interface) takes the service out of the Property Table but
    leaves it in the set of services of its device, and leaves the
    cached snapshot of the device in place. A call of [get_services]
    for the resolved device that does not use the cache then fails: it
    reaches the path of the service, finds no dictionary for it, and
    raises, caching nothing. *)
Theorem removed_service_breaks_get_services `{UserCode} `{GattObjects} device service s :
  service ∈ children (_service_map s) device →
  property_equals device "ServicesResolved" (VBool true) s →
  let s' := (_parse_msg (InterfacesRemoved service [GATT_SERVICE_INTERFACE]) s).1 in
  service ∈ children (_service_map s') device ∧
  _services_cache s' = _services_cache s ∧
  ∃ sf e, get_services device false s' = Done sf (Err e) ∧
          _services_cache sf = _services_cache s'.
Proof.
  intros Hin (current & Hcur & Heq) s'.
  assert (Hs' : s' = set_characteristic_map (delete (KStr service) (_characteristic_map s))
                       match _properties s !! service with
                       | Some ifaces =>
                           set_properties
                             (<[service := delete GATT_SERVICE_INTERFACE ifaces]> (_properties s)) s
                       | None => s
                       end).
  { unfold s'. simpl. unfold bind, interface_removed, bind, modify, index_del, modify. simpl.
    by destruct (_properties s !! service). }
  clearbody s'.
  assert (Hmap : _service_map s' = _service_map s).
  { rewrite Hs'. simpl. by destruct (_properties s !! service). }
  assert (Hcache : _services_cache s' = _services_cache s).
  { rewrite Hs'. simpl. by destruct (_properties s !! service). }
  assert (Hgone : interface_at (_properties s') service GATT_SERVICE_INTERFACE = None).
  { rewrite Hs'. simpl. unfold interface_at.
    destruct (_properties s !! service) as [ifaces|] eqn:Hp; simpl.
    - rewrite lookup_insert_eq. simpl. by rewrite lookup_delete_eq.
    - by rewrite Hp. }
  assert (Hres : property_at (_properties s') device DEVICE_INTERFACE "ServicesResolved" =
                 Some current).
  { rewrite <- Hcur. rewrite Hs'. simpl. unfold property_at, interface_at.
    destruct (_properties s !! service) as [ifaces|] eqn:Hp; simpl; [|done].
    destruct (decide (service = device)) as [->|Hne].
    - rewrite lookup_insert_eq, Hp. simpl. by rewrite lookup_delete_ne.
    - by rewrite lookup_insert_ne. }
  split; [unfold children; by rewrite Hmap|]. split; [done|].
  rewrite get_services_uncached by done.
  rewrite (wait_condition_immediate device "ServicesResolved" (VBool true) s' current)
    by done.
  simpl. destruct (build_snapshot_shape device s') as (sf & r & -> & Hr & Ht & Hi).
  destruct r as [services|e]; [|by exists sf, e].
  exfalso. destruct Hr as [(Hpaths & _ & _ & Hfrom & _) _].
  assert (Hlisted : service ∈ svc_path <$> coll_services services).
  { rewrite Hpaths. unfold service_paths, children.
    pose proof (Hi ServiceLevel) as Hsm. simpl in Hsm. by rewrite Hsm, Hmap. }
  apply list_elem_of_fmap in Hlisted as (x & -> & Hx).
  rewrite Forall_forall in Hfrom. specialize (Hfrom x Hx). rewrite Ht in Hfrom. congruence.
Qed.

(** The theorem at work: the service of the resolved device of the
    examples is removed. *)
Lemma removed_service_breaks_get_services_witness :
  service0 ∈ children (_service_map resolved0) device0 ∧
  property_equals device0 "ServicesResolved" (VBool true) resolved0 ∧
  let s' := (@_parse_msg quiet (InterfacesRemoved service0 [GATT_SERVICE_INTERFACE])
               resolved0).1 in
  service0 ∈ children (_service_map s') device0 ∧
  _services_cache s' = _services_cache resolved0 ∧
  ∃ sf e, @get_services plain_handles device0 false s' = Done sf (Err e) ∧
          _services_cache sf = _services_cache s'.
Proof.
  assert (H1 : service0 ∈ children (_service_map resolved0) device0).
  { replace (children (_service_map resolved0) device0) with [service0]
      by (vm_compute; reflexivity).
    constructor. }
  assert (H2 : property_equals device0 "ServicesResolved" (VBool true) resolved0).
  { exists (VBool true). split; vm_compute; reflexivity. }
  split; [exact H1|]. split; [exact H2|].
  exact (@removed_service_breaks_get_services quiet plain_handles device0 service0 resolved0
           H1 H2).
Defined.

(** ** The scanner: filters and constructor *)

Lemma typed_insert fs k x sig :
  filter_signature k = Some sig → typed_filters fs → typed_filters (<[k := variant sig x]> fs).
Proof.
  intros Hk Hfs k' v. destruct (decide (k = k')) as [<-|Hne].
  - rewrite lookup_insert_eq. by intros [= <-].
  - rewrite lookup_insert_ne by done. apply Hfs.
Qed.

Lemma set_filter_typed fs entry : typed_filters fs → typed_filters (Scanner.set_filter fs entry).
Proof.
  destruct entry as [k x]. intros Hfs. unfold Scanner.set_filter.
  repeat case_decide; subst; try done; by apply typed_insert.
Qed.

Lemma set_filter_keeps fs entry k :
  is_Some (fs !! k) → is_Some (Scanner.set_filter fs entry !! k).
Proof.
  destruct entry as [k' x]. intros Hk. unfold Scanner.set_filter.
  repeat case_decide; try done; by apply lookup_insert_is_Some'; right.
Qed.

Lemma set_filter_stores fs k x :
  is_Some (filter_signature k) → is_Some (Scanner.set_filter fs (k, x) !! k).
Proof.
  unfold filter_signature, Scanner.set_filter. intros Hk.
  repeat case_decide; try (by rewrite lookup_insert_eq). by destruct Hk.
Qed.

Lemma set_scanning_filter_run filters : ∀ fs,
  typed_filters fs →
  typed_filters (Scanner.set_scanning_filter filters fs) ∧
  (∀ k, is_Some (fs !! k) → is_Some (Scanner.set_scanning_filter filters fs !! k)) ∧
  (∀ k x, (k, x) ∈ filters → is_Some (filter_signature k) →
     is_Some (Scanner.set_scanning_filter filters fs !! k)).
Proof.
  unfold Scanner.set_scanning_filter.
  induction filters as [|[k0 x0] filters IH]; intros fs Hfs; simpl.
  { split; [done|]. split; [done|]. intros k x Hin. by apply elem_of_nil in Hin. }
  destruct (IH (Scanner.set_filter fs (k0, x0)) (set_filter_typed _ _ Hfs))
    as (Ht & Hkeep & Hstore).
  split; [done|]. split.
  - intros k Hk. by apply Hkeep, set_filter_keeps.
  - intros k x Hin Hsig. apply elem_of_cons in Hin as [[= -> ->]|Hin].
    + by apply Hkeep, set_filter_stores.
    + by eapply Hstore.
Qed.

(** X20: [set_scanning_filter] only ever adds to the filters: every
    filter that was set is still set, every given filter with a key it
    knows is set afterwards, and a given filter with another key is
    dropped, so that all filters of the result have a known key and a
    value with the D-Bus signature of that key. *)
Theorem set_scanning_filter_keeps_typed filters fs :
  typed_filters fs →
  typed_filters (Scanner.set_scanning_filter filters fs) ∧
  (∀ k, is_Some (fs !! k) → is_Some (Scanner.set_scanning_filter filters fs !! k)) ∧
  (∀ k x, (k, x) ∈ filters → is_Some (filter_signature k) →
     is_Some (Scanner.set_scanning_filter filters fs !! k)).
Proof. apply set_scanning_filter_run. Qed.

(** The theorem at work: a threshold and an unknown key, given to a
    scanner that has no filter yet. *)
Lemma set_scanning_filter_keeps_typed_witness :
  typed_filters ∅ ∧
  typed_filters (Scanner.set_scanning_filter filters0 ∅) ∧
  (∀ k, is_Some ((∅ : gmap string Variant) !! k) →
     is_Some (Scanner.set_scanning_filter filters0 ∅ !! k)) ∧
  (∀ k x, (k, x) ∈ filters0 → is_Some (filter_signature k) →
     is_Some (Scanner.set_scanning_filter filters0 ∅ !! k)).
Proof.
  assert (H1 : typed_filters ∅).
  { intros k v Hk. rewrite lookup_empty in Hk. discriminate Hk. }
  split; [exact H1|].
  exact (set_scanning_filter_keeps_typed filters0 ∅ H1).
Defined.

(** X21: a scanner that was constructed always filters on the
    transport and on duplicate data (["le"] and [False] unless the
    caller's filters say otherwise), all its filters have a known key
    and the signature of that key, and its adapter path is
    ["/org/bluez/"] followed by the adapter's name: the [adapter]
    keyword, else the [device] keyword, else ["hci0"]. *)
Theorem constructed_scanner_filters `{Scanner.BaseBleakScanner}
    detection_callback service_uuids scanning_mode bluez kwargs self :
  Scanner.__init__ detection_callback service_uuids scanning_mode bluez kwargs = Ok self →
  typed_filters (Scanner._filters self) ∧
  is_Some (Scanner._filters self !! "Transport") ∧
  is_Some (Scanner._filters self !! "DuplicateData") ∧
  (Scanner.kw_filters kwargs = None → Scanner.filters bluez = None →
     Scanner._filters self !! "Transport" = Some (variant "s" (VStr "le")) ∧
     Scanner._filters self !! "DuplicateData" = Some (variant "b" (VBool false))) ∧
  Scanner._adapter_path self =
    ("/org/bluez/" ++
     default (default "hci0" (Scanner.kw_device kwargs)) (Scanner.kw_adapter kwargs))%string.
Proof.
  unfold Scanner.__init__.
  set (fs0 := <["DuplicateData" := variant "b" (VBool false)]>
                (<["Transport" := variant "s" (VStr "le")]> (∅ : gmap string Variant))).
  set (fs1 := if Scanner.truthy (Scanner.base_service_uuids service_uuids)
              then <["UUIDs" := variant "as"
                      (VList (VStr <$> default [] (Scanner.base_service_uuids service_uuids)))]> fs0
              else fs0).
  set (filters := match Scanner.kw_filters kwargs with
                  | None => Scanner.filters bluez
                  | Some f => Some f
                  end).
  set (fs2 := match filters with
              | Some f => Scanner.set_scanning_filter f fs1
              | None => fs1
              end).
  assert (H0 : typed_filters fs0).
  { unfold fs0. apply typed_insert; [done|]. apply typed_insert; [done|].
    intros k v Hk. rewrite lookup_empty in Hk. discriminate Hk. }
  assert (H1 : typed_filters fs1).
  { unfold fs1. destruct (Scanner.truthy _); [|done]. by apply typed_insert. }
  assert (Hk1 : ∀ k, is_Some (fs0 !! k) → is_Some (fs1 !! k)).
  { intros k Hk. unfold fs1. destruct (Scanner.truthy _); [|done].
    apply lookup_insert_is_Some'. by right. }
  assert (Ht0 : fs0 !! "Transport" = Some (variant "s" (VStr "le"))) by done.
  assert (Hd0 : fs0 !! "DuplicateData" = Some (variant "b" (VBool false))) by done.
  assert (Ht1 : fs1 !! "Transport" = Some (variant "s" (VStr "le"))).
  { unfold fs1. destruct (Scanner.truthy _); [|done]. by rewrite lookup_insert_ne. }
  assert (Hd1 : fs1 !! "DuplicateData" = Some (variant "b" (VBool false))).
  { unfold fs1. destruct (Scanner.truthy _); [|done]. by rewrite lookup_insert_ne. }
  assert (H2 : typed_filters fs2 ∧ ∀ k, is_Some (fs1 !! k) → is_Some (fs2 !! k)).
  { unfold fs2. destruct filters as [f|]; [|done].
    destruct (set_scanning_filter_run f fs1 H1) as (Ht & Hkeep & _). by split. }
  destruct H2 as [H2 Hk2].
  simpl. destruct (_ && _); [done|]. intros [= <-]. simpl.
  split; [done|]. split; [apply Hk2; by rewrite Ht1|]. split; [apply Hk2; by rewrite Hd1|].
  split; [|done]. intros Hkw Hbz. unfold fs2, filters. by rewrite Hkw, Hbz.
Qed.

(** The theorem at work: the scanner of the examples. *)
Lemma constructed_scanner_filters_witness :
  @Scanner.__init__ plain_base None None "active" bluez_filters0 no_kwargs = Ok scanner0 ∧
  typed_filters (Scanner._filters scanner0) ∧
  is_Some (Scanner._filters scanner0 !! "Transport") ∧
  is_Some (Scanner._filters scanner0 !! "DuplicateData") ∧
  (Scanner.kw_filters no_kwargs = None → Scanner.filters bluez_filters0 = None →
     Scanner._filters scanner0 !! "Transport" = Some (variant "s" (VStr "le")) ∧
     Scanner._filters scanner0 !! "DuplicateData" = Some (variant "b" (VBool false))) ∧
  Scanner._adapter_path scanner0 =
    ("/org/bluez/" ++
     default (default "hci0" (Scanner.kw_device no_kwargs)) (Scanner.kw_adapter no_kwargs))%string.
Proof.
  assert (H1 : @Scanner.__init__ plain_base None None "active" bluez_filters0 no_kwargs =
               Ok scanner0) by (vm_compute; reflexivity).
  split; [exact H1|].
  exact (@constructed_scanner_filters plain_base None None "active" bluez_filters0 no_kwargs
           scanner0 H1).
Defined.

(** X22: the constructor raises exactly when the mode is ["passive"]
    and the [bluez] argument has no or-patterns, an empty list of them
    included; the error is then the [BleakError] that asks for them. In
    every other case it returns a scanner that is not started, with the
    mode and the or-patterns it was given. *)
Theorem scanner_init_raises_iff `{Scanner.BaseBleakScanner}
    detection_callback service_uuids scanning_mode bluez kwargs :
  match Scanner.__init__ detection_callback service_uuids scanning_mode bluez kwargs with
  | Err e =>
      e = BleakError "passive scanning mode requires bluez or_patterns" ∧
      scanning_mode = "passive" ∧
      (Scanner.or_patterns bluez = None ∨ Scanner.or_patterns bluez = Some [])
  | Ok self =>
      (scanning_mode ≠ "passive" ∨
       ∃ pattern patterns, Scanner.or_patterns bluez = Some (pattern :: patterns)) ∧
      Scanner._scanning_mode self = scanning_mode ∧
      Scanner._or_patterns self = Scanner.or_patterns bluez ∧
      Scanner._stop self = None ∧
      Scanner._devices self = ∅
  end.
Proof.
  unfold Scanner.__init__. simpl.
  destruct (bool_decide (scanning_mode = "passive")) eqn:Hmode; simpl.
  - apply bool_decide_eq_true in Hmode.
    destruct (Scanner.or_patterns bluez) as [[|pattern patterns]|]; simpl.
    + split; [done|]. split; [done|]. by right.
    + split; [|done]. right. by exists pattern, patterns.
    + split; [done|]. split; [done|]. by left.
  - apply bool_decide_eq_false in Hmode. split; [by left | done].
Qed.

(** ** The enumeration of [async_init] *)

Lemma load_object_table entry s :
  _properties (load_object entry s).1 = <[entry.1 := entry.2]> (_properties s).
Proof.
  destruct entry as [path props].
  change (load_object (path, props)) with
    (modify (λ s, set_properties (<[path := props]> (_properties s)) s) >>
     load_level ServiceLevel path props >>
     load_level CharacteristicLevel path props >>
     load_level DescriptorLevel path props)%sync.
  unfold bind at 1. unfold modify at 1. cbv beta iota.
  assert (Hl : ∀ lv s0, preserves (table_kept s0) (load_level lv path props)).
  { intros lv s0. unfold load_level.
    destruct (props !! level_interface lv); [|apply preserves_ret].
    case_decide; [apply preserves_ret|]. apply index_add_table. by destruct lv. }
  match goal with |- _properties (?m ?s1).1 = _ =>
    change (table_kept s1 (m s1).1); cut (preserves (table_kept s1) m);
      [intros Hm; by apply Hm|]
  end.
  apply preserves_bind; [apply Hl|]. intros _.
  apply preserves_bind; [apply Hl|]. intros _. apply Hl.
Qed.

Lemma load_loop_table objs : ∀ s,
  (for_each objs load_object s).2 = Ok tt →
  _properties (for_each objs load_object s).1 =
  foldl (λ t entry, <[entry.1 := entry.2]> t) (_properties s) objs.
Proof.
  induction objs as [|entry objs IH]; intros s; [done|].
  rewrite for_each_cons. pose proof (load_object_table entry s) as Ht.
  destruct (load_object entry s) as [s1 [[]|e]]; simpl in *; [|done].
  intros Hok. rewrite IH by done. by rewrite Ht.
Qed.

Lemma foldl_insert_lookup {V} (objs : list (string * V)) : ∀ (t : gmap string V) k,
  NoDup objs.*1 →
  foldl (λ t entry, <[entry.1 := entry.2]> t) t objs !! k =
  match (list_to_map objs : gmap string V) !! k with
  | Some v => Some v
  | None => t !! k
  end.
Proof.
  induction objs as [|[p v] objs IH]; intros t k Hnd; simpl.
  { by rewrite lookup_empty. }
  rewrite fmap_cons in Hnd. apply NoDup_cons in Hnd as [Hfresh Hnd]. simpl in Hfresh.
  rewrite IH by done. destruct (decide (p = k)) as [->|Hne].
  - rewrite (not_elem_of_list_to_map_1 _ _ Hfresh). by rewrite !lookup_insert_eq.
  - rewrite (lookup_insert_ne (list_to_map objs)) by done.
    by rewrite lookup_insert_ne.
Qed.

(** X23: when the enumeration of a bulk reply succeeds, the Property
    Table is the reply: it holds every object of the reply under its
    path, with all its interfaces, and nothing else. *)
Theorem enumeration_is_the_reply objs s0 s :
  NoDup objs.*1 →
  for_each objs load_object (clear_tables s0) = (s, Ok tt) →
  _properties s = list_to_map objs.
Proof.
  intros Hnd Hrun.
  pose proof (load_loop_table objs (clear_tables s0)) as Ht. rewrite Hrun in Ht.
  simpl in Ht. rewrite Ht by done. apply map_eq. intros k.
  rewrite foldl_insert_lookup by done. rewrite lookup_empty.
  by destruct (list_to_map objs !! k).
Qed.

(** The theorem at work: the reply of the examples. *)
Lemma enumeration_is_the_reply_witness :
  NoDup objects0.*1 ∧
  for_each objects0 load_object (clear_tables __init__) = (enumerated0, Ok tt) ∧
  _properties enumerated0 = list_to_map objects0.
Proof.
  assert (H1 : NoDup objects0.*1).
  { apply (bool_decide_unpack _). vm_compute. exact I. }
  assert (H2 : for_each objects0 load_object (clear_tables __init__) = (enumerated0, Ok tt))
    by (vm_compute; reflexivity).
  split; [exact H1|]. split; [exact H2|].
  exact (enumeration_is_the_reply objects0 __init__ enumerated0 H1 H2).
Defined.

(** ** What the signal handler leaves alone *)

Lemma handler_frame_refl s : handler_frame s s.
Proof. by repeat split. Qed.

Lemma handler_frame_frame s0 : frame_invariant (handler_frame s0).
Proof. by intros s1 s (ws & cs & ->) Hs. Qed.

Lemma handler_frame_table s0 table s :
  handler_frame s0 s → handler_frame s0 (set_properties table s).
Proof. done. Qed.

Lemma handler_frame_index s0 lv index s :
  handler_frame s0 s → handler_frame s0 (set_level_index lv index s).
Proof. by destruct lv. Qed.

Lemma index_add_handler s0 lv props key path :
  preserves (handler_frame s0)
    (index_add (level_index lv) (set_level_index lv) props key path).
Proof.
  unfold index_add. apply preserves_bind; [apply preserves_getitem|]. intros parent.
  destruct (hash_key parent); [|apply preserves_raise].
  apply preserves_modify. intros s. apply handler_frame_index.
Qed.

Lemma interface_added_handler `{UserCode} s0 p entry :
  preserves (handler_frame s0) (interface_added p entry).
Proof.
  destruct entry as [i props]. unfold interface_added.
  apply preserves_bind.
  { apply preserves_modify. intros s. apply handler_frame_table. }
  intros _. apply preserves_bind.
  { case_decide; [apply (index_add_handler s0 ServiceLevel)|].
    case_decide; [apply (index_add_handler s0 CharacteristicLevel)|].
    case_decide; [apply (index_add_handler s0 DescriptorLevel)|apply preserves_ret]. }
  intros _. case_decide; [|apply preserves_ret].
  apply preserves_frame_invariant;
    [apply run_advertisement_callbacks_frame | apply handler_frame_frame].
Qed.

Lemma interface_removed_handler `{UserCode} s0 p i :
  preserves (handler_frame s0) (interface_removed p i).
Proof.
  unfold interface_removed. apply preserves_bind.
  { apply preserves_modify. intros s Hs. destruct (_properties s !! p); [|done].
    by apply handler_frame_table. }
  intros _. case_decide.
  - apply preserves_bind; [by apply preserves_modify|]. intros _.
    apply preserves_bind.
    { apply preserves_modify. intros s. apply (handler_frame_index s0 ServiceLevel). }
    intros _. apply preserves_frame_invariant;
      [apply removed_callbacks_frame | apply handler_frame_frame].
  - case_decide.
    { apply preserves_modify. intros s. apply (handler_frame_index s0 CharacteristicLevel). }
    case_decide; [|apply preserves_ret].
    apply preserves_modify. intros s. apply (handler_frame_index s0 DescriptorLevel).
Qed.

Lemma run_condition_callback_handler s0 cc :
  preserves (handler_frame s0) (run_condition_callback cc).
Proof.
  unfold run_condition_callback.
  apply preserves_bind; [apply preserves_get|]. intros s.
  apply preserves_bind; [apply preserves_getitem|]. intros ifaces.
  apply preserves_bind; [apply preserves_getitem|]. intros props.
  apply preserves_bind; [apply preserves_getitem|]. intros v.
  destruct (py_eq _ _); [|apply preserves_ret].
  apply preserves_modify. intros s1 (Hb & Hbc & Ha & Hr & Hc & Hn & He).
  repeat split; try done. simpl. set_solver.
Qed.

Lemma dispatch_changed_handler `{UserCode} path i changed s0 :
  preserves (handler_frame s0) (dispatch_changed path i changed).
Proof.
  unfold dispatch_changed. case_decide.
  - apply preserves_bind.
    { apply preserves_bind; [apply preserves_self_interface|]. intros device.
      apply preserves_frame_invariant;
        [apply run_advertisement_callbacks_frame | apply handler_frame_frame]. }
    intros _. apply preserves_bind.
    { apply preserves_for_set. intros cc. apply run_condition_callback_handler. }
    intros _. case_decide; [|apply preserves_ret].
    apply preserves_frame_invariant;
      [apply connected_watchers_frame | apply handler_frame_frame].
  - case_decide; [|apply preserves_ret]. case_decide; [|apply preserves_ret].
    apply preserves_frame_invariant;
      [apply value_watchers_frame | apply handler_frame_frame].
Qed.

(** X24: handling a signal never changes the bus, the registrations of
    scans, the registered waiters or the identities handed out, whatever
    the signal and whatever the callbacks do through the manager's
    methods; it sets events and clears none. *)
Theorem signal_handler_frame `{UserCode} message s :
  let s' := (_parse_msg message s).1 in
  _bus s' = _bus s ∧
  bus_connected s' = bus_connected s ∧
  _advertisement_callbacks s' = _advertisement_callbacks s ∧
  _device_removed_callbacks s' = _device_removed_callbacks s ∧
  _condition_callbacks s' = _condition_callbacks s ∧
  next_id s' = next_id s ∧
  events s ⊆ events s'.
Proof.
  intros s'. change (handler_frame s s'). unfold s'.
  destruct message as [p entries|p ifs|p i changed invalidated|m|t]; simpl.
  - apply (preserves_for_each (handler_frame s)); [|apply handler_frame_refl].
    intros entry _. apply interface_added_handler.
  - apply (preserves_for_each (handler_frame s)); [|apply handler_frame_refl].
    intros i _. apply interface_removed_handler.
  - destruct (interface_at (_properties s) p i) as [props|] eqn:Hp.
    + rewrite (properties_changed_run p i changed invalidated props) by done. cbv zeta.
      assert (H2 : handler_frame s
                (set_self_interface p i (del_all invalidated (changed ∪ props)).1 s))
        by apply handler_frame_table, handler_frame_refl.
      destruct (del_all invalidated (changed ∪ props)).2; [done|].
      by apply dispatch_changed_handler.
    + unfold properties_changed, bind, get. simpl. rewrite Hp. apply handler_frame_refl.
  - apply handler_frame_refl.
  - apply handler_frame_refl.
Qed.

(** ** The name in the error of a missing adapter *)

Lemma last_segment_no_slash p :
  "/"%char ∉ list_ascii_of_string p → last_segment p = p.
Proof.
  destruct p as [|c rest]; [done|]. simpl. intros Hno.
  apply not_elem_of_cons in Hno as [Hc Hrest].
  destruct (Ascii.eqb_spec c "/"); [congruence|]. by rewrite bool_decide_eq_false_2.
Qed.

Lemma last_segment_after_slash a : ∀ b,
  "/"%char ∉ list_ascii_of_string b →
  last_segment (a +:+ String "/" b) = b.
Proof.
  induction a as [|c a IH]; intros b Hb; simpl.
  - destruct b as [|c' b']; [done|]. by apply last_segment_no_slash.
  - destruct (Ascii.eqb c "/"); [by apply IH|].
    rewrite bool_decide_eq_true_2; [by apply IH|].
    clear. induction a as [|c' a IHa]; simpl; [by left | by right].
Qed.

(** X25: the error of a missing adapter names the adapter by the last
    component of its path: what follows the last ["/"], and the whole
    path when it has none. *)
Theorem adapter_not_found_names_last_segment name :
  "/"%char ∉ list_ascii_of_string name →
  adapter_not_found name = BleakError ("adapter '" +:+ name +:+ "' not found") ∧
  ∀ parent, adapter_not_found (parent +:+ String "/" name) =
            BleakError ("adapter '" +:+ name +:+ "' not found").
Proof.
  intros Hname. unfold adapter_not_found. split.
  - by rewrite last_segment_no_slash.
  - intros parent. by rewrite last_segment_after_slash.
Qed.

(** The theorem at work: the first adapter of the examples. *)
Lemma adapter_not_found_names_last_segment_witness :
  ("/"%char ∉ list_ascii_of_string "hci0") ∧
  adapter_not_found "hci0" = BleakError ("adapter '" +:+ "hci0" +:+ "' not found") ∧
  ∀ parent, adapter_not_found (parent +:+ String "/" "hci0") =
            BleakError ("adapter '" +:+ "hci0" +:+ "' not found").
Proof.
  assert (H1 : "/"%char ∉ list_ascii_of_string "hci0").
  { apply (bool_decide_unpack _). vm_compute. exact I. }
  split; [exact H1|].
  exact (adapter_not_found_names_last_segment "hci0" H1).
Defined.
